(** * Chair counter: rooms as a union-find forest, the grid scanner and
      the output formatter.

    Shallow embedding of [src/room.py], [src/grid.py], [src/parser.py],
    [src/formatter.py] and [src/main.py], and of the parsing loop of
    [analysis/visualizer.py].

    Python objects live in a store: a [Room] object is a location of the
    [heap] and every method that mutates an object threads the heap.
    Python's [int] is [Z]; a [str] is a [string] whose characters are the
    code points below 256; the [chairs] dictionary, whose four keys are
    fixed at construction, is a record of four counters.  A result [None]
    of an embedded method stands for what the Python program cannot do in a
    run that returns: a dangling reference, an [IndexError], or a recursion
    of [final] that does not come back.  [RoomOps.final] follows a chain
    of forward pointers to its end, however long the chain is: it tells what
    a call of [final] returns.  Whether the call comes back in CPython
    depends on the recursion limit of the interpreter as well:
    [RoomOps.final_rec limit] is the recursion cut off after [limit] nested
    calls, and [Limited.parse] and [Main.main] are the program run under
    such a limit. *)

From stdpp Require Import base option list strings gmap pretty sorting.
From Stdlib Require Import ZArith Ascii Lia.

Local Open Scope string_scope.
Local Open Scope Z_scope.
Local Open Scope list_scope.

(** ** Chairs: the dictionary [{"W": 0, "P": 0, "S": 0, "C": 0}] *)

Inductive chair_type : Type := ChW | ChP | ChS | ChC.

Global Instance chair_type_eq_dec : EqDecision chair_type.
Proof. solve_decision. Defined.

Record Chairs : Type := mkChairs { cW : Z; cP : Z; cS : Z; cC : Z }.

Global Instance Chairs_eq_dec : EqDecision Chairs.
Proof. solve_decision. Defined.

Definition no_chairs : Chairs := mkChairs 0 0 0 0.

(** [chairs[t]] *)
Definition chair_get (c : Chairs) (t : chair_type) : Z :=
  match t with ChW => cW c | ChP => cP c | ChS => cS c | ChC => cC c end.

(** [chairs[t] += n] *)
Definition chair_add (c : Chairs) (t : chair_type) (n : Z) : Chairs :=
  match t with
  | ChW => mkChairs (cW c + n) (cP c) (cS c) (cC c)
  | ChP => mkChairs (cW c) (cP c + n) (cS c) (cC c)
  | ChS => mkChairs (cW c) (cP c) (cS c + n) (cC c)
  | ChC => mkChairs (cW c) (cP c) (cS c) (cC c + n)
  end.

(** Iteration order of the dictionary, also [CHAIR_TYPES] of the formatter. *)
Definition CHAIR_TYPES : list chair_type := [ChW; ChP; ChS; ChC].

(** The elementwise sum of two tallies (used to state results). *)
Definition chairs_sum (a b : Chairs) : Chairs :=
  mkChairs (cW a + cW b) (cP a + cP b) (cS a + cS b) (cC a + cC b).

(** [sum(chairs.values())] *)
Definition chairs_total (c : Chairs) : Z :=
  foldl (fun acc t => acc + chair_get c t) 0 CHAIR_TYPES.

(** ** room.py *)

(** A reference to a [Room] object. *)
Abbreviation loc := nat (only parsing).

Module Room.

Record t : Type := mk {
  id : Z;
  name : option string;
  chairs : Chairs;
  merged_into : option loc
}.

(** [Room.__init__] *)
Definition init (i : Z) : t :=
  {| id := i; name := None; chairs := no_chairs; merged_into := None |}.

Definition set_name (n : option string) (r : t) : t :=
  {| id := id r; name := n; chairs := chairs r; merged_into := merged_into r |}.
Definition set_chairs (c : Chairs) (r : t) : t :=
  {| id := id r; name := name r; chairs := c; merged_into := merged_into r |}.
Definition set_merged_into (m : option loc) (r : t) : t :=
  {| id := id r; name := name r; chairs := chairs r; merged_into := m |}.

End Room.

Global Instance Room_eq_dec : EqDecision Room.t.
Proof. solve_decision. Defined.

(** The store of [Room] objects; [Room(...)] allocates at the end. *)
Abbreviation heap := (list Room.t) (only parsing).

Definition alloc (h : heap) (r : Room.t) : heap * loc := (h ++ [r], length h).

(** A field update [obj.f = v] on the object at [l]. *)
Definition update (h : heap) (l : loc) (f : Room.t -> Room.t) : option heap :=
  r ← h !! l; Some (<[l := f r]> h).

(** Python truthiness of an optional string: [None] and [""] are false. *)
Definition truthy (s : option string) : bool :=
  match s with
  | None => false
  | Some s => negb (String.eqb s "")
  end.

Module RoomOps.

(** [Room.merge_with]: the loop over the four chair types reads
    [other.chairs[t]] and adds it to [self.chairs[t]], one key at a time;
    then the name test, then the forward pointer. *)
Definition merge_with (h : heap) (self other : loc) : option (heap * loc) :=
  h1 ← foldl (fun oh ty =>
                h ← oh;
                o ← h !! other;
                update h self (fun s =>
                  Room.set_chairs
                    (chair_add (Room.chairs s) ty (chair_get (Room.chairs o) ty)) s))
             (Some h) CHAIR_TYPES;
  o ← h1 !! other;
  s ← h1 !! self;
  h2 ← (if truthy (Room.name o) && negb (truthy (Room.name s))
        then update h1 self (Room.set_name (Room.name o))
        else Some h1);
  h3 ← update h2 other (Room.set_merged_into (Some self));
  Some (h3, self).

(** [Room.final], with the depth of the recursion bounded by [fuel]: the
    call itself and the calls nested in it are at most [fuel]. *)
Fixpoint final_rec (fuel : nat) (h : heap) (self : loc) : option (heap * loc) :=
  match fuel with
  | O => None
  | S fuel =>
      r ← h !! self;
      match Room.merged_into r with
      | None => Some (h, self)
      | Some p =>
          '(h1, root) ← final_rec fuel h p;
          h2 ← update h1 self (Room.set_merged_into (Some root));
          r2 ← h2 !! self;
          Room.merged_into r2 ≫= fun m => Some (h2, m)
      end
  end.

(** What [self.final()] returns when the recursion is not cut short: a
    chain of forward pointers in a store of [n] rooms that comes back has
    fewer than [n] links (see [resolves_depth_lt]), so the number of rooms
    is fuel enough.  The interpreter allows [limit] nested calls only, and
    raises [RecursionError] beyond: that run is [final_rec limit] (see
    [Limited]), which agrees with [final] whenever it comes back (see
    [final_rec_final]). *)
Definition final (h : heap) (self : loc) : option (heap * loc) :=
  final_rec (length h) h self.

End RoomOps.

(** ** grid.py *)

(** Python indexing [seq[i]] of a sequence of [n] items: a negative index
    counts from the end, anything else out of range is an [IndexError]. *)
Definition py_index (n : nat) (i : Z) : option nat :=
  if (0 <=? i) && (i <? Z.of_nat n) then Some (Z.to_nat i)
  else if (- Z.of_nat n <=? i) && (i <? 0) then Some (Z.to_nat (Z.of_nat n + i))
  else None.

(** [range(n)] *)
Definition range (n : Z) : list Z := seqZ 0 n.

(** The line boundaries of [str.splitlines] among the code points below
    256: LF, VT, FF, CR, FS, GS, RS and NEL. *)
Definition is_linebreak (c : ascii) : bool :=
  bool_decide (nat_of_ascii c ∈ [10; 11; 12; 13; 28; 29; 30; 133]%nat).

(** [str.splitlines()]: [cur] is the line read so far and [pending] tells
    whether a line has been started; CR LF is one boundary. *)
Fixpoint splitlines_go (cur : string) (pending : bool) (s : string) : list string :=
  match s with
  | EmptyString => if pending then [cur] else []
  | String c s' =>
      if is_linebreak c then
        cur :: match s' with
               | String c' s'' =>
                   if bool_decide (nat_of_ascii c = 13%nat) && bool_decide (nat_of_ascii c' = 10%nat)
                   then splitlines_go "" false s''
                   else splitlines_go "" false s'
               | EmptyString => splitlines_go "" false s'
               end
      else splitlines_go (cur +:+ String c "") true s'
  end.

Definition splitlines (text : string) : list string := splitlines_go "" false text.

(** [len(s)] *)
Definition len (s : string) : Z := Z.of_nat (String.length s).

Definition WALL_CHARS : list ascii := ["-"; "|"; "+"; "/"; "\"]%char.

(** The module-level [is_wall(char)]. *)
Definition is_wall (char : ascii) : bool := bool_decide (char ∈ WALL_CHARS).

(** The module-level [get_char(lines, x, y)].  Under the two guards the
    subscripts are in range; the fall-back branches are not reached. *)
Definition get_char (lines : list string) (x y : Z) : ascii :=
  if (y <? 0) || (y >=? Z.of_nat (length lines)) then " "%char
  else match lines !! Z.to_nat y with
       | None => " "%char
       | Some line =>
           if (x <? 0) || (x >=? len line) then " "%char
           else default " "%char (String.get (Z.to_nat x) line)
       end.

Module Grid.

(** The attributes [height] and [width] are assigned once, in
    [__init__], from [lines], which is never assigned again: they are
    functions of [lines].  [cells] is the attribute [_cells]. *)
Record t : Type := mk {
  lines : list string;
  cells : list (list (option loc))
}.

Definition height (g : t) : Z := Z.of_nat (length (lines g)).

(** [max(len(line) for line in self.lines) if self.lines else 0] *)
Definition width (g : t) : Z :=
  match lines g with
  | [] => 0
  | l :: ls => foldl (fun m l' => Z.max m (len l')) (len l) ls
  end.

(** [Grid.__init__] *)
Definition init (text : string) : t :=
  let g := {| lines := splitlines text; cells := [] |} in
  {| lines := lines g;
     cells := replicate (Z.to_nat (height g)) (replicate (Z.to_nat (width g)) None) |}.

Definition get_char (g : t) (x y : Z) : ascii :=
  if (y <? 0) || (y >=? height g) then " "%char
  else match lines g !! Z.to_nat y with
       | None => " "%char
       | Some line =>
           if (x <? 0) || (x >=? len line) then " "%char
           else default " "%char (String.get (Z.to_nat x) line)
       end.

Definition is_wall (g : t) (x y : Z) : bool :=
  bool_decide (get_char g x y ∈ WALL_CHARS).

(** [get_room]: [_cells] has [height] rows of [width] cells, so under the
    guards the subscripts are in range. *)
Definition get_room (g : t) (x y : Z) : option loc :=
  if (y <? 0) || (y >=? height g) then None
  else if (x <? 0) || (x >=? width g) then None
  else row ← cells g !! Z.to_nat y; mjoin (row !! Z.to_nat x).

(** [set_room]: [self._cells[y][x] = room], an [IndexError] is [None]. *)
Definition set_room (g : t) (x y : Z) (room : loc) : option t :=
  j ← py_index (length (cells g)) y;
  row ← cells g !! j;
  i ← py_index (length row) x;
  Some {| lines := lines g; cells := <[j := <[i := Some room]> row]> (cells g) |}.

Definition get_connected_room_above (g : t) (x y : Z) : option loc :=
  if y <=? 0 then None
  else if is_wall g x (y - 1) then None
  else get_room g x (y - 1).

(** The message printed to [sys.stderr] for an unnamed room with chairs. *)
Definition warning (room_id total_chairs : Z) : string :=
  "WARNING: Unnamed room (id=" +:+ pretty room_id +:+ ") contains "
    +:+ pretty total_chairs +:+ " chair(s) - not included in output".

(** The local variables of [extract_unique_rooms], the store, and the
    lines printed to the error stream. *)
Record extraction : Type := mkExtraction {
  ex_heap : heap;
  seen_ids : gset Z;
  rooms : list loc;
  stderr : list string
}.

(** The body of the inner loop of [extract_unique_rooms]. *)
Definition extract_cell (e : extraction) (cell : option loc) : option extraction :=
  match cell with
  | None => Some e
  | Some cell =>
      '(h, room) ← RoomOps.final (ex_heap e) cell;
      r ← h !! room;
      if bool_decide (Room.id r ∉ seen_ids e) then
        let seen := seen_ids e ∪ {[ Room.id r ]} in
        match Room.name r with
        | Some _ =>
            Some (mkExtraction h seen (rooms e ++ [room]) (stderr e))
        | None =>
            let total_chairs := chairs_total (Room.chairs r) in
            if 0 <? total_chairs
            then Some (mkExtraction h seen (rooms e)
                         (stderr e ++ [warning (Room.id r) total_chairs]))
            else Some (mkExtraction h seen (rooms e) (stderr e))
        end
      else Some (mkExtraction h (seen_ids e) (rooms e) (stderr e))
  end.

Definition extract_row (oe : option extraction) (row : list (option loc))
  : option extraction :=
  foldl (fun oe cell => e ← oe; extract_cell e cell) oe row.

(** [extract_unique_rooms]: the returned list of rooms, with the store
    after the path compressions and what was printed. *)
Definition extract_unique_rooms (h : heap) (g : t) : option extraction :=
  foldl extract_row (Some (mkExtraction h ∅ [] [])) (cells g).

End Grid.

(** ** parser.py *)

(** [char in CHAIR_CHARS], with the key of [chairs] that [char] is. *)
Definition chair_of_char (char : ascii) : option chair_type :=
  if bool_decide (char = "W"%char) then Some ChW
  else if bool_decide (char = "P"%char) then Some ChP
  else if bool_decide (char = "S"%char) then Some ChS
  else if bool_decide (char = "C"%char) then Some ChC
  else None.

Module Parser.

(** The store, the grid and the local variables of [parse]. *)
Record state : Type := mkState {
  st_heap : heap;
  grid : Grid.t;
  room_counter : Z;
  current_room : option loc;
  name_buffer : option string
}.

(** A wall cell: [current_room = None; name_buffer = None; continue]. *)
Definition close_room (st : state) : state :=
  mkState (st_heap st) (grid st) (room_counter st) None None.

(** [if current_room is None: room_counter += 1;
     current_room = Room(room_counter)]; gives the open room. *)
Definition open_room (st : state) : state * loc :=
  match current_room st with
  | Some c => (st, c)
  | None =>
      let counter := room_counter st + 1 in
      let '(h, c) := alloc (st_heap st) (Room.init counter) in
      (mkState h (grid st) counter (Some c) (name_buffer st), c)
  end.

(** The check of the cell above and the merge. *)
Definition merge_above (h : heap) (g : Grid.t) (x y : Z) (cur : loc) : option heap :=
  match Grid.get_connected_room_above g x y with
  | None => Some h
  | Some room_above =>
      '(h1, final_above) ← RoomOps.final h room_above;
      '(h2, final_current) ← RoomOps.final h1 cur;
      if bool_decide (final_above ≠ final_current)
      then '(h3, _) ← RoomOps.merge_with h2 final_above final_current; Some h3
      else Some h2
  end.

(** [if char in CHAIR_CHARS: current_room.final().chairs[char] += 1] *)
Definition count_chair (h : heap) (char : ascii) (cur : loc) : option heap :=
  match chair_of_char char with
  | None => Some h
  | Some ty =>
      '(h1, root) ← RoomOps.final h cur;
      update h1 root (fun r => Room.set_chairs (chair_add (Room.chairs r) ty 1) r)
  end.

(** The [(...)] pattern: gives the store and the new [name_buffer]. *)
Definition track_name (h : heap) (char : ascii) (cur : loc) (buf : option string)
  : option (heap * option string) :=
  if bool_decide (char = "("%char) then Some (h, Some "")
  else match buf with
       | Some b =>
           if bool_decide (char = ")"%char) then
             '(h1, root) ← RoomOps.final h cur;
             h2 ← update h1 root (Room.set_name (Some b));
             Some (h2, None)
           else Some (h, Some (b +:+ String char ""))
       | None => Some (h, None)
       end.

(** The state after the merge and [set_room], before the chair and the
    name of a floor cell are looked at. *)
Definition enter_cell (st : state) (x y : Z) : option (state * loc) :=
  let '(st1, cur) := open_room st in
  h ← merge_above (st_heap st1) (grid st1) x y cur;
  g ← Grid.set_room (grid st1) x y cur;
  Some (mkState h g (room_counter st1) (current_room st1) (name_buffer st1), cur).

(** The body of the loop over [x]. *)
Definition scan_cell (y : Z) (st : state) (x : Z) : option state :=
  let char := Grid.get_char (grid st) x y in
  if Grid.is_wall (grid st) x y then Some (close_room st)
  else
    '(st2, cur) ← enter_cell st x y;
    h3 ← count_chair (st_heap st2) char cur;
    '(h4, buf) ← track_name h3 char cur (name_buffer st2);
    Some (mkState h4 (grid st2) (room_counter st2) (current_room st2) buf).

(** The body of the loop over [y]. *)
Definition scan_row (st : state) (y : Z) : option state :=
  foldl (fun ost x => st ← ost; scan_cell y st x)
        (Some (close_room st)) (range (Grid.width (grid st))).

(** The two loops of [parse]. *)
Definition scan (text : string) : option state :=
  let g := Grid.init text in
  foldl (fun ost y => st ← ost; scan_row st y)
        (Some (mkState [] g 0 None None)) (range (Grid.height g)).

(** [parse]: the returned rooms are [Grid.rooms] of the result, to be
    read in its store [Grid.ex_heap]. *)
Definition parse (text : string) : option Grid.extraction :=
  let g := Grid.init text in
  if Grid.height g =? 0 then Some (Grid.mkExtraction [] ∅ [] [])
  else
    st ← scan text;
    Grid.extract_unique_rooms (st_heap st) (grid st).

(** The rooms that [parse] returns, as they are in the final store. *)
Definition parsed_rooms (text : string) : option (list Room.t) :=
  e ← parse text;
  mapM (fun l => Grid.ex_heap e !! l) (Grid.rooms e).

End Parser.

(** ** formatter.py *)

Module Formatter.

Definition chair_key (t : chair_type) : string :=
  match t with ChW => "W" | ChP => "P" | ChS => "S" | ChC => "C" end.

(** [", ".join(parts)] and ["\n".join(lines)] *)
Fixpoint join (sep : string) (parts : list string) : string :=
  match parts with
  | [] => ""
  | [p] => p
  | p :: ps => p +:+ sep +:+ join sep ps
  end.

Definition format_chair_line (chairs : Chairs) : string :=
  let parts := (fun t => chair_key t +:+ ": " +:+ pretty (chair_get chairs t)) <$> CHAIR_TYPES in
  join ", " parts.

(** [r.name or ""], the sort key. *)
Definition sort_key (r : Room.t) : string :=
  if truthy (Room.name r) then default "" (Room.name r) else "".

(** [f"{room.name}"] *)
Definition name_text (r : Room.t) : string :=
  match Room.name r with Some n => n | None => "None" end.

(** [sorted(rooms, key=...)]: Python's sort is stable, so its result is
    the one of a stable insertion sort. *)
Fixpoint insert_by (r : Room.t) (l : list Room.t) : list Room.t :=
  match l with
  | [] => [r]
  | r' :: l' =>
      if String.leb (sort_key r) (sort_key r') then r :: r' :: l'
      else r' :: insert_by r l'
  end.

Definition sorted (rooms : list Room.t) : list Room.t :=
  foldr insert_by [] rooms.

Definition newline : string := String (ascii_of_nat 10) "".

Definition format_output (rooms : list Room.t) : string :=
  let totals :=
    foldl (fun totals room =>
             foldl (fun totals t => chair_add totals t (chair_get (Room.chairs room) t))
                   totals CHAIR_TYPES)
          no_chairs rooms in
  let sorted_rooms := sorted rooms in
  let lines := ["total:"; format_chair_line totals] in
  let lines :=
    foldl (fun lines room =>
             (lines ++ [name_text room +:+ ":"]) ++ [format_chair_line (Room.chairs room)])
          lines sorted_rooms in
  join newline lines +:+ newline.

End Formatter.

(** ** The recursion of [Room.final] and the interpreter *)

(** [parse] and [extract_unique_rooms] once more, statement for statement,
    with the method [Room.final] taken as the parameter [final]: for
    [RoomOps.final] this is [Parser.parse] itself (see
    [with_final_parse]); for [RoomOps.final_rec limit] it is the run under
    a bound on the depth of the recursion. *)
Module WithFinal.
Section with_final.
Variable final : heap -> loc -> option (heap * loc).

Definition merge_above (h : heap) (g : Grid.t) (x y : Z) (cur : loc) : option heap :=
  match Grid.get_connected_room_above g x y with
  | None => Some h
  | Some room_above =>
      '(h1, final_above) ← final h room_above;
      '(h2, final_current) ← final h1 cur;
      if bool_decide (final_above ≠ final_current)
      then '(h3, _) ← RoomOps.merge_with h2 final_above final_current; Some h3
      else Some h2
  end.

Definition count_chair (h : heap) (char : ascii) (cur : loc) : option heap :=
  match chair_of_char char with
  | None => Some h
  | Some ty =>
      '(h1, root) ← final h cur;
      update h1 root (fun r => Room.set_chairs (chair_add (Room.chairs r) ty 1) r)
  end.

Definition track_name (h : heap) (char : ascii) (cur : loc) (buf : option string)
  : option (heap * option string) :=
  if bool_decide (char = "("%char) then Some (h, Some "")
  else match buf with
       | Some b =>
           if bool_decide (char = ")"%char) then
             '(h1, root) ← final h cur;
             h2 ← update h1 root (Room.set_name (Some b));
             Some (h2, None)
           else Some (h, Some (b +:+ String char ""))
       | None => Some (h, None)
       end.

Definition enter_cell (st : Parser.state) (x y : Z) : option (Parser.state * loc) :=
  let '(st1, cur) := Parser.open_room st in
  h ← merge_above (Parser.st_heap st1) (Parser.grid st1) x y cur;
  g ← Grid.set_room (Parser.grid st1) x y cur;
  Some (Parser.mkState h g (Parser.room_counter st1) (Parser.current_room st1)
          (Parser.name_buffer st1), cur).

Definition scan_cell (y : Z) (st : Parser.state) (x : Z) : option Parser.state :=
  let char := Grid.get_char (Parser.grid st) x y in
  if Grid.is_wall (Parser.grid st) x y then Some (Parser.close_room st)
  else
    '(st2, cur) ← enter_cell st x y;
    h3 ← count_chair (Parser.st_heap st2) char cur;
    '(h4, buf) ← track_name h3 char cur (Parser.name_buffer st2);
    Some (Parser.mkState h4 (Parser.grid st2) (Parser.room_counter st2)
            (Parser.current_room st2) buf).

Definition scan_row (st : Parser.state) (y : Z) : option Parser.state :=
  foldl (fun ost x => st ← ost; scan_cell y st x)
        (Some (Parser.close_room st)) (range (Grid.width (Parser.grid st))).

Definition scan (text : string) : option Parser.state :=
  let g := Grid.init text in
  foldl (fun ost y => st ← ost; scan_row st y)
        (Some (Parser.mkState [] g 0 None None)) (range (Grid.height g)).

Definition extract_cell (e : Grid.extraction) (cell : option loc)
  : option Grid.extraction :=
  match cell with
  | None => Some e
  | Some cell =>
      '(h, room) ← final (Grid.ex_heap e) cell;
      r ← h !! room;
      if bool_decide (Room.id r ∉ Grid.seen_ids e) then
        let seen := Grid.seen_ids e ∪ {[ Room.id r ]} in
        match Room.name r with
        | Some _ =>
            Some (Grid.mkExtraction h seen (Grid.rooms e ++ [room]) (Grid.stderr e))
        | None =>
            let total_chairs := chairs_total (Room.chairs r) in
            if 0 <? total_chairs
            then Some (Grid.mkExtraction h seen (Grid.rooms e)
                         (Grid.stderr e ++ [Grid.warning (Room.id r) total_chairs]))
            else Some (Grid.mkExtraction h seen (Grid.rooms e) (Grid.stderr e))
        end
      else Some (Grid.mkExtraction h (Grid.seen_ids e) (Grid.rooms e) (Grid.stderr e))
  end.

Definition extract_row (oe : option Grid.extraction) (row : list (option loc))
  : option Grid.extraction :=
  foldl (fun oe cell => e ← oe; extract_cell e cell) oe row.

Definition extract_unique_rooms (h : heap) (g : Grid.t) : option Grid.extraction :=
  foldl extract_row (Some (Grid.mkExtraction h ∅ [] [])) (Grid.cells g).

Definition parse (text : string) : option Grid.extraction :=
  let g := Grid.init text in
  if Grid.height g =? 0 then Some (Grid.mkExtraction [] ∅ [] [])
  else
    st ← scan text;
    extract_unique_rooms (Parser.st_heap st) (Parser.grid st).

End with_final.
End WithFinal.

(** The program under CPython's recursion limit.  [limit] is the number
    of nested calls of [Room.final] that the interpreter's stack has room
    for when [final] is called: [sys.getrecursionlimit()], 1000 unless it is
    changed, less the frames of the callers ([parse] or
    [extract_unique_rooms] and whatever called them), so at most 999.  A
    call of [final] that needs more raises [RecursionError], which nothing
    catches: the result is [None]. *)
Module Limited.

Definition final (limit : nat) : heap -> loc -> option (heap * loc) :=
  RoomOps.final_rec limit.

Definition scan (limit : nat) (text : string) : option Parser.state :=
  WithFinal.scan (final limit) text.

Definition parse (limit : nat) (text : string) : option Grid.extraction :=
  WithFinal.parse (final limit) text.

(** The rooms that [parse] returns, as they are in the final store. *)
Definition parsed_rooms (limit : nat) (text : string) : option (list Room.t) :=
  e ← parse limit text;
  mapM (fun l => Grid.ex_heap e !! l) (Grid.rooms e).

End Limited.

(** [s * n] *)
Fixpoint repeat_string (n : nat) (s : string) : string :=
  match n with
  | O => ""
  | S n => s +:+ repeat_string n s
  end.

(** [' |' * n + '\n '], a row of [n] compartments of one cell each, which all
    open onto the row below. *)
Definition deep_plan (n : nat) : string :=
  repeat_string n " |" +:+ Formatter.newline +:+ " ".

(** ** main.py *)

Module Main.




End Main.

(** ** analysis/visualizer.py: the parsing loop of [run_static] *)

Module Visualizer.

(** The attributes of [ParsingVisualizer] that the parsing loop reads and
    writes: [lines], [grid] and [room_counter]; [height] and [width] are
    assigned once, from [lines]. *)
Record t : Type := mk {
  lines : list string;
  grid : list (list (option loc));
  room_counter : Z
}.

Definition height (v : t) : Z := Z.of_nat (length (lines v)).

(** [max(len(line) for line in self.lines) if self.lines else 0] *)
Definition width (v : t) : Z :=
  match lines v with
  | [] => 0
  | l :: ls => foldl (fun m l' => Z.max m (len l')) (len l) ls
  end.

(** [ParsingVisualizer.__init__] *)
Definition init (floor_plan : string) : t :=
  let v := {| lines := splitlines floor_plan; grid := []; room_counter := 0 |} in
  {| lines := lines v;
     grid := replicate (Z.to_nat (height v)) (replicate (Z.to_nat (width v)) None);
     room_counter := 0 |}.

(** The store, the visualizer and the local variables of [run_static]. *)
Record state : Type := mkState {
  st_heap : heap;
  self : t;
  current_room : option loc;
  name_buffer : option string
}.

(** [self.grid[y][x]] *)
Definition grid_get (v : t) (x y : Z) : option (option loc) :=
  j ← py_index (length (grid v)) y;
  row ← grid v !! j;
  i ← py_index (length row) x;
  row !! i.

(** [self.grid[y][x] = room] *)
Definition grid_set (v : t) (x y : Z) (room : loc) : option t :=
  j ← py_index (length (grid v)) y;
  row ← grid v !! j;
  i ← py_index (length row) x;
  Some {| lines := lines v; grid := <[j := <[i := Some room]> row]> (grid v);
          room_counter := room_counter v |}.

(** [if y > 0: ...]: the check of the cell above and the merge. *)
Definition merge_above (h : heap) (v : t) (x y : Z) (cur : loc) : option heap :=
  if 0 <? y then
    let char_above := get_char (lines v) x (y - 1) in
    if negb (is_wall char_above) then
      room_above ← grid_get v x (y - 1);
      match room_above with
      | Some room_above =>
          '(h1, final_above) ← RoomOps.final h room_above;
          '(h2, final_current) ← RoomOps.final h1 cur;
          if bool_decide (final_above ≠ final_current)
          then '(h3, _) ← RoomOps.merge_with h2 final_above final_current; Some h3
          else Some h2
      | None => Some h
      end
    else Some h
  else Some h.

(** The body of the loop over [x].  The statements that count the chair
    and track the name are those of [parse], word for word. *)
Definition static_cell (y : Z) (s : state) (x : Z) : option state :=
  let char := get_char (lines (self s)) x y in
  if is_wall char then Some (mkState (st_heap s) (self s) None None)
  else
    let '(h, v, cur) :=
      match current_room s with
      | Some c => (st_heap s, self s, c)
      | None =>
          let counter := room_counter (self s) + 1 in
          let '(h, c) := alloc (st_heap s) (Room.init counter) in
          (h, {| lines := lines (self s); grid := grid (self s);
                 room_counter := counter |}, c)
      end in
    h1 ← merge_above h v x y cur;
    v1 ← grid_set v x y cur;
    h2 ← Parser.count_chair h1 char cur;
    '(h3, buf) ← Parser.track_name h2 char cur (name_buffer s);
    Some (mkState h3 v1 (Some cur) buf).

(** The body of the loop over [y]. *)
Definition static_row (s : state) (y : Z) : option state :=
  foldl (fun os x => s ← os; static_cell y s x)
        (Some (mkState (st_heap s) (self s) None None)) (range (width (self s))).

(** The two loops of [run_static], from a new visualizer. *)
Definition static_scan (floor_plan : string) : option state :=
  let v := init floor_plan in
  foldl (fun os y => s ← os; static_row s y)
        (Some (mkState [] v None None)) (range (height v)).

(** The state of [run_static] that corresponds to a state of [parse]. *)
Definition of_parser (st : Parser.state) : state :=
  mkState (Parser.st_heap st)
          {| lines := Grid.lines (Parser.grid st); grid := Grid.cells (Parser.grid st);
             room_counter := Parser.room_counter st |}
          (Parser.current_room st) (Parser.name_buffer st).

End Visualizer.

(** * The vocabulary of the statements *)

(** [resolves_in h l root d]: following [merged_into] from [l] reaches, in
    [d] links, the room [root], whose [merged_into] is [None]. *)
Inductive resolves_in (h : heap) : loc -> loc -> nat -> Prop :=
| resolves_root l r :
    h !! l = Some r -> Room.merged_into r = None -> resolves_in h l l 0
| resolves_step l r p root d :
    h !! l = Some r -> Room.merged_into r = Some p ->
    resolves_in h p root d -> resolves_in h l root (S d).

(** [root] is the root of [l]: what [l.final()] is to return. *)
Definition resolves (h : heap) (l root : loc) : Prop := exists d, resolves_in h l root d.

(** The room at [l] has not been merged into another one. *)
Definition is_root (h : heap) (l : loc) : Prop :=
  exists r, h !! l = Some r /\ Room.merged_into r = None.

(** Every room of the store has a root: the pointers form a forest. *)
Definition forest (h : heap) : Prop :=
  forall l, (l < length h)%nat -> exists root, resolves h l root.

(** Two rooms hold the same data (all but the forward pointer). *)
Definition same_data (r r' : Room.t) : Prop :=
  Room.id r' = Room.id r /\ Room.name r' = Room.name r /\ Room.chairs r' = Room.chairs r.

(** [compressed h h']: [h'] is [h] with some absorbed rooms pointed at
    their own root; what [final] does to the store. *)
Definition compressed (h h' : heap) : Prop :=
  length h' = length h /\
  forall l r, h !! l = Some r ->
    exists r', h' !! l = Some r' /\ same_data r r' /\
      (Room.merged_into r' = Room.merged_into r \/
       exists root, Room.merged_into r <> None /\ Room.merged_into r' = Some root /\
                    resolves h l root).

(** [reaches h l x]: [x] is visited when the pointers are followed from [l]. *)
Inductive reaches (h : heap) : loc -> loc -> Prop :=
| reaches_here l : reaches h l l
| reaches_next l r p x :
    h !! l = Some r -> Room.merged_into r = Some p -> reaches h p x -> reaches h l x.

(** The name of the survivor after [merge_with]. *)
Definition merged_name (self other : option string) : option string :=
  if truthy other && negb (truthy self) then other else self.

(** The survivor [self] after [self.merge_with(other)]. *)
Definition merged_room (self other : Room.t) : Room.t :=
  {| Room.id := Room.id self;
     Room.name := merged_name (Room.name self) (Room.name other);
     Room.chairs := chairs_sum (Room.chairs self) (Room.chairs other);
     Room.merged_into := Room.merged_into self |}.

(** The store after [a.merge_with(b)], for [a] and [b] holding [ra] and [rb]. *)
Definition merged_heap (h : heap) (a b : loc) (ra rb : Room.t) : heap :=
  <[b := Room.set_merged_into (Some a) rb]> (<[a := merged_room ra rb]> h).

(** A sequence of calls [l.final()], one for each [l] of [ls]. *)
Definition finals (h : heap) (ls : list loc) : option heap :=
  foldl (fun oh l => h ← oh; fst <$> RoomOps.final h l) (Some h) ls.

(** No count is negative. *)
Definition chairs_nonneg (c : Chairs) : Prop := forall t, 0 <= chair_get c t.

(** Rooms are numbered in the order of their creation, from 1, and hold
    no negative count. *)
Definition room_ok (l : loc) (r : Room.t) : Prop :=
  Room.id r = Z.of_nat l + 1 /\ chairs_nonneg (Room.chairs r).

(** The invariant of the store of [parse]. *)
Definition heap_ok (h : heap) : Prop :=
  forest h /\ forall l r, h !! l = Some r -> room_ok l r.

(** A room that has a name in [h] has one in [h']. *)
Definition names_kept (h h' : heap) : Prop :=
  forall l r, h !! l = Some r -> Room.name r <> None ->
    exists r', h' !! l = Some r' /\ Room.name r' <> None.

(** The rows of [_cells] have the size of the grid and hold rooms of the
    store. *)
Definition cells_ok (n : nat) (g : Grid.t) : Prop :=
  length (Grid.cells g) = Z.to_nat (Grid.height g) /\
  forall j row, Grid.cells g !! j = Some row ->
    length row = Z.to_nat (Grid.width g) /\
    forall i l, row !! i = Some (Some l) -> (l < n)%nat.

(** What a merge does to a root: the absorbed root [fc] becomes [fa]. *)
Definition redirect (m : option (loc * loc)) (root : loc) : loc :=
  match m with
  | Some (fa, fc) => if decide (root = fc) then fa else root
  | None => root
  end.

(** The invariant of the scan: the counter is the number of rooms made,
    and the cells and the open region refer to rooms of the store. *)
Definition state_ok (st : Parser.state) : Prop :=
  heap_ok (Parser.st_heap st) /\
  Parser.room_counter st = Z.of_nat (length (Parser.st_heap st)) /\
  cells_ok (length (Parser.st_heap st)) (Parser.grid st) /\
  forall c, Parser.current_room st = Some c -> (c < length (Parser.st_heap st))%nat.

(** The rooms assigned to the cells, row by row. *)
Definition cell_rooms (g : Grid.t) : list loc := omap id (concat (Grid.cells g)).

(** The distinct entries of a list, each at its first occurrence. *)
Definition distinct_step (acc : list loc) (l : loc) : list loc :=
  if bool_decide (l ∈ acc) then acc else acc ++ [l].

(** Deduplication, in the order of the first occurrences. *)
Definition distinct (ls : list loc) : list loc := foldl distinct_step [] ls.

(** The room at [l] carries a name. *)
Definition is_named (h : heap) (l : loc) : bool :=
  match h !! l with
  | Some r => bool_decide (Room.name r <> None)
  | None => false
  end.

(** At least one of the four counts is not zero. *)
Definition has_chairs (c : Chairs) : bool :=
  bool_decide (Exists (fun t => chair_get c t <> 0) CHAIR_TYPES).

(** The room at [l] has no name and holds chairs. *)
Definition is_anomaly (h : heap) (l : loc) : bool :=
  match h !! l with
  | Some r => bool_decide (Room.name r = None) && has_chairs (Room.chairs r)
  | None => false
  end.

(** The diagnostic for the room at [l]. *)
Definition warning_of (h : heap) (l : loc) : string :=
  match h !! l with
  | Some r => Grid.warning (Room.id r) (chairs_total (Room.chairs r))
  | None => ""
  end.

(** The state of the extraction when the roots [D] have been met. *)
Definition extracted (h : heap) (D : list loc) (e : Grid.extraction) : Prop :=
  compressed h (Grid.ex_heap e) /\
  Grid.seen_ids e = list_to_set ((fun l => Z.of_nat l + 1) <$> D) /\
  Grid.rooms e = filter (is_named h) D /\
  Grid.stderr e = warning_of h <$> filter (is_anomaly h) D.

(** What the formatter prints for one room, and for all of them. *)
Definition room_block (r : Room.t) : string :=
  Formatter.name_text r +:+ ":" +:+ Formatter.newline
    +:+ Formatter.format_chair_line (Room.chairs r) +:+ Formatter.newline.

(** The blocks of a list of rooms, one after the other. *)
Definition blocks (rooms : list Room.t) : string :=
  foldr (fun r s => room_block r +:+ s) "" rooms.

(** The sum over the rooms of the count of one type. *)
Definition total_of (rooms : list Room.t) (t : chair_type) : Z :=
  foldr (fun r acc => chair_get (Room.chairs r) t + acc) 0 rooms.

(** The totals that [format_output] accumulates. *)
Definition totals_loop (totals : Chairs) (rooms : list Room.t) : Chairs :=
  foldl (fun totals room =>
           foldl (fun totals t => chair_add totals t (chair_get (Room.chairs room) t))
                 totals CHAIR_TYPES)
        totals rooms.

(** The order of the sort: the names compared as Python compares strings,
    character by character on the code points. *)
Definition key_le (r1 r2 : Room.t) : Prop :=
  String.leb (Formatter.sort_key r1) (Formatter.sort_key r2) = true.

(** The elementwise sum of the tallies of a list of rooms. *)
Definition sum_chairs (rooms : list Room.t) : Chairs :=
  foldr (fun r acc => chairs_sum (Room.chairs r) acc) no_chairs rooms.

(** The state of the scan of the two lines [" "] and [" "] when the first
    row is done and the second one starts. *)
Definition below_first_cell : Parser.state :=
  Parser.mkState [Room.init 1] (Grid.mk [" "; " "] [[Some 0%nat]; [None]]) 1 None None.

(** The state of the scan of the one line [line] after its first cell,
    when that cell is ["("]. *)
Definition after_open_paren (line : string) : Parser.state :=
  Parser.mkState [Room.init 1]
    (Grid.mk [line] [<[0%nat := Some 0%nat]> (replicate (String.length line) None)])
    1 (Some 0%nat) (Some "").

(** The plan of the rows ["-- "] and ["() "]: the label [()] lies under a
    wall, and the cell after it under a floor cell of the first row. *)
Definition empty_label_plan : string := "-- " +:+ Formatter.newline +:+ "() ".

(** [_cells] has [height] rows of [width] cells. *)
Definition grid_shaped (g : Grid.t) : Prop :=
  length (Grid.cells g) = Z.to_nat (Grid.height g) /\
  forall j row, Grid.cells g !! j = Some row -> length row = Z.to_nat (Grid.width g).

(** ** A step of the scan, taken apart *)

(** [l.final().field = ...]: path compressions, then [f] on the root of [l]. *)
Definition root_write (l : loc) (f : Room.t -> Room.t) (h h' : heap) : Prop :=
  exists h1 root r,
    compressed h h1 /\ resolves h l root /\ h1 !! root = Some r /\
    Room.merged_into r = None /\ h' = <[root := f r]> h1.

(** The store after the check of the cell above, which holds [above]:
    path compressions, and the merge of the root of [cur] into the root of
    [above] when they differ. *)
Definition merge_part (above : option loc) (cur : loc) (h h' : heap) : Prop :=
  match above with
  | None => h' = h
  | Some above =>
      exists h2 fa fc ra rc,
        compressed h h2 /\ resolves h above fa /\ resolves h cur fc /\
        h2 !! fa = Some ra /\ h2 !! fc = Some rc /\
        Room.merged_into ra = None /\ Room.merged_into rc = None /\
        h' = if decide (fa = fc) then h2 else merged_heap h2 fa fc ra rc
  end.

(** The store after the chair of the cell has been counted. *)
Definition chair_part (cur : loc) (char : ascii) (h h' : heap) : Prop :=
  match chair_of_char char with
  | None => h' = h
  | Some ty =>
      root_write cur (fun r => Room.set_chairs (chair_add (Room.chairs r) ty 1) r) h h'
  end.

(** The store and the name buffer after the [(...)] pattern has been
    looked at. *)
Definition name_part (cur : loc) (char : ascii) (buf : option string) (h h' : heap)
    (buf' : option string) : Prop :=
  if bool_decide (char = "("%char) then h' = h /\ buf' = Some ""
  else match buf with
       | None => h' = h /\ buf' = None
       | Some b =>
           if bool_decide (char = ")"%char)
           then root_write cur (Room.set_name (Some b)) h h' /\ buf' = None
           else h' = h /\ buf' = Some (b +:+ String char "")
       end.

(** [st'] is the state after the cell [(x, y)] has been scanned in [st]. *)
Definition cell_step (st : Parser.state) (x y : Z) (st' : Parser.state) : Prop :=
  Grid.lines (Parser.grid st') = Grid.lines (Parser.grid st) /\
  if Grid.is_wall (Parser.grid st) x y then st' = Parser.close_room st
  else
    exists cur h1 hm hc,
      ((Parser.current_room st = Some cur /\ h1 = Parser.st_heap st) \/
       (Parser.current_room st = None /\ cur = length (Parser.st_heap st) /\
        h1 = Parser.st_heap st ++ [Room.init (Parser.room_counter st + 1)])) /\
      merge_part (Grid.get_connected_room_above (Parser.grid st) x y) cur h1 hm /\
      chair_part cur (Grid.get_char (Parser.grid st) x y) hm hc /\
      name_part cur (Grid.get_char (Parser.grid st) x y) (Parser.name_buffer st) hc
        (Parser.st_heap st') (Parser.name_buffer st') /\
      Parser.current_room st' = Some cur /\
      Grid.set_room (Parser.grid st) x y cur = Some (Parser.grid st').

(** ** The regions of the floor plan *)

(** The cell [c = (x, y)] is in the grid. *)
Definition in_grid (g : Grid.t) (c : Z * Z) : Prop :=
  0 <= c.1 < Grid.width g /\ 0 <= c.2 < Grid.height g.

(** A cell of the grid that holds no wall character. *)
Definition floor_cell (g : Grid.t) (c : Z * Z) : Prop :=
  in_grid g c /\ Grid.is_wall g c.1 c.2 = false.

(** Two cells that share a side. *)
Definition adjacent (c1 c2 : Z * Z) : Prop :=
  (c1.1 = c2.1 /\ (c1.2 = c2.2 + 1 \/ c2.2 = c1.2 + 1)) \/
  (c1.2 = c2.2 /\ (c1.1 = c2.1 + 1 \/ c2.1 = c1.1 + 1)).

(** A path of floor cells, each sharing a side with the next. *)
Inductive connected (g : Grid.t) : Z * Z -> Z * Z -> Prop :=
| connected_here c : floor_cell g c -> connected g c c
| connected_next c1 c2 c3 :
    floor_cell g c1 -> adjacent c1 c2 -> connected g c2 c3 -> connected g c1 c3.

(** The root of the room at [l], found without a change of the store. *)
Fixpoint root_rec (fuel : nat) (h : heap) (l : loc) : option loc :=
  match fuel with
  | O => None
  | S fuel =>
      r ← h !! l;
      match Room.merged_into r with
      | None => Some l
      | Some p => root_rec fuel h p
      end
  end.

Definition root_of (h : heap) (l : loc) : option loc := root_rec (length h) h l.

(** The region of a cell: the root of the room that the cell holds. *)
Definition region_of (h : heap) (g : Grid.t) (c : Z * Z) : option loc :=
  l ← Grid.get_room g c.1 c.2; root_of h l.

Definition region (st : Parser.state) (c : Z * Z) : option loc :=
  region_of (Parser.st_heap st) (Parser.grid st) c.

(** The cell [c] holds a room whose root is [r]. *)
Definition class (h : heap) (g : Grid.t) (c : Z * Z) (r : loc) : Prop :=
  exists l, Grid.get_room g c.1 c.2 = Some l /\ resolves h l r.

(** The cells of the grid, row by row. *)
Definition all_cells (g : Grid.t) : list (Z * Z) :=
  y ← range (Grid.height g); (fun x => (x, y)) <$> range (Grid.width g).

(** The number of cells of the region of [root] that hold a chair [t]. *)
Definition chairs_in (reg : Z * Z -> option loc) (g : Grid.t) (root : loc)
    (t : chair_type) : Z :=
  Z.of_nat (length (filter (fun c => reg c = Some root /\
                                     chair_of_char (Grid.get_char g c.1 c.2) = Some t)
                           (all_cells g))).

(** The regions and their tallies are the same in [h] and [h']. *)
Definition same_regions (h h' : heap) : Prop :=
  length h' = length h /\
  (forall l r, resolves h' l r <-> resolves h l r) /\
  (forall r rec', h' !! r = Some rec' -> Room.merged_into rec' = None ->
     exists rec, h !! r = Some rec /\ Room.merged_into rec = None /\
                 Room.chairs rec' = Room.chairs rec).

(** The characters of the cells [(x0, y)], ..., [(x1 - 1, y)]. *)
Definition row_chars (g : Grid.t) (y x0 x1 : Z) : string :=
  foldr (fun x s => String (Grid.get_char g x y) s) "" (seqZ x0 (x1 - x0)).

(** No wall and no parenthesis strictly between the columns [x0] and [x1]
    of the row [y]. *)
Definition clear_between (g : Grid.t) (y x0 x1 : Z) : Prop :=
  forall x, x0 < x < x1 ->
    Grid.is_wall g x y = false /\
    Grid.get_char g x y <> "("%char /\ Grid.get_char g x y <> ")"%char.

(** [s] is a label of the plan: the text between a ["("] at [(x0, y)] and
    the next [")"], at [(x1, y)], with no wall in between. *)
Definition label (g : Grid.t) (x0 x1 y : Z) (s : string) : Prop :=
  0 <= x0 /\ x0 < x1 < Grid.width g /\ 0 <= y < Grid.height g /\
  Grid.get_char g x0 y = "("%char /\ Grid.get_char g x1 y = ")"%char /\
  clear_between g y x0 x1 /\ s = row_chars g y (x0 + 1) x1.

(** The cell [c] is scanned before the cell [(cx, cy)]. *)
Definition before (cx cy : Z) (c : Z * Z) : Prop :=
  c.2 < cy \/ (c.2 = cy /\ c.1 < cx).

(** The cells that hold a room are the floor cells scanned so far. *)
Definition covers (g0 : Grid.t) (cx cy : Z) (g : Grid.t) : Prop :=
  forall c, is_Some (Grid.get_room g c.1 c.2) <-> floor_cell g0 c /\ before cx cy c.

(** Two scanned floor cells that share a side are in one region. *)
Definition neighbours_joined (g0 : Grid.t) (cx cy : Z) (h : heap) (g : Grid.t) : Prop :=
  forall c1 c2, floor_cell g0 c1 -> floor_cell g0 c2 ->
    before cx cy c1 -> before cx cy c2 -> adjacent c1 c2 ->
    exists r, class h g c1 r /\ class h g c2 r.

(** Two cells of one region are joined by a path of floor cells. *)
Definition classes_connected (g0 : Grid.t) (h : heap) (g : Grid.t) : Prop :=
  forall c1 c2 r, class h g c1 r -> class h g c2 r -> connected g0 c1 c2.

(** Every room of the store is the room of a cell. *)
Definition rooms_used (h : heap) (g : Grid.t) : Prop :=
  forall l, (l < length h)%nat -> exists c, Grid.get_room g c.1 c.2 = Some l.

(** The tally of a root counts the chairs of the cells of its region. *)
Definition tallies_ok (g0 : Grid.t) (h : heap) (g : Grid.t) : Prop :=
  forall r rec t, h !! r = Some rec -> Room.merged_into rec = None ->
    chair_get (Room.chairs rec) t = chairs_in (region_of h g) g0 r t.

(** The name of a root is a label that ends in a cell of its region. *)
Definition names_ok (g0 : Grid.t) (h : heap) (g : Grid.t) : Prop :=
  forall r rec s, h !! r = Some rec -> Room.merged_into rec = None ->
    Room.name rec = Some s ->
    exists x0 x1 y, label g0 x0 x1 y s /\ class h g (x1, y) r.

(** [name_buffer] holds the text since the last ["("] of the row, if no
    wall and no [")"] came after it. *)
Definition buffer_ok (g0 : Grid.t) (cx cy : Z) (st : Parser.state) : Prop :=
  forall b, Parser.name_buffer st = Some b ->
    exists x0, 0 <= x0 < cx /\ Grid.get_char g0 x0 cy = "("%char /\
               clear_between g0 cy x0 cx /\ b = row_chars g0 cy (x0 + 1) cx.

(** If no label of the plan is empty, the root of a region in which a
    label ends carries a name that is not empty. *)
Definition labels_named (g0 : Grid.t) (h : heap) (g : Grid.t) : Prop :=
  (forall x0 x1 y, ~ label g0 x0 x1 y "") ->
  forall x0 x1 y s r rec,
    label g0 x0 x1 y s -> class h g (x1, y) r -> h !! r = Some rec ->
    truthy (Room.name rec) = true.

(** [name_buffer] is not [None] when a ["("] of the row was followed by
    no wall and no [")"]. *)
Definition buffer_full (g0 : Grid.t) (cx cy : Z) (st : Parser.state) : Prop :=
  forall x0, 0 <= x0 < cx -> Grid.get_char g0 x0 cy = "("%char ->
    (forall x, x0 < x < cx ->
       Grid.is_wall g0 x cy = false /\ Grid.get_char g0 x cy <> ")"%char) ->
    is_Some (Parser.name_buffer st).

(** [current_room] is the room of the cell to the left, if that is a
    floor cell of the row. *)
Definition cur_ok (g0 : Grid.t) (cx cy : Z) (st : Parser.state) : Prop :=
  Parser.current_room st =
    if decide (cx = 0) then None
    else if Grid.is_wall g0 (cx - 1) cy then None
    else Grid.get_room (Parser.grid st) (cx - 1) cy.

(** The invariant of the scan when the cell [(cx, cy)] is the next one. *)
Definition scan_inv (g0 : Grid.t) (cx cy : Z) (st : Parser.state) : Prop :=
  state_ok st /\ Grid.lines (Parser.grid st) = Grid.lines g0 /\
  covers g0 cx cy (Parser.grid st) /\
  neighbours_joined g0 cx cy (Parser.st_heap st) (Parser.grid st) /\
  classes_connected g0 (Parser.st_heap st) (Parser.grid st) /\
  rooms_used (Parser.st_heap st) (Parser.grid st) /\
  tallies_ok g0 (Parser.st_heap st) (Parser.grid st) /\
  cur_ok g0 cx cy st /\
  names_ok g0 (Parser.st_heap st) (Parser.grid st) /\
  buffer_ok g0 cx cy st /\
  labels_named g0 (Parser.st_heap st) (Parser.grid st) /\
  buffer_full g0 cx cy st.

(** The cell [c] is in a region whose root carries a name. *)
Definition in_named_region (st : Parser.state) (c : Z * Z) : bool :=
  match region st c with
  | Some l => is_named (Parser.st_heap st) l
  | None => false
  end.

(** The number of cells of the grid that satisfy [P] and hold a chair [t]. *)
Definition chair_cells (g : Grid.t) (P : Z * Z -> bool) (t : chair_type) : Z :=
  Z.of_nat (length (filter (fun c => P c /\ chair_of_char (Grid.get_char g c.1 c.2) = Some t)
                           (all_cells g))).

(** What the scan of the floor cell [(x, y)] does to the rooms: [cur] is
    the room of the cell, and [m] tells which root was merged into which. *)
Definition floor_step (g0 : Grid.t) (x y : Z) (st st' : Parser.state)
    (cur : loc) (m : option (loc * loc)) : Prop :=
  state_ok st' /\ Grid.lines (Parser.grid st') = Grid.lines g0 /\
  Parser.current_room st' = Some cur /\
  Grid.get_room (Parser.grid st) x y = None /\
  Grid.get_room (Parser.grid st') x y = Some cur /\
  (forall x' y', x' <> x \/ y' <> y ->
     Grid.get_room (Parser.grid st') x' y' = Grid.get_room (Parser.grid st) x' y') /\
  ((Parser.current_room st = Some cur /\ (cur < length (Parser.st_heap st))%nat) \/
   (Parser.current_room st = None /\ cur = length (Parser.st_heap st))) /\
  (length (Parser.st_heap st') = length (Parser.st_heap st) \/
   (Parser.current_room st = None /\
    length (Parser.st_heap st') = S (length (Parser.st_heap st)))) /\
  (forall l r, resolves (Parser.st_heap st) l r ->
               resolves (Parser.st_heap st') l (redirect m r)) /\
  (forall fa fc, m = Some (fa, fc) ->
     fa <> fc /\
     exists above,
       Grid.get_connected_room_above (Parser.grid st) x y = Some above /\
       resolves (Parser.st_heap st) above fa /\
       ((Parser.current_room st = Some cur /\ resolves (Parser.st_heap st) cur fc) \/
        (Parser.current_room st = None /\ fc = length (Parser.st_heap st)))) /\
  (forall above,
     Grid.get_connected_room_above (Parser.grid st) x y = Some above ->
     exists r, resolves (Parser.st_heap st') above r /\
               resolves (Parser.st_heap st') cur r) /\
  (Parser.current_room st = None ->
   Grid.get_connected_room_above (Parser.grid st) x y = None ->
   resolves (Parser.st_heap st') cur cur) /\
  tallies_ok g0 (Parser.st_heap st') (Parser.grid st') /\
  names_ok g0 (Parser.st_heap st') (Parser.grid st') /\
  buffer_ok g0 (x + 1) y st' /\
  labels_named g0 (Parser.st_heap st') (Parser.grid st') /\
  buffer_full g0 (x + 1) y st'.

(** * The forest of forward pointers *)

Section forest_facts.
Context (h : heap).

Lemma resolves_in_fun l r1 d1 r2 d2 :
  resolves_in h l r1 d1 -> resolves_in h l r2 d2 -> r1 = r2 /\ d1 = d2.
Proof.
  intros H1; revert r2 d2.
  induction H1 as [l r Hl Hm | l r p root d Hl Hm _ IH]; intros r2 d2 H2.
  - inversion H2; subst; [done | congruence].
  - inversion H2 as [? ? Hl' Hm' | ? ? ? ? ? Hl' Hm' Hp]; subst; [congruence |].
    assert (p0 = p) by congruence; subst.
    destruct (IH _ _ Hp); subst; done.
Qed.

Lemma resolves_fun l r1 r2 : resolves h l r1 -> resolves h l r2 -> r1 = r2.
Proof. intros [d1 H1] [d2 H2]. by destruct (resolves_in_fun _ _ _ _ _ H1 H2). Qed.

Lemma resolves_in_lt l root d : resolves_in h l root d -> (l < length h)%nat.
Proof. inversion 1; subst; by eapply lookup_lt_Some. Qed.

Lemma resolves_in_is_root l root d : resolves_in h l root d -> is_root h root.
Proof. induction 1; [by eexists | done]. Qed.

Lemma is_root_resolves l : is_root h l -> resolves h l l.
Proof. intros (r & Hl & Hm). exists O. by econstructor. Qed.

Lemma resolves_is_root l root : resolves h l root -> is_root h root.
Proof. intros [d H]. by eapply resolves_in_is_root. Qed.

Lemma resolves_root_eq l root : is_root h l -> resolves h l root -> root = l.
Proof. intros Hr H. eapply resolves_fun; [done | by apply is_root_resolves]. Qed.

(** The rooms on the way from [l] to its root are pairwise distinct. *)
Lemma resolves_in_path l root d :
  resolves_in h l root d ->
  exists path : list loc,
    length path = S d /\ NoDup path /\
    forall x, x ∈ path -> exists d', (d' <= d)%nat /\ resolves_in h x root d'.
Proof.
  induction 1 as [l r Hl Hm | l r p root d Hl Hm Hp (path & Hlen & Hnd & Hall)].
  - exists [l]. split_and!; [done | apply NoDup_singleton |].
    intros x ->%list_elem_of_singleton. exists O. split; [lia | by econstructor].
  - exists (l :: path). split_and!.
    + simpl. by rewrite Hlen.
    + constructor; [| done]. intros (d' & Hle & Hx)%Hall.
      assert (resolves_in h l root (S d)) as Hl' by (by econstructor).
      destruct (resolves_in_fun _ _ _ _ _ Hx Hl'). lia.
    + intros x [-> | Hx]%elem_of_cons.
      * exists (S d). split; [lia | by econstructor].
      * destruct (Hall _ Hx) as (d' & ? & ?). exists d'. split; [lia | done].
Qed.

(** A chain of links is shorter than the store is large. *)
Lemma resolves_depth_lt l root d : resolves_in h l root d -> (d < length h)%nat.
Proof.
  intros (path & Hlen & Hnd & Hall)%resolves_in_path.
  assert (path ⊆+ seq 0 (length h)) as Hsub.
  { apply NoDup_submseteq; [done |]. intros x (d' & _ & Hx)%Hall.
    apply elem_of_seq. split; [lia |]. simpl. by eapply resolves_in_lt. }
  apply submseteq_length in Hsub. rewrite length_seq in Hsub. lia.
Qed.

End forest_facts.

Lemma same_data_refl r : same_data r r.
Proof. done. Qed.

Lemma same_data_eq r r' :
  same_data r r' -> Room.merged_into r' = Room.merged_into r -> r' = r.
Proof. destruct r, r'; intros (? & ? & ?) ?; simpl in *; congruence. Qed.

Lemma compressed_refl h : compressed h h.
Proof. split; [done |]. intros l r Hl. exists r. split_and!; [done | done | by left]. Qed.

Lemma compressed_length h h' : compressed h h' -> length h' = length h.
Proof. by intros [? _]. Qed.

Lemma compressed_root_lookup h h' l r :
  compressed h h' -> h !! l = Some r -> Room.merged_into r = None -> h' !! l = Some r.
Proof.
  intros [_ Hc] Hl Hm. destruct (Hc _ _ Hl) as (r' & Hl' & Hd & [Hsame | (root & Hne & _)]).
  - rewrite Hl'. f_equal. apply same_data_eq; [done | congruence].
  - by rewrite Hm in Hne.
Qed.

Lemma compressed_is_root h h' l : compressed h h' -> is_root h l -> is_root h' l.
Proof. intros Hc (r & Hl & Hm). exists r. split; [by eapply compressed_root_lookup | done]. Qed.

Lemma compressed_resolves_in h h' l root d :
  compressed h h' -> resolves_in h l root d ->
  exists d', (d' <= d)%nat /\ resolves_in h' l root d'.
Proof.
  intros Hc. induction 1 as [l r Hl Hm | l r p root d Hl Hm Hp (d' & Hle & IH)].
  - exists O. split; [lia |]. econstructor; [by eapply compressed_root_lookup | done].
  - destruct Hc as [_ Hc].
    destruct (Hc _ _ Hl) as (r' & Hl' & Hd & [Hsame | (root' & _ & Hm' & Hres)]).
    + exists (S d'). split; [lia |].
      econstructor; [done | rewrite Hsame; exact Hm | done].
    + assert (root' = root) as ->.
      { eapply resolves_fun; [done |]. exists (S d). by econstructor. }
      apply resolves_in_is_root in IH as (rr & Hrr & Hrm).
      exists 1%nat. split; [lia |]. econstructor; [done | done |]. by econstructor.
Qed.

Lemma compressed_resolves h h' l root :
  compressed h h' -> resolves h l root -> resolves h' l root.
Proof.
  intros Hc [d H]. destruct (compressed_resolves_in _ _ _ _ _ Hc H) as (d' & _ & H').
  by exists d'.
Qed.

Lemma compressed_forest h h' : compressed h h' -> forest h -> forest h'.
Proof.
  intros Hc Hf l Hl. rewrite (compressed_length _ _ Hc) in Hl.
  destruct (Hf l Hl) as [root Hr]. exists root. by eapply compressed_resolves.
Qed.

Lemma compressed_resolves_rev h h' l root :
  forest h -> compressed h h' -> resolves h' l root -> resolves h l root.
Proof.
  intros Hf Hc Hr'. assert (l < length h)%nat as Hl.
  { rewrite <- (compressed_length _ _ Hc). destruct Hr' as [d Hr']. by eapply resolves_in_lt. }
  destruct (Hf l Hl) as [root0 Hr0].
  by rewrite (resolves_fun _ _ _ _ Hr' (compressed_resolves _ _ _ _ Hc Hr0)).
Qed.

Lemma compressed_trans h h1 h2 :
  forest h -> compressed h h1 -> compressed h1 h2 -> compressed h h2.
Proof.
  intros Hf Hc1 Hc2. split.
  { rewrite (compressed_length _ _ Hc2). by apply compressed_length. }
  intros l r Hl. pose proof Hc1 as [_ H1]. pose proof Hc2 as [_ H2].
  destruct (H1 _ _ Hl) as (r1 & Hl1 & (Hi1 & Hn1 & Hch1) & Hm1).
  destruct (H2 _ _ Hl1) as (r2 & Hl2 & (Hi2 & Hn2 & Hch2) & Hm2).
  exists r2. split; [done |]. split; [unfold same_data; split_and!; congruence |].
  destruct Hm2 as [Hsame2 | (root & Hne & Hm2 & Hres)].
  - destruct Hm1 as [Hsame1 | (root & Hne & Hm1 & Hres)].
    + left. congruence.
    + right. exists root. split_and!; [done | congruence | done].
  - right. exists root. split_and!; [| done | by eapply compressed_resolves_rev].
    destruct Hm1 as [Hsame1 | (? & ? & _)]; [congruence | done].
Qed.

(** ** [final] comes back with the root and a compressed store *)

Lemma final_rec_spec fuel h l root d :
  resolves_in h l root d -> (d < fuel)%nat ->
  exists h', RoomOps.final_rec fuel h l = Some (h', root) /\ compressed h h' /\
    (forall x r, reaches h l x -> h !! x = Some r -> Room.merged_into r <> None ->
       exists r', h' !! x = Some r' /\ Room.merged_into r' = Some root).
Proof.
  intros H. revert fuel.
  induction H as [l r Hl Hm | l r p root d Hl Hm Hp IH]; intros [|fuel] Hlt; try lia.
  - exists h. simpl. rewrite Hl. simpl. rewrite Hm. split_and!; [done | apply compressed_refl |].
    intros x r0 Hx. inversion Hx; subst; congruence.
  - destruct (IH fuel ltac:(lia)) as (h1 & Hfin & Hc & Hvis).
    pose proof Hc as [Hlen Hc'].
    destruct (Hc' _ _ Hl) as (r1 & Hl1 & Hd1 & _).
    pose proof (lookup_lt_Some _ _ _ Hl1) as Hlt1.
    exists (<[l := Room.set_merged_into (Some root) r1]> h1).
    simpl. rewrite Hl. simpl. rewrite Hm, Hfin. simpl.
    unfold update. rewrite Hl1. simpl. rewrite list_lookup_insert_eq by done. simpl.
    split_and!; [done | |].
    + split; [by rewrite length_insert |]. intros l0 r0 Hl0.
      destruct (decide (l0 = l)) as [-> | Hne].
      * rewrite list_lookup_insert_eq by done. eexists. split; [done |].
        assert (r0 = r) as -> by congruence.
        split; [by destruct Hd1 as (? & ? & ?) |].
        right. exists root. split_and!; [congruence | done |].
        exists (S d). by econstructor.
      * rewrite list_lookup_insert_ne by done. by apply Hc'.
    + intros x r0 Hx Hlx Hmx. destruct (decide (x = l)) as [-> | Hne].
      * rewrite list_lookup_insert_eq by done. by eexists.
      * rewrite list_lookup_insert_ne by done.
        inversion Hx as [| ? ? p' ? Hl' Hm' Hreach]; subst; [done |].
        assert (p' = p) as -> by congruence. by eapply Hvis.
Qed.

Lemma final_resolves h l root :
  resolves h l root ->
  exists h', RoomOps.final h l = Some (h', root) /\ compressed h h' /\
    (forall x r, reaches h l x -> h !! x = Some r -> Room.merged_into r <> None ->
       exists r', h' !! x = Some r' /\ Room.merged_into r' = Some root).
Proof.
  intros [d H]. eapply final_rec_spec; [done |]. by eapply resolves_depth_lt.
Qed.

Lemma final_forest h l :
  forest h -> (l < length h)%nat ->
  exists h' root, RoomOps.final h l = Some (h', root) /\ resolves h l root /\ compressed h h'.
Proof.
  intros Hf Hl. destruct (Hf l Hl) as [root Hr].
  destruct (final_resolves _ _ _ Hr) as (h' & ? & ? & _). by exists h', root.
Qed.

(** What [final] returns, when it returns, is the root. *)
Lemma final_rec_sound fuel h l h' root :
  RoomOps.final_rec fuel h l = Some (h', root) -> resolves h l root.
Proof.
  revert h l h' root. induction fuel as [|fuel IH]; intros h l h' root; [done |].
  simpl. destruct (h !! l) as [r|] eqn:Hl; [simpl | done].
  destruct (Room.merged_into r) as [p|] eqn:Hm.
  - destruct (RoomOps.final_rec fuel h p) as [[h1 root1]|] eqn:Hfin; [simpl | done].
    pose proof (IH _ _ _ _ Hfin) as [d Hp].
    destruct (final_rec_spec (S d) h p root1 d Hp ltac:(lia)) as (h1' & _ & Hc & _).
    unfold update. intros Hret.
    destruct (h1 !! l) as [r1|] eqn:Hl1; [simpl in Hret | done].
    assert (l < length h1)%nat by (by eapply lookup_lt_Some).
    rewrite list_lookup_insert_eq in Hret by done. simpl in Hret.
    injection Hret as _ <-. exists (S d). by econstructor.
  - intros [= <- <-]. exists O. by econstructor.
Qed.

(** ** [merge_with] on two distinct rooms *)

Lemma merge_with_eq h a b ra rb :
  a <> b -> h !! a = Some ra -> h !! b = Some rb ->
  RoomOps.merge_with h a b = Some (merged_heap h a b ra rb, a).
Proof.
  intros Hne Ha Hb.
  pose proof (lookup_lt_Some _ _ _ Ha) as Hla.
  pose proof (lookup_lt_Some _ _ _ Hb) as Hlb.
  unfold RoomOps.merge_with, update, merged_heap. simpl.
  rewrite Hb. simpl. rewrite Ha. simpl.
  repeat (rewrite ?list_lookup_insert_ne by done;
          rewrite ?list_lookup_insert_eq by (by rewrite ?length_insert);
          rewrite ?Ha, ?Hb; simpl; rewrite ?list_insert_insert_eq).
  unfold merged_room, merged_name, chairs_sum. simpl.
  destruct (truthy (Room.name rb) && negb (truthy (Room.name ra))); simpl;
    repeat (rewrite ?list_lookup_insert_ne by done;
            rewrite ?list_lookup_insert_eq by (by rewrite ?length_insert);
            rewrite ?Hb; simpl; rewrite ?list_insert_insert_eq);
    done.
Qed.

Section merge_forest.
Context (h : heap) (a b : loc) (ra rb : Room.t).
Hypothesis Hne : a <> b.
Hypothesis Ha : h !! a = Some ra.
Hypothesis Hb : h !! b = Some rb.
Hypothesis Hra : Room.merged_into ra = None.
Hypothesis Hrb : Room.merged_into rb = None.

Lemma merged_heap_length : length (merged_heap h a b ra rb) = length h.
Proof. unfold merged_heap. by rewrite !length_insert. Qed.

Lemma merged_heap_survivor : merged_heap h a b ra rb !! a = Some (merged_room ra rb).
Proof.
  unfold merged_heap. rewrite list_lookup_insert_ne by done.
  apply list_lookup_insert_eq. by eapply lookup_lt_Some.
Qed.

Lemma merged_heap_absorbed :
  merged_heap h a b ra rb !! b = Some (Room.set_merged_into (Some a) rb).
Proof.
  unfold merged_heap. apply list_lookup_insert_eq.
  rewrite length_insert. by eapply lookup_lt_Some.
Qed.

Lemma merged_heap_other l : l <> a -> l <> b -> merged_heap h a b ra rb !! l = h !! l.
Proof. intros. unfold merged_heap. by rewrite !list_lookup_insert_ne. Qed.

Lemma merged_heap_root : is_root (merged_heap h a b ra rb) a.
Proof. eexists. split; [apply merged_heap_survivor | done]. Qed.

(** The class of [b] joins the class of [a]; the other classes stay. *)
Lemma merged_heap_resolves l root :
  resolves h l root ->
  resolves (merged_heap h a b ra rb) l (if decide (root = b) then a else root).
Proof.
  intros [d H].
  induction H as [l r Hl Hm | l r p root d Hl Hm Hp IH].
  - destruct (decide (l = b)) as [-> | Hlb].
    + exists 1%nat. econstructor; [apply merged_heap_absorbed | done |].
      econstructor; [apply merged_heap_survivor | done].
    + apply is_root_resolves. destruct (decide (l = a)) as [-> | Hla].
      * apply merged_heap_root.
      * exists r. by rewrite merged_heap_other.
  - destruct IH as [d' IH]. exists (S d').
    econstructor; [| exact Hm | exact IH].
    rewrite merged_heap_other; [done | congruence | congruence].
Qed.

Lemma merged_heap_forest : forest h -> forest (merged_heap h a b ra rb).
Proof.
  intros Hf l Hl. rewrite merged_heap_length in Hl.
  destruct (Hf l Hl) as [root Hr]. eexists. by apply merged_heap_resolves.
Qed.

(** Conversely, the root of a room after the merge tells its root before. *)
Lemma merged_heap_resolves_rev l root' :
  forest h -> resolves (merged_heap h a b ra rb) l root' ->
  exists root, resolves h l root /\ root' = if decide (root = b) then a else root.
Proof.
  intros Hf Hr'. assert (l < length h)%nat as Hl.
  { rewrite <- merged_heap_length. destruct Hr' as [d Hr']. by eapply resolves_in_lt. }
  destruct (Hf l Hl) as [root Hr]. exists root. split; [done |].
  eapply resolves_fun; [exact Hr' | by apply merged_heap_resolves].
Qed.

End merge_forest.

(** ** Calls of [final] *)

Lemma final_inv h l h' root :
  RoomOps.final h l = Some (h', root) ->
  resolves h l root /\ compressed h h' /\
  (forall x r, reaches h l x -> h !! x = Some r -> Room.merged_into r <> None ->
     exists r', h' !! x = Some r' /\ Room.merged_into r' = Some root).
Proof.
  intros Hfin. pose proof (final_rec_sound _ _ _ _ _ Hfin) as Hr.
  destruct (final_resolves _ _ _ Hr) as (h'' & Hfin' & Hc & Hvis).
  rewrite Hfin in Hfin'. injection Hfin' as ->. done.
Qed.

Lemma final_root h l : is_root h l -> RoomOps.final h l = Some (h, l).
Proof.
  intros (r & Hl & Hm). unfold RoomOps.final.
  pose proof (lookup_lt_Some _ _ _ Hl). destruct (length h) as [|n]; [lia |].
  simpl. rewrite Hl. simpl. by rewrite Hm.
Qed.

Lemma finals_cons h l ls :
  finals h (l :: ls) = (fst <$> RoomOps.final h l) ≫= fun h' => finals h' ls.
Proof.
  unfold finals. simpl. destruct (fst <$> RoomOps.final h l) as [h'|]; [done |].
  simpl. induction ls; [done | by simpl].
Qed.

Lemma finals_spec h ls :
  forest h -> Forall (fun l => (l < length h)%nat) ls ->
  exists h', finals h ls = Some h' /\ compressed h h'.
Proof.
  revert h. induction ls as [|l ls IH]; intros h Hf Hls.
  - exists h. split; [done | apply compressed_refl].
  - apply Forall_cons in Hls as [Hl Hls].
    destruct (final_forest _ _ Hf Hl) as (h1 & root & Hfin & _ & Hc).
    destruct (IH h1) as (h' & Hfins & Hc').
    + by eapply compressed_forest.
    + by rewrite (compressed_length _ _ Hc).
    + exists h'. rewrite finals_cons, Hfin. simpl. split; [done |].
      by eapply compressed_trans.
Qed.

Lemma chair_get_sum a b t :
  chair_get (chairs_sum a b) t = chair_get a t + chair_get b t.
Proof. by destruct t. Qed.

(** * The store during [parse] *)

Lemma chair_get_add c ty n t :
  chair_get (chair_add c ty n) t = chair_get c t + (if decide (t = ty) then n else 0).
Proof. destruct ty, t; simpl; lia. Qed.

Lemma chairs_nonneg_add c ty : chairs_nonneg c -> chairs_nonneg (chair_add c ty 1).
Proof. intros H t. rewrite chair_get_add. specialize (H t). case_decide; lia. Qed.

Lemma chairs_nonneg_sum a b : chairs_nonneg a -> chairs_nonneg b -> chairs_nonneg (chairs_sum a b).
Proof. intros Ha Hb t. rewrite chair_get_sum. specialize (Ha t). specialize (Hb t). lia. Qed.

Lemma compressed_heap_ok h h' : heap_ok h -> compressed h h' -> heap_ok h'.
Proof.
  intros [Hf Hok] Hc. split; [by eapply compressed_forest |].
  intros l r' Hl'. pose proof (lookup_lt_Some _ _ _ Hl') as Hlt.
  rewrite (compressed_length _ _ Hc) in Hlt.
  destruct (lookup_lt_is_Some_2 _ _ Hlt) as [r Hl].
  destruct Hc as [_ Hc]. destruct (Hc _ _ Hl) as (r'' & Hl'' & (Hi & _ & Hch) & _).
  assert (r'' = r') as -> by congruence.
  destruct (Hok _ _ Hl) as [? ?]. split; congruence.
Qed.

(** Writing the data of a room leaves every root where it is. *)
Lemma insert_resolves_in h l r r' x root d :
  h !! l = Some r -> Room.merged_into r' = Room.merged_into r ->
  resolves_in h x root d -> resolves_in (<[l := r']> h) x root d.
Proof.
  intros Hl Hm. pose proof (lookup_lt_Some _ _ _ Hl) as Hlt.
  induction 1 as [x rx Hx Hmx | x rx p root d Hx Hmx Hp IH].
  - destruct (decide (x = l)) as [-> | Hne].
    + econstructor; [by apply list_lookup_insert_eq | congruence].
    + econstructor; [by rewrite list_lookup_insert_ne | done].
  - destruct (decide (x = l)) as [-> | Hne].
    + econstructor; [by apply list_lookup_insert_eq | | exact IH]. congruence.
    + econstructor; [by rewrite list_lookup_insert_ne | exact Hmx | exact IH].
Qed.

Lemma insert_resolves h l r r' x root :
  h !! l = Some r -> Room.merged_into r' = Room.merged_into r ->
  resolves (<[l := r']> h) x root <-> resolves h x root.
Proof.
  intros Hl Hm. pose proof (lookup_lt_Some _ _ _ Hl) as Hlt. split; intros [d H]; exists d.
  - eapply (insert_resolves_in _ l r' r) in H;
      [| by apply list_lookup_insert_eq | done].
    by rewrite list_insert_insert_eq, list_insert_id in H.
  - by eapply insert_resolves_in.
Qed.

Lemma insert_heap_ok h l r r' :
  heap_ok h -> h !! l = Some r -> Room.merged_into r' = Room.merged_into r ->
  room_ok l r' -> heap_ok (<[l := r']> h).
Proof.
  intros [Hf Hok] Hl Hm Hr'. pose proof (lookup_lt_Some _ _ _ Hl) as Hlt. split.
  - intros x Hx. rewrite length_insert in Hx. destruct (Hf x Hx) as [root Hroot].
    exists root. by eapply insert_resolves.
  - intros x rx. destruct (decide (x = l)) as [-> | Hne].
    + rewrite list_lookup_insert_eq by done. by intros [= <-].
    + rewrite list_lookup_insert_ne by done. apply Hok.
Qed.

(** [Room(...)] adds a root and leaves the others where they are. *)
Lemma alloc_resolves_in h r x root d :
  resolves_in h x root d -> resolves_in (h ++ [r]) x root d.
Proof.
  induction 1 as [x rx Hx Hmx | x rx p root d Hx Hmx Hp IH].
  - econstructor; [by apply lookup_app_l_Some | done].
  - econstructor; [by apply lookup_app_l_Some | exact Hmx | exact IH].
Qed.

Lemma alloc_resolves h r x root : resolves h x root -> resolves (h ++ [r]) x root.
Proof. intros [d H]. exists d. by apply alloc_resolves_in. Qed.

Lemma alloc_is_root h i : is_root (h ++ [Room.init i]) (length h).
Proof. exists (Room.init i). split; [| done]. by rewrite lookup_app_r, Nat.sub_diag. Qed.

Lemma alloc_heap_ok h :
  heap_ok h -> heap_ok (h ++ [Room.init (Z.of_nat (length h) + 1)]).
Proof.
  intros [Hf Hok]. split.
  - intros x Hx. rewrite length_app in Hx. simpl in Hx.
    destruct (decide (x = length h)) as [-> | Hne].
    + eexists. apply is_root_resolves, alloc_is_root.
    + destruct (Hf x ltac:(lia)) as [root Hroot]. exists root. by apply alloc_resolves.
  - intros x rx Hx. apply lookup_app_Some in Hx as [Hx | [Hge Hx]]; [by apply Hok |].
    apply list_lookup_singleton_Some in Hx as [Hx <-].
    assert (x = length h) as -> by lia. split; [done |]. by intros [].
Qed.

Lemma merged_heap_ok h a b ra rb :
  heap_ok h -> a <> b -> h !! a = Some ra -> h !! b = Some rb ->
  Room.merged_into ra = None -> Room.merged_into rb = None ->
  heap_ok (merged_heap h a b ra rb).
Proof.
  intros [Hf Hok] Hne Ha Hb Hra Hrb. split; [by apply merged_heap_forest |].
  intros x rx Hx. destruct (Hok _ _ Ha) as [Hia Hca]. destruct (Hok _ _ Hb) as [Hib Hcb].
  destruct (decide (x = a)) as [-> | Hxa].
  - rewrite merged_heap_survivor in Hx by done. injection Hx as <-.
    split; [done |]. by apply chairs_nonneg_sum.
  - destruct (decide (x = b)) as [-> | Hxb].
    + rewrite merged_heap_absorbed in Hx by done. by injection Hx as <-.
    + rewrite merged_heap_other in Hx by done. by apply Hok.
Qed.

Lemma final_heap_ok h l :
  heap_ok h -> (l < length h)%nat ->
  exists h' root r,
    RoomOps.final h l = Some (h', root) /\ resolves h l root /\ compressed h h' /\
    heap_ok h' /\ h !! root = Some r /\ h' !! root = Some r /\ Room.merged_into r = None.
Proof.
  intros Hok Hl. destruct (final_forest _ _ (proj1 Hok) Hl) as (h' & root & Hfin & Hr & Hc).
  destruct (resolves_is_root _ _ _ Hr) as (r & Hroot & Hm).
  exists h', root, r. split_and!; try done.
  - by eapply compressed_heap_ok.
  - by eapply compressed_root_lookup.
Qed.

(** [cur.final().field = ...]: the write lands on the root of [cur]. *)
Lemma update_root_spec h cur f :
  heap_ok h -> (cur < length h)%nat ->
  (forall l r, room_ok l r -> room_ok l (f r)) ->
  (forall r, Room.merged_into (f r) = Room.merged_into r) ->
  exists h1 root r,
    RoomOps.final h cur = Some (h1, root) /\ resolves h cur root /\
    h !! root = Some r /\ Room.merged_into r = None /\ compressed h h1 /\
    update h1 root f = Some (<[root := f r]> h1) /\
    heap_ok (<[root := f r]> h1) /\
    length (<[root := f r]> h1) = length h /\
    (forall l root', resolves h l root' -> resolves (<[root := f r]> h1) l root').
Proof.
  intros Hok Hcur Hf Hm.
  destruct (final_heap_ok _ _ Hok Hcur) as (h1 & root & r & Hfin & Hr & Hc & Hok1 & Hroot & Hroot1 & Hrm).
  exists h1, root, r. split_and!; try done.
  - unfold update. by rewrite Hroot1.
  - eapply insert_heap_ok; [done | done | apply Hm |]. apply Hf. by apply (proj2 Hok1).
  - rewrite length_insert. by apply compressed_length.
  - intros l root' Hl. eapply insert_resolves; [done | apply Hm |].
    by eapply compressed_resolves.
Qed.

Lemma cells_ok_mono n n' g : (n <= n')%nat -> cells_ok n g -> cells_ok n' g.
Proof.
  intros Hle [Hlen Hrows]. split; [done |]. intros j row Hj.
  destruct (Hrows _ _ Hj) as [? Hcells]. split; [done |].
  intros i l Hi. specialize (Hcells _ _ Hi). lia.
Qed.

Lemma get_room_valid n g x y l :
  cells_ok n g -> Grid.get_room g x y = Some l -> (l < n)%nat.
Proof.
  intros [_ Hrows]. unfold Grid.get_room.
  destruct ((y <? 0) || (y >=? Grid.height g)); [done |].
  destruct ((x <? 0) || (x >=? Grid.width g)); [done |].
  destruct (Grid.cells g !! Z.to_nat y) as [row|] eqn:Hrow; [simpl | done].
  destruct (row !! Z.to_nat x) as [[l'|]|] eqn:Hcell; simpl; try done.
  intros [= <-]. destruct (Hrows _ _ Hrow) as [_ Hcells]. by eapply Hcells.
Qed.

Lemma get_connected_room_above_valid n g x y l :
  cells_ok n g -> Grid.get_connected_room_above g x y = Some l -> (l < n)%nat.
Proof.
  intros Hok. unfold Grid.get_connected_room_above.
  destruct (y <=? 0); [done |]. destruct (Grid.is_wall g x (y - 1)); [done |].
  by apply get_room_valid.
Qed.

Lemma py_index_in_range n i :
  0 <= i < Z.of_nat n -> py_index n i = Some (Z.to_nat i).
Proof.
  intros Hi. unfold py_index.
  destruct (0 <=? i) eqn:H1; [| lia]. destruct (i <? Z.of_nat n) eqn:H2; [done | lia].
Qed.

Lemma set_room_spec n g x y l :
  cells_ok n g -> 0 <= x < Grid.width g -> 0 <= y < Grid.height g -> (l < n)%nat ->
  exists g', Grid.set_room g x y l = Some g' /\ cells_ok n g' /\
             Grid.lines g' = Grid.lines g.
Proof.
  intros [Hlen Hrows] Hx Hy Hl. unfold Grid.set_room.
  rewrite py_index_in_range by lia. simpl.
  destruct (lookup_lt_is_Some_2 (Grid.cells g) (Z.to_nat y) ltac:(lia)) as [row Hrow].
  rewrite Hrow. simpl. destruct (Hrows _ _ Hrow) as [Hrowlen Hcells].
  rewrite py_index_in_range by lia. simpl. eexists. split; [done |].
  split; [| done]. split; simpl.
  - rewrite length_insert. done.
  - unfold Grid.width, Grid.height in *. simpl.
    intros j row' Hj. destruct (decide (j = Z.to_nat y)) as [-> | Hne].
    + rewrite list_lookup_insert_eq in Hj by lia. injection Hj as <-.
      rewrite length_insert. split; [done |]. intros i l' Hi.
      destruct (decide (i = Z.to_nat x)) as [-> | Hne'].
      * rewrite list_lookup_insert_eq in Hi by lia. by injection Hi as <-.
      * rewrite list_lookup_insert_ne in Hi by done. by eapply Hcells.
    + rewrite list_lookup_insert_ne in Hj by done. exact (Hrows _ _ Hj).
Qed.

(** ** An assigned name is never taken back *)

Lemma names_kept_refl h : names_kept h h.
Proof. intros l r Hl Hn. by exists r. Qed.

Lemma names_kept_trans h1 h2 h3 : names_kept h1 h2 -> names_kept h2 h3 -> names_kept h1 h3.
Proof.
  intros H12 H23 l r Hl Hn. destruct (H12 _ _ Hl Hn) as (r' & Hl' & Hn'). by eapply H23.
Qed.

Lemma compressed_names_kept h h' : compressed h h' -> names_kept h h'.
Proof.
  intros [_ Hc] l r Hl Hn. destruct (Hc _ _ Hl) as (r' & Hl' & (_ & Hname & _) & _).
  exists r'. split; [done | congruence].
Qed.

Lemma insert_names_kept h l r r' :
  h !! l = Some r -> (Room.name r <> None -> Room.name r' <> None) ->
  names_kept h (<[l := r']> h).
Proof.
  intros Hl Hkeep x rx Hx Hn. pose proof (lookup_lt_Some _ _ _ Hl).
  destruct (decide (x = l)) as [-> | Hne].
  - exists r'. split; [by apply list_lookup_insert_eq |]. apply Hkeep. congruence.
  - exists rx. by rewrite list_lookup_insert_ne.
Qed.

Lemma alloc_names_kept h r : names_kept h (h ++ [r]).
Proof. intros x rx Hx Hn. exists rx. split; [by apply lookup_app_l_Some | done]. Qed.

Lemma merged_name_kept self other : self <> None -> merged_name self other <> None.
Proof.
  unfold merged_name. destruct (truthy other && negb (truthy self)) eqn:Ht; [| done].
  intros _. by destruct other.
Qed.

Lemma merged_names_kept h a b ra rb :
  a <> b -> h !! a = Some ra -> h !! b = Some rb ->
  names_kept h (merged_heap h a b ra rb).
Proof.
  intros Hne Ha Hb x rx Hx Hn.
  destruct (decide (x = a)) as [-> | Hxa].
  - exists (merged_room ra rb). split; [by apply merged_heap_survivor |].
    simpl. apply merged_name_kept. congruence.
  - destruct (decide (x = b)) as [-> | Hxb].
    + exists (Room.set_merged_into (Some a) rb). split; [by apply merged_heap_absorbed |].
      simpl. congruence.
    + exists rx. by rewrite merged_heap_other.
Qed.

Lemma merge_above_spec h g x y cur :
  heap_ok h -> cells_ok (length h) g -> (cur < length h)%nat ->
  exists h' m,
    Parser.merge_above h g x y cur = Some h' /\ heap_ok h' /\ length h' = length h /\
    (forall l root, resolves h l root -> resolves h' l (redirect m root)) /\
    (forall fa fc, m = Some (fa, fc) ->
       fa <> fc /\ exists above, Grid.get_connected_room_above g x y = Some above /\
                                 resolves h above fa /\ resolves h cur fc) /\
    (forall above, Grid.get_connected_room_above g x y = Some above ->
       exists r, resolves h' above r /\ resolves h' cur r) /\
    names_kept h h'.
Proof.
  intros Hok Hcells Hcur. unfold Parser.merge_above.
  destruct (Grid.get_connected_room_above g x y) as [above|] eqn:Habove.
  2: { exists h, None. split_and!; try done. apply names_kept_refl. }
  pose proof (get_connected_room_above_valid _ _ _ _ _ Hcells Habove) as Hab.
  destruct (final_heap_ok _ _ Hok Hab) as (h1 & fa & ra & Hfin1 & Hr1 & Hc1 & Hok1 & Hfa & Hfa1 & Hram).
  rewrite Hfin1. simpl.
  assert (cur < length h1)%nat as Hcur1 by (by rewrite (compressed_length _ _ Hc1)).
  destruct (final_heap_ok _ _ Hok1 Hcur1) as (h2 & fc & rc & Hfin2 & Hr2 & Hc2 & Hok2 & Hfc1 & Hfc2 & Hrcm).
  rewrite Hfin2. simpl.
  assert (compressed h h2) as Hc by (eapply compressed_trans; [apply Hok | done | done]).
  assert (resolves h cur fc) as Hrc.
  { eapply compressed_resolves_rev; [apply Hok | exact Hc1 | done]. }
  case_bool_decide as Hne.
  - assert (h2 !! fa = Some ra) as Hfa2 by (by eapply compressed_root_lookup).
    rewrite (merge_with_eq _ _ _ _ _ Hne Hfa2 Hfc2). simpl.
    assert (forall l root, resolves h l root ->
              resolves (merged_heap h2 fa fc ra rc) l (if decide (root = fc) then fa else root))
      as Hall.
    { intros l root Hl. apply merged_heap_resolves; try done. by eapply compressed_resolves. }
    exists (merged_heap h2 fa fc ra rc), (Some (fa, fc)). split_and!; try done.
    + by apply merged_heap_ok.
    + rewrite merged_heap_length. by apply compressed_length.
    + intros fa' fc' [= <- <-]. split; [done |]. by exists above.
    + intros above' [= <-]. exists fa. split.
      * specialize (Hall _ _ Hr1). by rewrite decide_False in Hall.
      * specialize (Hall _ _ Hrc). by rewrite decide_True in Hall.
    + eapply names_kept_trans; [by apply compressed_names_kept |].
      by apply merged_names_kept.
  - assert (fa = fc) as <- by (by destruct (decide (fa = fc))).
    exists h2, None. split_and!; try done.
    + by apply compressed_length.
    + intros l root Hl. simpl. by eapply compressed_resolves.
    + intros above' [= <-]. exists fa. split; by eapply compressed_resolves.
    + by apply compressed_names_kept.
Qed.

(** * The scan *)

Lemma close_room_ok st : state_ok st -> state_ok (Parser.close_room st).
Proof. intros (? & ? & ? & ?). by split_and!. Qed.

Lemma open_room_spec st :
  state_ok st ->
  exists st1 cur,
    Parser.open_room st = (st1, cur) /\ state_ok st1 /\
    Parser.current_room st1 = Some cur /\
    Parser.grid st1 = Parser.grid st /\
    Parser.name_buffer st1 = Parser.name_buffer st /\
    (forall l root, resolves (Parser.st_heap st) l root ->
                    resolves (Parser.st_heap st1) l root) /\
    ((Parser.current_room st = Some cur /\ st1 = st) \/
     (Parser.current_room st = None /\ cur = length (Parser.st_heap st) /\
      Parser.st_heap st1 =
        Parser.st_heap st ++ [Room.init (Parser.room_counter st + 1)])).
Proof.
  intros Hst. pose proof Hst as (Hok & Hcnt & Hcells & Hcur). unfold Parser.open_room.
  destruct (Parser.current_room st) as [c|] eqn:Hc.
  - exists st, c. split_and!; try done. by left.
  - unfold alloc. eexists _, _. split; [done |]. simpl. rewrite Hcnt. split_and!; try done.
    + split_and!; simpl.
      * by apply alloc_heap_ok.
      * rewrite length_app. simpl. lia.
      * eapply cells_ok_mono; [| done]. rewrite length_app. lia.
      * intros c [= <-]. rewrite length_app. simpl. lia.
    + intros l root. apply alloc_resolves.
    + right. done.
Qed.

Lemma enter_cell_spec st x y :
  state_ok st ->
  0 <= x < Grid.width (Parser.grid st) -> 0 <= y < Grid.height (Parser.grid st) ->
  exists st2 cur m,
    Parser.enter_cell st x y = Some (st2, cur) /\ state_ok st2 /\
    Parser.current_room st2 = Some cur /\
    Grid.lines (Parser.grid st2) = Grid.lines (Parser.grid st) /\
    Parser.name_buffer st2 = Parser.name_buffer st /\
    (length (Parser.st_heap st) <= length (Parser.st_heap st2))%nat /\
    (Parser.current_room st = Some cur \/
     (Parser.current_room st = None /\ cur = length (Parser.st_heap st))) /\
    (forall l root, resolves (Parser.st_heap st) l root ->
                    resolves (Parser.st_heap st2) l (redirect m root)) /\
    (forall fa fc, m = Some (fa, fc) ->
       fa <> fc /\
       exists above,
         Grid.get_connected_room_above (Parser.grid st) x y = Some above /\
         resolves (Parser.st_heap st) above fa /\
         ((Parser.current_room st = Some cur /\ resolves (Parser.st_heap st) cur fc) \/
          (Parser.current_room st = None /\ fc = length (Parser.st_heap st)))) /\
    (forall above, Grid.get_connected_room_above (Parser.grid st) x y = Some above ->
       exists r, resolves (Parser.st_heap st2) above r /\ resolves (Parser.st_heap st2) cur r) /\
    names_kept (Parser.st_heap st) (Parser.st_heap st2).
Proof.
  intros Hst Hx Hy. pose proof Hst as (Hok0 & _ & Hcells0 & _).
  destruct (open_room_spec _ Hst) as (st1 & cur & Hopen & Hst1 & Hcur1 & Hg1 & Hb1 & Hres1 & Hcase).
  unfold Parser.enter_cell. rewrite Hopen.
  destruct Hst1 as (Hok1 & Hcnt1 & Hcells1 & Hcurv).
  pose proof (Hcurv _ Hcur1) as Hcurlt.
  destruct (merge_above_spec _ _ x y _ Hok1 Hcells1 Hcurlt)
    as (h2 & m & Hmerge & Hok2 & Hlen2 & Hres2 & Hm & Hjoin & Hnames).
  rewrite Hmerge. simpl.
  destruct (set_room_spec _ _ x y cur Hcells1) as (g2 & Hset & Hcells2 & Hlines2);
    [by rewrite Hg1 | by rewrite Hg1 | done |].
  rewrite Hset. simpl. eexists _, cur, m. split; [done |]. simpl.
  assert (length (Parser.st_heap st) <= length (Parser.st_heap st1))%nat as Hle.
  { destruct Hcase as [[_ ->] | (_ & _ & ->)]; [done |]. rewrite length_app. lia. }
  split_and!; try done.
  - split_and!; simpl; try done; rewrite ?Hlen2; try done.
  - by rewrite Hlines2, Hg1.
  - lia.
  - destruct Hcase as [[? _] | (? & ? & _)]; [by left | by right].
  - intros l root Hl. by apply Hres2, Hres1.
  - intros fa fc Hmeq. destruct (Hm _ _ Hmeq) as (Hne & above & Habove & Hra & Hrc).
    split; [done |]. exists above. rewrite Hg1 in Habove. split; [done |].
    pose proof (get_connected_room_above_valid _ _ _ _ _ Hcells0 Habove) as Hablt.
    destruct (proj1 Hok0 _ Hablt) as [fa0 Hfa0].
    rewrite (resolves_fun _ _ _ _ Hra (Hres1 _ _ Hfa0)). split; [done |].
    destruct Hcase as [[Hc ->] | (Hc & -> & Hh1)].
    + left. done.
    + right. split; [done |]. eapply resolves_root_eq; [| exact Hrc].
      rewrite Hh1. apply alloc_is_root.
  - intros above Habove. apply Hjoin. by rewrite Hg1.
  - eapply names_kept_trans; [| exact Hnames].
    destruct Hcase as [[_ ->] | (_ & _ & ->)]; [apply names_kept_refl | apply alloc_names_kept].
Qed.

Lemma count_chair_spec h char cur :
  heap_ok h -> (cur < length h)%nat ->
  exists h', Parser.count_chair h char cur = Some h' /\ heap_ok h' /\
             length h' = length h /\
             (forall l root, resolves h l root -> resolves h' l root) /\
             names_kept h h'.
Proof.
  intros Hok Hcur. unfold Parser.count_chair.
  destruct (chair_of_char char) as [ty|].
  2: { exists h. split_and!; try done. apply names_kept_refl. }
  destruct (update_root_spec h cur
              (fun r => Room.set_chairs (chair_add (Room.chairs r) ty 1) r) Hok Hcur)
    as (h1 & root & r & Hfin & _ & Hroot & Hm & Hc & Hupd & Hok' & Hlen & Hres).
  - intros l r [Hid Hch]. split; [done |]. by apply chairs_nonneg_add.
  - done.
  - rewrite Hfin. simpl. rewrite Hupd. eexists. split_and!; try done.
    eapply names_kept_trans; [by apply compressed_names_kept |].
    eapply insert_names_kept; [by eapply compressed_root_lookup | done].
Qed.

Lemma track_name_spec h char cur buf :
  heap_ok h -> (cur < length h)%nat ->
  exists h' buf', Parser.track_name h char cur buf = Some (h', buf') /\ heap_ok h' /\
                  length h' = length h /\
                  (forall l root, resolves h l root -> resolves h' l root) /\
                  names_kept h h'.
Proof.
  intros Hok Hcur. unfold Parser.track_name.
  pose proof (names_kept_refl h) as Hrefl.
  case_bool_decide; [by eexists _, _ |].
  destruct buf as [b|]; [| by eexists _, _].
  case_bool_decide; [| by eexists _, _].
  destruct (update_root_spec h cur (Room.set_name (Some b)) Hok Hcur)
    as (h1 & root & r & Hfin & _ & Hroot & Hm & Hc & Hupd & Hok' & Hlen & Hres);
    [done | done |].
  rewrite Hfin. simpl. rewrite Hupd. simpl. eexists _, _. split_and!; try done.
  eapply names_kept_trans; [by apply compressed_names_kept |].
  eapply insert_names_kept; [by eapply compressed_root_lookup | done].
Qed.

Lemma scan_cell_spec y st x :
  state_ok st ->
  0 <= x < Grid.width (Parser.grid st) -> 0 <= y < Grid.height (Parser.grid st) ->
  exists st' m,
    Parser.scan_cell y st x = Some st' /\ state_ok st' /\
    Grid.lines (Parser.grid st') = Grid.lines (Parser.grid st) /\
    (length (Parser.st_heap st) <= length (Parser.st_heap st'))%nat /\
    (Grid.is_wall (Parser.grid st) x y = true -> st' = Parser.close_room st) /\
    (Grid.is_wall (Parser.grid st) x y = false ->
       exists cur, Parser.current_room st' = Some cur /\
         (Parser.current_room st = Some cur \/
          (Parser.current_room st = None /\ cur = length (Parser.st_heap st))) /\
         forall above,
           Grid.get_connected_room_above (Parser.grid st) x y = Some above ->
           exists r, resolves (Parser.st_heap st') above r /\
                     resolves (Parser.st_heap st') cur r) /\
    (forall l root, resolves (Parser.st_heap st) l root ->
                    resolves (Parser.st_heap st') l (redirect m root)) /\
    (forall fa fc, m = Some (fa, fc) ->
       Grid.is_wall (Parser.grid st) x y = false /\ fa <> fc /\
       exists above,
         Grid.get_connected_room_above (Parser.grid st) x y = Some above /\
         resolves (Parser.st_heap st) above fa /\
         ((exists cur, Parser.current_room st = Some cur /\
                       resolves (Parser.st_heap st) cur fc) \/
          (Parser.current_room st = None /\ fc = length (Parser.st_heap st)))) /\
    names_kept (Parser.st_heap st) (Parser.st_heap st').
Proof.
  intros Hst Hx Hy. unfold Parser.scan_cell.
  destruct (Grid.is_wall (Parser.grid st) x y) eqn:Hwall.
  { exists (Parser.close_room st), None. split_and!; try done;
      [by apply close_room_ok | apply names_kept_refl]. }
  destruct (enter_cell_spec _ _ _ Hst Hx Hy)
    as (st2 & cur & m & Henter & Hst2 & Hcur2 & Hlines2 & Hbuf2 & Hle2 & Hcur & Hres2 & Hm
        & Hjoin & Hnames2).
  rewrite Henter. simpl. destruct Hst2 as (Hok2 & Hcnt2 & Hcells2 & Hcurv2).
  pose proof (Hcurv2 _ Hcur2) as Hcurlt.
  destruct (count_chair_spec _ (Grid.get_char (Parser.grid st) x y) _ Hok2 Hcurlt)
    as (h3 & Hcount & Hok3 & Hlen3 & Hres3 & Hnames3).
  rewrite Hcount. simpl.
  destruct (track_name_spec h3 (Grid.get_char (Parser.grid st) x y) cur
              (Parser.name_buffer st2) Hok3 ltac:(lia))
    as (h4 & buf & Htrack & Hok4 & Hlen4 & Hres4 & Hnames4).
  rewrite Htrack. simpl. eexists _, m. split; [done |]. simpl. split_and!; try done.
  - split_and!; simpl; try done; rewrite ?Hlen4, ?Hlen3; done.
  - lia.
  - intros _. exists cur. split_and!; [done | done |].
    intros above Habove. destruct (Hjoin _ Habove) as (r & Hra & Hrc).
    exists r. split; by apply Hres4, Hres3.
  - intros l root Hl. by apply Hres4, Hres3, Hres2.
  - intros fa fc Hmeq. destruct (Hm _ _ Hmeq) as (Hne & above & Hab & Hra & Hcase).
    split_and!; try done. exists above. split_and!; try done.
    destruct Hcase as [[? ?] | [? ?]]; [left; by exists cur | by right].
  - eapply names_kept_trans; [exact Hnames2 |].
    eapply names_kept_trans; [exact Hnames3 | exact Hnames4].
Qed.

(** The rooms of the store after a floor cell: a cell that continues a
    segment makes no room; a cell that starts one makes one room, which is
    its own root, or is merged into the root of the room above, and leaves
    every other room with its root. *)
Lemma scan_cell_floor y st x :
  state_ok st ->
  0 <= x < Grid.width (Parser.grid st) -> 0 <= y < Grid.height (Parser.grid st) ->
  Grid.is_wall (Parser.grid st) x y = false ->
  exists st' cur,
    Parser.scan_cell y st x = Some st' /\ Parser.current_room st' = Some cur /\
    ((Parser.current_room st = Some cur /\
      length (Parser.st_heap st') = length (Parser.st_heap st)) \/
     (Parser.current_room st = None /\ cur = length (Parser.st_heap st) /\
      length (Parser.st_heap st') = S (length (Parser.st_heap st)) /\
      (forall l root, resolves (Parser.st_heap st) l root ->
                      resolves (Parser.st_heap st') l root) /\
      (Grid.get_connected_room_above (Parser.grid st) x y = None ->
         resolves (Parser.st_heap st') cur cur) /\
      (forall above, Grid.get_connected_room_above (Parser.grid st) x y = Some above ->
         exists fa, resolves (Parser.st_heap st) above fa /\
                    resolves (Parser.st_heap st') cur fa))).
Proof.
  intros Hst Hx Hy Hwall. pose proof Hst as (Hok0 & _ & Hcells0 & _).
  unfold Parser.scan_cell, Parser.enter_cell. rewrite Hwall.
  destruct (open_room_spec _ Hst)
    as (st1 & cur & Hopen & Hst1 & Hcur1 & Hg1 & Hb1 & Hres1 & Hcase).
  rewrite Hopen. destruct Hst1 as (Hok1 & Hcnt1 & Hcells1 & Hcurv).
  pose proof (Hcurv _ Hcur1) as Hcurlt.
  destruct (merge_above_spec _ _ x y _ Hok1 Hcells1 Hcurlt)
    as (h2 & m & Hmerge & Hok2 & Hlen2 & Hres2 & Hm & Hjoin & _).
  rewrite Hmerge. simpl.
  destruct (set_room_spec _ _ x y cur Hcells1) as (g2 & Hset & Hcells2 & Hlines2);
    [by rewrite Hg1 | by rewrite Hg1 | done |].
  rewrite Hset. simpl.
  destruct (count_chair_spec h2 (Grid.get_char (Parser.grid st) x y) cur Hok2 ltac:(lia))
    as (h3 & Hcount & Hok3 & Hlen3 & Hres3 & _).
  rewrite Hcount. simpl.
  destruct (track_name_spec h3 (Grid.get_char (Parser.grid st) x y) cur
              (Parser.name_buffer st1) Hok3 ltac:(lia))
    as (h4 & buf & Htrack & Hok4 & Hlen4 & Hres4 & _).
  rewrite Htrack. simpl. eexists _, cur. split; [done |]. simpl. split; [done |].
  destruct Hcase as [[Hc ->] | (Hc & -> & Hh1)].
  { left. split; [done |]. by rewrite Hlen4, Hlen3, Hlen2. }
  right. rewrite Hg1 in Hm, Hjoin.
  assert (resolves (Parser.st_heap st1) (length (Parser.st_heap st))
            (length (Parser.st_heap st))) as Hnew.
  { apply is_root_resolves. rewrite Hh1. apply alloc_is_root. }
  assert (forall l root, resolves (Parser.st_heap st) l root ->
                         root <> length (Parser.st_heap st)) as Hold.
  { intros l root (rr & Hrr & _)%resolves_is_root ->.
    apply lookup_lt_Some in Hrr. lia. }
  assert (forall above, Grid.get_connected_room_above (Parser.grid st) x y = Some above ->
            exists fa, resolves (Parser.st_heap st) above fa /\
                       m = Some (fa, length (Parser.st_heap st))) as Hmerged.
  { intros above Habove.
    pose proof (get_connected_room_above_valid _ _ _ _ _ Hcells0 Habove) as Hablt.
    destruct (proj1 Hok0 _ Hablt) as [fa Hfa]. exists fa. split; [done |].
    destruct m as [[fa' fc]|].
    - destruct (Hm fa' fc eq_refl) as (_ & above' & Habove' & Hra & Hrc).
      rewrite Habove in Habove'. injection Habove' as <-.
      rewrite (resolves_fun _ _ _ _ Hra (Hres1 _ _ Hfa)).
      by rewrite (resolves_fun _ _ _ _ Hrc Hnew).
    - destruct (Hjoin _ Habove) as (r & Hra & Hrc).
      pose proof (resolves_fun _ _ _ _ Hra (Hres2 _ _ (Hres1 _ _ Hfa))) as E1.
      pose proof (resolves_fun _ _ _ _ Hrc (Hres2 _ _ Hnew)) as E2.
      simpl in E1, E2. destruct (Hold _ _ Hfa). congruence. }
  split_and!; [done | done | | | |].
  - rewrite Hlen4, Hlen3, Hlen2, Hh1, length_app. simpl. lia.
  - intros l root Hl. apply Hres4, Hres3.
    pose proof (Hres2 _ _ (Hres1 _ _ Hl)) as Hl2.
    destruct m as [[fa fc]|]; simpl in Hl2; [| done].
    destruct (Hm fa fc eq_refl) as (_ & above & Habove & _).
    destruct (Hmerged _ Habove) as (fa' & _ & [= -> ->]).
    rewrite decide_False in Hl2; [done | by eapply Hold].
  - intros Hnone. apply Hres4, Hres3.
    pose proof (Hres2 _ _ Hnew) as Hn2.
    destruct m as [[fa fc]|]; simpl in Hn2; [| done].
    destruct (Hm fa fc eq_refl) as (_ & above & Habove & _). congruence.
  - intros above Habove. destruct (Hmerged _ Habove) as (fa & Hfa & ->).
    exists fa. split; [done |]. apply Hres4, Hres3.
    pose proof (Hres2 _ _ Hnew) as Hn2. simpl in Hn2. by rewrite decide_True in Hn2.
Qed.

(** A loop whose body can fail, run under an invariant. *)
Lemma foldl_option_inv {A B} (f : A -> B -> option A) (I : A -> Prop) (P : B -> Prop)
    (l : list B) (a : A) :
  I a -> Forall P l ->
  (forall a b, I a -> P b -> exists a', f a b = Some a' /\ I a') ->
  exists a', foldl (fun oa b => a ← oa; f a b) (Some a) l = Some a' /\ I a'.
Proof.
  intros Ha Hl Hstep. revert a Ha.
  induction Hl as [|b l Hb Hl IH]; intros a Ha; simpl; [by exists a |].
  destruct (Hstep _ _ Ha Hb) as (a' & -> & Ha'). by apply IH.
Qed.

Lemma range_bounds n : Forall (fun x => 0 <= x < n) (range n).
Proof. apply Forall_forall. intros x Hx%elem_of_seqZ. lia. Qed.

Lemma width_lines g g' : Grid.lines g' = Grid.lines g -> Grid.width g' = Grid.width g.
Proof. unfold Grid.width. by intros ->. Qed.

Lemma height_lines g g' : Grid.lines g' = Grid.lines g -> Grid.height g' = Grid.height g.
Proof. unfold Grid.height. by intros ->. Qed.

Lemma scan_row_spec st y :
  state_ok st -> 0 <= y < Grid.height (Parser.grid st) ->
  exists st', Parser.scan_row st y = Some st' /\ state_ok st' /\
              Grid.lines (Parser.grid st') = Grid.lines (Parser.grid st).
Proof.
  intros Hst Hy. unfold Parser.scan_row.
  apply (foldl_option_inv (Parser.scan_cell y)
           (fun st' => state_ok st' /\
                       Grid.lines (Parser.grid st') = Grid.lines (Parser.grid st))
           (fun x => 0 <= x < Grid.width (Parser.grid st))).
  - split; [by apply close_room_ok | done].
  - apply range_bounds.
  - intros st1 x [Hst1 Hlines1] Hx.
    destruct (scan_cell_spec y st1 x Hst1) as (st' & m & Hcell & Hst' & Hlines' & _).
    + by rewrite (width_lines _ _ Hlines1).
    + by rewrite (height_lines _ _ Hlines1).
    + exists st'. split_and!; [done | done | congruence].
Qed.

Lemma init_cells_ok text : cells_ok 0 (Grid.init text).
Proof.
  unfold Grid.init, cells_ok, Grid.height, Grid.width. simpl. split.
  - by rewrite length_replicate.
  - intros j row [-> _]%lookup_replicate. rewrite length_replicate. split; [done |].
    intros i l [? _]%lookup_replicate. done.
Qed.

Lemma scan_spec text :
  exists st, Parser.scan text = Some st /\ state_ok st /\
             Grid.lines (Parser.grid st) = splitlines text.
Proof.
  unfold Parser.scan.
  apply (foldl_option_inv Parser.scan_row
           (fun st => state_ok st /\ Grid.lines (Parser.grid st) = splitlines text)
           (fun y => 0 <= y < Grid.height (Grid.init text))).
  - split; [| done]. split_and!; simpl; try done.
    + split; [intros l Hl; simpl in Hl; lia | done].
    + apply init_cells_ok.
  - apply range_bounds.
  - intros st y [Hst Hlines] Hy.
    destruct (scan_row_spec st y Hst) as (st' & Hrow & Hst' & Hlines').
    + by rewrite (height_lines (Grid.init text) (Parser.grid st)).
    + exists st'. split_and!; [done | done | congruence].
Qed.

(** * Extraction *)

Lemma chairs_total_pos c : chairs_nonneg c -> (0 <? chairs_total c) = has_chairs c.
Proof.
  intros H. pose proof (H ChW). pose proof (H ChP). pose proof (H ChS). pose proof (H ChC).
  unfold has_chairs, chairs_total, CHAIR_TYPES. simpl in *.
  destruct (0 <? 0 + cW c + cP c + cS c + cC c) eqn:Hlt; symmetry.
  - apply bool_decide_eq_true. apply Z.ltb_lt in Hlt.
    rewrite !Exists_cons, Exists_nil. simpl. lia.
  - apply bool_decide_eq_false. apply Z.ltb_ge in Hlt.
    rewrite !Exists_cons, Exists_nil. simpl. lia.
Qed.

Lemma compressed_root_lookup_rev h h' l r' :
  compressed h h' -> h' !! l = Some r' -> Room.merged_into r' = None -> h !! l = Some r'.
Proof.
  intros Hc Hl' Hm'. pose proof (lookup_lt_Some _ _ _ Hl') as Hlt.
  rewrite (compressed_length _ _ Hc) in Hlt.
  destruct (lookup_lt_is_Some_2 _ _ Hlt) as [r Hl]. destruct Hc as [_ Hc].
  destruct (Hc _ _ Hl) as (r'' & Hl'' & Hd & Hlink).
  assert (r'' = r') as -> by congruence. rewrite Hl. f_equal. symmetry.
  apply same_data_eq; [done |]. destruct Hlink as [? | (? & _ & ? & _)]; congruence.
Qed.

Lemma foldl_concat {A B} (f : A -> B -> A) (a : A) (rows : list (list B)) :
  foldl (fun a row => foldl f a row) a rows = foldl f a (concat rows).
Proof.
  revert a. induction rows as [|row rows IH]; intros a; simpl; [done |].
  by rewrite foldl_app, IH.
Qed.

Lemma extract_cell_spec h D e l :
  heap_ok h -> extracted h D e -> (l < length h)%nat ->
  exists e' root, Grid.extract_cell e (Some l) = Some e' /\ resolves h l root /\
                  extracted h (distinct_step D root) e'.
Proof.
  intros Hok (Hc & Hseen & Hrooms & Herr) Hl.
  pose proof (compressed_heap_ok _ _ Hok Hc) as Hok1.
  assert (l < length (Grid.ex_heap e))%nat as Hl1 by (by rewrite (compressed_length _ _ Hc)).
  destruct (final_heap_ok _ _ Hok1 Hl1)
    as (h2 & root & r & Hfin & Hr & Hc2 & Hok2 & Hroot1 & Hroot2 & Hm).
  assert (resolves h l root) as Hres.
  { eapply compressed_resolves_rev; [apply Hok | done | done]. }
  assert (h !! root = Some r) as Hroot by (by eapply compressed_root_lookup_rev).
  assert (compressed h h2) as Hc' by (eapply compressed_trans; [apply Hok | done | done]).
  destruct (proj2 Hok _ _ Hroot) as [Hid Hnn].
  assert (Room.id r ∈ Grid.seen_ids e <-> root ∈ D) as Hin.
  { rewrite Hseen, elem_of_list_to_set, list_elem_of_fmap. split.
    - intros (l' & Heq & Hl'). assert (l' = root) as -> by lia. done.
    - intros HD. exists root. done. }
  exists (match Grid.extract_cell e (Some l) with Some e' => e' | None => e end), root.
  simpl. rewrite Hfin. simpl. rewrite Hroot2. simpl. unfold distinct_step.
  case_bool_decide as Hseen'; simpl.
  - rewrite bool_decide_eq_false_2 by (by rewrite <- Hin).
    assert (list_to_set ((fun l => Z.of_nat l + 1) <$> (D ++ [root])) =
            Grid.seen_ids e ∪ ({[ Room.id r ]} : gset Z)) as Hseen2.
    { rewrite fmap_app, list_to_set_app_L, Hseen, Hid. simpl. by rewrite union_empty_r_L. }
    destruct (Room.name r) as [n|] eqn:Hname.
    + split_and!; try done. split_and!; simpl; try done.
      * rewrite filter_app, filter_cons_True, filter_nil; [by rewrite Hrooms |].
        unfold is_named. rewrite Hroot, Hname. by apply bool_decide_pack.
      * rewrite filter_app, filter_cons_False, filter_nil, app_nil_r; [done |].
        unfold is_anomaly. rewrite Hroot, Hname. simpl. by intros [].
    + rewrite (chairs_total_pos _ Hnn).
      assert (filter (is_named h) (D ++ [root]) = filter (is_named h) D) as Hnamed.
      { rewrite filter_app, filter_cons_False, filter_nil, app_nil_r; [done |].
        unfold is_named. rewrite Hroot, Hname. rewrite bool_decide_eq_false_2; [by intros [] | by intros []]. }
      destruct (has_chairs (Room.chairs r)) eqn:Hhas.
      * split_and!; try done. split_and!; simpl; try done; [congruence |].
        rewrite filter_app, filter_cons_True, filter_nil, fmap_app; simpl.
        -- unfold warning_of at 2. by rewrite Hroot, Herr.
        -- unfold is_anomaly. rewrite Hroot, Hname, Hhas. done.
      * split_and!; try done. split_and!; simpl; try done; [congruence |].
        rewrite filter_app, filter_cons_False, filter_nil, app_nil_r; [done |].
        unfold is_anomaly. rewrite Hroot, Hname, Hhas. by intros [].
  - rewrite bool_decide_eq_true_2 by (apply Hin; by destruct (decide (Room.id r ∈ Grid.seen_ids e))).
    split_and!; try done.
Qed.

Local Arguments Grid.extract_cell : simpl never.

Lemma extract_cells_spec h cs :
  heap_ok h ->
  Forall (fun c : option loc => forall l, c = Some l -> (l < length h)%nat) cs ->
  forall D e, extracted h D e ->
  exists e' roots,
    foldl (fun oe cell => e ← oe; Grid.extract_cell e cell) (Some e) cs = Some e' /\
    Forall2 (resolves h) (omap id cs) roots /\
    extracted h (foldl distinct_step D roots) e'.
Proof.
  intros Hok Hcs. induction Hcs as [|c cs Hc Hcs IH]; intros D e He.
  - exists e, []. split_and!; [done | constructor | done].
  - destruct c as [l|].
    + destruct (extract_cell_spec _ _ _ l Hok He (Hc _ eq_refl)) as (e1 & root & Hcell & Hres & He1).
      destruct (IH _ _ He1) as (e' & roots & Hfold & Hroots & He').
      exists e', (root :: roots). simpl. rewrite Hcell. simpl.
      split_and!; [done | by constructor | done].
    + destruct (IH _ _ He) as (e' & roots & Hfold & Hroots & He').
      exists e', roots. simpl. done.
Qed.

Lemma Forall_concat {A} (P : A -> Prop) (rows : list (list A)) :
  Forall (Forall P) rows -> Forall P (concat rows).
Proof. induction 1; simpl; [constructor | by apply Forall_app]. Qed.

Lemma extract_unique_rooms_spec h g :
  heap_ok h -> cells_ok (length h) g ->
  exists e roots,
    Grid.extract_unique_rooms h g = Some e /\
    Forall2 (resolves h) (cell_rooms g) roots /\
    extracted h (distinct roots) e.
Proof.
  intros Hok [_ Hrows]. unfold Grid.extract_unique_rooms, Grid.extract_row.
  rewrite (foldl_concat (fun oe cell => e ← oe; Grid.extract_cell e cell)).
  apply extract_cells_spec; [done | |].
  - apply Forall_concat, Forall_forall. intros row [j Hj]%list_elem_of_lookup.
    apply Forall_forall. intros c [i Hi]%list_elem_of_lookup l ->.
    destruct (Hrows _ _ Hj) as [_ Hcells]. by eapply Hcells.
  - split_and!; simpl; [apply compressed_refl | done | done | done].
Qed.

(** ** Properties of [distinct] *)

Lemma distinct_step_fold D ls :
  (forall x, x ∈ foldl distinct_step D ls <-> x ∈ D \/ x ∈ ls) /\
  (NoDup D -> NoDup (foldl distinct_step D ls)).
Proof.
  revert D. induction ls as [|l ls IH]; intros D; simpl.
  - split; [| done]. intros x. rewrite elem_of_nil. tauto.
  - destruct (IH (distinct_step D l)) as [Hin Hnd]. unfold distinct_step in *.
    case_bool_decide as Hl.
    + split; [| done]. intros x. rewrite Hin, elem_of_cons.
      split; [tauto |]. intros [? | [-> | ?]]; tauto.
    + split.
      * intros x. rewrite Hin, elem_of_app, list_elem_of_singleton, elem_of_cons. tauto.
      * intros HD. apply Hnd. apply NoDup_app. split_and!; [done | | apply NoDup_singleton].
        intros x Hx ->%list_elem_of_singleton. done.
Qed.

Lemma elem_of_distinct ls x : x ∈ distinct ls <-> x ∈ ls.
Proof.
  unfold distinct. destruct (distinct_step_fold [] ls) as [Hin _].
  rewrite Hin, elem_of_nil. tauto.
Qed.

Lemma NoDup_distinct ls : NoDup (distinct ls).
Proof. apply distinct_step_fold. constructor. Qed.

(** * The formatter *)

Lemma string_app_assoc (s1 s2 s3 : string) : (s1 +:+ s2) +:+ s3 = s1 +:+ (s2 +:+ s3).
Proof.
  induction s1 as [|a s1 IH]; [done |].
  change (String a ((s1 +:+ s2) +:+ s3) = String a (s1 +:+ (s2 +:+ s3))). by rewrite IH.
Qed.

Lemma string_app_nil_r (s : string) : s +:+ "" = s.
Proof.
  induction s as [|a s IH]; [done |].
  change (String a (s +:+ "") = String a s). by rewrite IH.
Qed.

Lemma totals_loop_get totals rooms t :
  chair_get (totals_loop totals rooms) t = chair_get totals t + total_of rooms t.
Proof.
  revert totals. induction rooms as [|r rooms IH]; intros totals; simpl; [lia |].
  unfold totals_loop in *. simpl. rewrite IH. destruct t; simpl; lia.
Qed.

Lemma join_lines l lines :
  Formatter.join Formatter.newline (l :: lines) +:+ Formatter.newline =
  foldr (fun l s => l +:+ Formatter.newline +:+ s) "" (l :: lines).
Proof.
  revert l. induction lines as [|l' lines IH]; intros l.
  - simpl. by rewrite string_app_nil_r.
  - change (Formatter.join Formatter.newline (l :: l' :: lines))
      with (l +:+ Formatter.newline +:+ Formatter.join Formatter.newline (l' :: lines)).
    rewrite !string_app_assoc, IH. done.
Qed.

Lemma lines_loop lines rooms :
  foldl (fun lines room =>
           (lines ++ [Formatter.name_text room +:+ ":"])
             ++ [Formatter.format_chair_line (Room.chairs room)])
        lines rooms =
  lines ++ flat_map (fun room => [Formatter.name_text room +:+ ":";
                                  Formatter.format_chair_line (Room.chairs room)]) rooms.
Proof.
  revert lines. induction rooms as [|r rooms IH]; intros lines; simpl.
  - by rewrite app_nil_r.
  - rewrite IH. by rewrite <- !app_assoc.
Qed.

Lemma format_output_blocks rooms :
  Formatter.format_output rooms =
  "total:" +:+ Formatter.newline
    +:+ Formatter.format_chair_line (totals_loop no_chairs rooms) +:+ Formatter.newline
    +:+ blocks (Formatter.sorted rooms).
Proof.
  unfold Formatter.format_output. fold (totals_loop no_chairs rooms).
  rewrite lines_loop. cbn [app]. rewrite join_lines. cbn [foldr].
  do 4 f_equal.
  induction (Formatter.sorted rooms) as [|r rs IH]; [done |].
  cbn [flat_map app foldr blocks]. fold (blocks rs). rewrite IH. unfold room_block.
  by rewrite !string_app_assoc.
Qed.

Lemma format_chair_line_eq c :
  Formatter.format_chair_line c =
  "W: " +:+ pretty (cW c) +:+ ", " +:+ "P: " +:+ pretty (cP c) +:+ ", "
    +:+ "S: " +:+ pretty (cS c) +:+ ", " +:+ "C: " +:+ pretty (cC c).
Proof. unfold Formatter.format_chair_line. simpl. by rewrite !string_app_assoc. Qed.

(** ** [sorted] *)

Lemma leb_refl s : String.leb s s = true.
Proof. by destruct (String.leb_total s s). Qed.

Lemma leb_empty_l s : String.leb "" s = true.
Proof. by destruct s. Qed.

Lemma leb_empty_r s : s <> "" -> String.leb s "" = false.
Proof. by destruct s. Qed.

Lemma insert_by_Permutation r l : Formatter.insert_by r l ≡ₚ r :: l.
Proof.
  induction l as [|r' l IH]; simpl; [done |].
  destruct (String.leb _ _); [done |]. rewrite IH. apply Permutation_swap.
Qed.

Lemma sorted_Permutation rooms : Formatter.sorted rooms ≡ₚ rooms.
Proof.
  induction rooms as [|r rooms IH]; simpl; [done |].
  by rewrite insert_by_Permutation, IH.
Qed.

Lemma insert_by_Sorted r l : Sorted key_le l -> Sorted key_le (Formatter.insert_by r l).
Proof.
  induction 1 as [|r' l Hl IH Hhd]; simpl; [by repeat constructor |].
  destruct (String.leb (Formatter.sort_key r) (Formatter.sort_key r')) eqn:Hle.
  - constructor; [by constructor | by constructor].
  - constructor; [done |].
    assert (key_le r' r) as Hr'.
    { unfold key_le. destruct (String.leb_total (Formatter.sort_key r) (Formatter.sort_key r')); congruence. }
    destruct l as [|r'' l]; simpl in *; [by constructor |].
    destruct (String.leb (Formatter.sort_key r) (Formatter.sort_key r'')); constructor; [done |].
    by inversion Hhd.
Qed.

Lemma sorted_Sorted rooms : Sorted key_le (Formatter.sorted rooms).
Proof.
  induction rooms as [|r rooms IH]; simpl; [constructor | by apply insert_by_Sorted].
Qed.

Lemma insert_by_filter k r l :
  filter (fun r' => Formatter.sort_key r' = k) (Formatter.insert_by r l) =
  filter (fun r' => Formatter.sort_key r' = k) (r :: l).
Proof.
  induction l as [|r' l IH]; simpl; [done |].
  destruct (String.leb (Formatter.sort_key r) (Formatter.sort_key r')) eqn:Hle; [done |].
  rewrite filter_cons, IH, !filter_cons.
  destruct (decide (Formatter.sort_key r' = k)) as [Hr' | Hr']; [| done].
  destruct (decide (Formatter.sort_key r = k)) as [Hr | Hr]; [| done].
  rewrite Hr, Hr', leb_refl in Hle. done.
Qed.

(** The sort is stable: rooms of one key keep their order. *)
Lemma sorted_stable k rooms :
  filter (fun r => Formatter.sort_key r = k) (Formatter.sorted rooms) =
  filter (fun r => Formatter.sort_key r = k) rooms.
Proof.
  induction rooms as [|r rooms IH]; simpl; [done |].
  by rewrite insert_by_filter, !filter_cons, IH.
Qed.

Lemma insert_by_empty_key r l :
  Formatter.sort_key r = "" -> Formatter.insert_by r l = r :: l.
Proof. intros Hr. destruct l as [|r' l]; simpl; [done |]. by rewrite Hr, leb_empty_l. Qed.

Lemma insert_by_after_empty r l1 l2 :
  Formatter.sort_key r <> "" -> Forall (fun r' => Formatter.sort_key r' = "") l1 ->
  Formatter.insert_by r (l1 ++ l2) = l1 ++ Formatter.insert_by r l2.
Proof.
  intros Hr. induction 1 as [|r' l1 Hr' _ IH]; simpl; [done |].
  by rewrite Hr', leb_empty_r, IH.
Qed.

(** Rooms whose key is the empty string come first, in their order. *)
Lemma sorted_empty_first rooms :
  Formatter.sorted rooms =
  filter (fun r => Formatter.sort_key r = "") rooms ++
  Formatter.sorted (filter (fun r => Formatter.sort_key r <> "") rooms).
Proof.
  induction rooms as [|r rooms IH]; simpl; [done |].
  rewrite !filter_cons, IH.
  destruct (decide (Formatter.sort_key r = "")) as [Hr | Hr].
  - rewrite decide_False by (by intros []). by rewrite insert_by_empty_key.
  - rewrite decide_True by done. simpl. apply insert_by_after_empty; [done |].
    apply Forall_forall. by intros r' [? _]%list_elem_of_filter.
Qed.

(** A store in which every call of [final] comes back is a forest. *)
Lemma forest_by_final h :
  Forall (fun l => is_Some (RoomOps.final h l)) (seq 0 (length h)) -> forest h.
Proof.
  intros Hall l Hl. rewrite Forall_forall in Hall.
  destruct (Hall l) as [[h' root] Hfin]; [apply elem_of_seq; lia |].
  exists root. by eapply final_rec_sound.
Qed.

(** * The claims about [Room] *)

(** C1 (the code departs from the claim).  [merge_with] tests the two
    names for truth, and the empty string is false: an unnamed survivor does
    not adopt the assigned name [""] of the absorbed root, and a survivor
    whose assigned name is [""] gives it up for the name of the absorbed
    root.  Seen from [parse]: a region labelled [()] that is absorbed by an
    unnamed region above is not returned, one labelled [(a)] is. *)
Theorem merge_with_empty_name :
  (exists h' r,
     RoomOps.merge_with [Room.init 1; Room.set_name (Some "") (Room.init 2)] 0 1
       = Some (h', 0%nat) /\
     h' !! 0%nat = Some r /\ Room.name r = None) /\
  (exists h' r,
     RoomOps.merge_with [Room.set_name (Some "") (Room.init 1);
                         Room.set_name (Some "kitchen") (Room.init 2)] 0 1
       = Some (h', 0%nat) /\
     h' !! 0%nat = Some r /\ Room.name r = Some "kitchen") /\
  Parser.parsed_rooms ("-- " +:+ Formatter.newline +:+ "() ") = Some [] /\
  Parser.parsed_rooms ("--- " +:+ Formatter.newline +:+ "(a) ")
    = Some [Room.set_name (Some "a") (Room.init 1)].
Proof.
  split_and!.
  - eexists _, _. split_and!; [vm_compute; reflexivity | reflexivity | reflexivity].
  - eexists _, _. split_and!; [vm_compute; reflexivity | reflexivity | reflexivity].
  - vm_compute. reflexivity.
  - vm_compute. reflexivity.
Qed.

(** C3.  On two distinct roots with tallies [T1] and [T2], [merge_with]
    returns the first one, points the second one at it, and leaves on the
    survivor the elementwise sum [T1 + T2]; calls of [final] on any rooms,
    before and after, come back and leave the tallies as they are. *)
Theorem union_sums_tallies (h : heap) (a b : loc) (ra rb : Room.t)
    (before after : list loc) :
  forest h -> a <> b ->
  h !! a = Some ra -> h !! b = Some rb ->
  Room.merged_into ra = None -> Room.merged_into rb = None ->
  Forall (fun l => (l < length h)%nat) before ->
  Forall (fun l => (l < length h)%nat) after ->
  exists h1 h2 h3 sa sb sa',
    finals h before = Some h1 /\
    RoomOps.merge_with h1 a b = Some (h2, a) /\
    finals h2 after = Some h3 /\
    h2 !! a = Some sa /\ h2 !! b = Some sb /\ h3 !! a = Some sa' /\
    Room.merged_into sa = None /\ Room.merged_into sb = Some a /\
    Room.chairs sa = chairs_sum (Room.chairs ra) (Room.chairs rb) /\
    Room.chairs sa' = chairs_sum (Room.chairs ra) (Room.chairs rb) /\
    (forall t, chair_get (Room.chairs sa') t =
               chair_get (Room.chairs ra) t + chair_get (Room.chairs rb) t) /\
    resolves h3 b a.
Proof.
  intros Hf Hne Ha Hb Hra Hrb Hbefore Hafter.
  destruct (finals_spec _ _ Hf Hbefore) as (h1 & Hfins1 & Hc1).
  pose proof (compressed_root_lookup _ _ _ _ Hc1 Ha Hra) as Ha1.
  pose proof (compressed_root_lookup _ _ _ _ Hc1 Hb Hrb) as Hb1.
  pose proof (compressed_forest _ _ Hc1 Hf) as Hf1.
  assert (forest (merged_heap h1 a b ra rb)) as Hf2 by (by apply merged_heap_forest).
  destruct (finals_spec (merged_heap h1 a b ra rb) after Hf2) as (h3 & Hfins3 & Hc3).
  { rewrite merged_heap_length. by rewrite (compressed_length _ _ Hc1). }
  assert (merged_heap h1 a b ra rb !! a = Some (merged_room ra rb)) as Ha2
    by (by apply merged_heap_survivor).
  assert (merged_heap h1 a b ra rb !! b = Some (Room.set_merged_into (Some a) rb)) as Hb2
    by (by apply merged_heap_absorbed).
  exists h1, (merged_heap h1 a b ra rb), h3, (merged_room ra rb),
    (Room.set_merged_into (Some a) rb), (merged_room ra rb).
  split_and!; try done.
  - by apply merge_with_eq.
  - by eapply compressed_root_lookup.
  - intros t. simpl. apply chair_get_sum.
  - eapply compressed_resolves; [done |]. exists 1%nat.
    econstructor; [done | done |]. by econstructor.
Qed.

Lemma union_sums_tallies_witness :
  exists h1 h2 h3 sa sb sa',
    finals [Room.set_chairs (mkChairs 2 0 1 0) (Room.init 1);
            Room.set_chairs (mkChairs 1 3 0 0) (Room.init 2)] [1; 0; 1]%nat = Some h1 /\
    RoomOps.merge_with h1 0 1 = Some (h2, 0%nat) /\
    finals h2 [1; 1; 0]%nat = Some h3 /\
    h2 !! 0%nat = Some sa /\ h2 !! 1%nat = Some sb /\ h3 !! 0%nat = Some sa' /\
    Room.merged_into sa = None /\ Room.merged_into sb = Some 0%nat /\
    Room.chairs sa = chairs_sum (mkChairs 2 0 1 0) (mkChairs 1 3 0 0) /\
    Room.chairs sa' = chairs_sum (mkChairs 2 0 1 0) (mkChairs 1 3 0 0) /\
    (forall t, chair_get (Room.chairs sa') t =
               chair_get (mkChairs 2 0 1 0) t + chair_get (mkChairs 1 3 0 0) t) /\
    resolves h3 1 0.
Proof.
  apply (union_sums_tallies
           [Room.set_chairs (mkChairs 2 0 1 0) (Room.init 1);
            Room.set_chairs (mkChairs 1 3 0 0) (Room.init 2)]
           0 1 (Room.set_chairs (mkChairs 2 0 1 0) (Room.init 1))
           (Room.set_chairs (mkChairs 1 3 0 0) (Room.init 2))
           [1; 0; 1]%nat [1; 1; 0]%nat); try reflexivity.
  - apply forest_by_final. repeat constructor; eexists; vm_compute; reflexivity.
  - lia.
  - repeat constructor; simpl; lia.
  - repeat constructor; simpl; lia.
Defined.

(** C5.  In a forest, [final] comes back with a root, [final] of that
    root is the root again (and changes nothing), so
    [find(find(r)) == find(r)]; on a room that is a root already, [final]
    returns the room itself and leaves the store as it is. *)
Theorem final_idempotent (h : heap) (l : loc) :
  forest h -> (l < length h)%nat ->
  exists h1 root,
    RoomOps.final h l = Some (h1, root) /\
    RoomOps.final h1 root = Some (h1, root) /\
    (exists h2, RoomOps.final h1 l = Some (h2, root)) /\
    (is_root h l -> root = l /\ h1 = h).
Proof.
  intros Hf Hl. destruct (final_forest _ _ Hf Hl) as (h1 & root & Hfin & Hr & Hc).
  exists h1, root. split_and!; [done | | |].
  - apply final_root. eapply compressed_is_root; [done |]. by eapply resolves_is_root.
  - destruct (final_resolves h1 l root) as (h2 & ? & _); [by eapply compressed_resolves |].
    by exists h2.
  - intros Hroot. rewrite (final_root _ _ Hroot) in Hfin. by injection Hfin as <- <-.
Qed.

Lemma final_idempotent_witness :
  exists h1 root,
    RoomOps.final [Room.init 1; Room.set_merged_into (Some 0%nat) (Room.init 2);
                   Room.set_merged_into (Some 1%nat) (Room.init 3)] 2 = Some (h1, root) /\
    RoomOps.final h1 root = Some (h1, root) /\
    (exists h2, RoomOps.final h1 2 = Some (h2, root)) /\
    (is_root [Room.init 1; Room.set_merged_into (Some 0%nat) (Room.init 2);
              Room.set_merged_into (Some 1%nat) (Room.init 3)] 2 ->
     root = 2%nat /\
     h1 = [Room.init 1; Room.set_merged_into (Some 0%nat) (Room.init 2);
           Room.set_merged_into (Some 1%nat) (Room.init 3)]).
Proof.
  apply (final_idempotent
           [Room.init 1; Room.set_merged_into (Some 0%nat) (Room.init 2);
            Room.set_merged_into (Some 1%nat) (Room.init 3)] 2).
  - apply forest_by_final. repeat constructor; eexists; vm_compute; reflexivity.
  - simpl. lia.
Defined.

Lemma final_rec_off_path fuel h l h' root :
  RoomOps.final_rec fuel h l = Some (h', root) ->
  forall x, ~ reaches h l x -> h' !! x = h !! x.
Proof.
  revert h l h' root. induction fuel as [|fuel IH]; intros h l h' root; [done |].
  simpl. destruct (h !! l) as [r|] eqn:Hl; [simpl | done].
  destruct (Room.merged_into r) as [p|] eqn:Hm; [| by intros [= <- <-]].
  destruct (RoomOps.final_rec fuel h p) as [[h1 root1]|] eqn:Hfin; [simpl | done].
  unfold update. destruct (h1 !! l) as [r1|] eqn:Hl1; [simpl | done].
  destruct (<[l:=Room.set_merged_into (Some root1) r1]> h1 !! l) as [r2|]; [simpl | done].
  destruct (Room.merged_into r2); [simpl | done]. intros [= <- <-] x Hx.
  assert (x <> l) as Hne by (intros ->; apply Hx; constructor).
  rewrite list_lookup_insert_ne by done. eapply IH; [done |].
  intros Hpx. apply Hx. by econstructor.
Qed.

(** C6.  After [b.merge_with(c)] and [a.merge_with(b)] on three distinct
    roots, [c.final()] and then [b.final()] both return [a]; the first call
    leaves [c] and [b] pointing directly at [a].  And whatever room [final]
    is called on, in whatever store, when it comes back: it returns the
    root of that room; every room visited on the way that was not a root
    points directly at that root afterwards, its other fields as they
    were; the rooms not visited and the roots are left as they were; and
    every room that had a root before has the same root afterwards. *)
Theorem chain_resolves_to_top (h : heap) (a b c : loc) (ra rb rc : Room.t) :
  a <> b -> a <> c -> b <> c ->
  h !! a = Some ra -> h !! b = Some rb -> h !! c = Some rc ->
  Room.merged_into ra = None -> Room.merged_into rb = None ->
  Room.merged_into rc = None ->
  (exists h1 h2 h3 h4 sc sc' sb',
     RoomOps.merge_with h b c = Some (h1, b) /\
     RoomOps.merge_with h1 a b = Some (h2, a) /\
     RoomOps.final h2 c = Some (h3, a) /\
     RoomOps.final h3 b = Some (h4, a) /\
     h2 !! c = Some sc /\ Room.merged_into sc = Some b /\
     h3 !! c = Some sc' /\ Room.merged_into sc' = Some a /\
     h3 !! b = Some sb' /\ Room.merged_into sb' = Some a /\
     is_root h4 a) /\
  (forall (h0 h0' : heap) (l0 r0 : loc),
     RoomOps.final h0 l0 = Some (h0', r0) ->
     resolves h0 l0 r0 /\ is_root h0' r0 /\
     (forall x r, reaches h0 l0 x -> h0 !! x = Some r -> Room.merged_into r <> None ->
        exists r', h0' !! x = Some r' /\ Room.merged_into r' = Some r0 /\ same_data r r') /\
     (forall x, ~ reaches h0 l0 x -> h0' !! x = h0 !! x) /\
     (forall x r, h0 !! x = Some r -> Room.merged_into r = None -> h0' !! x = Some r) /\
     (forall x root, resolves h0 x root -> resolves h0' x root)).
Proof.
  intros Hab Hac Hbc Ha Hb Hc Hra Hrb Hrc. split.
  - set (h1 := merged_heap h b c rb rc).
    assert (h1 !! a = Some ra) as Ha1 by (unfold h1; by rewrite merged_heap_other).
    assert (h1 !! b = Some (merged_room rb rc)) as Hb1 by (by apply merged_heap_survivor).
    assert (h1 !! c = Some (Room.set_merged_into (Some b) rc)) as Hc1
      by (by apply merged_heap_absorbed).
    set (h2 := merged_heap h1 a b ra (merged_room rb rc)).
    assert (h2 !! a = Some (merged_room ra (merged_room rb rc))) as Ha2
      by (by apply merged_heap_survivor).
    assert (h2 !! b = Some (Room.set_merged_into (Some a) (merged_room rb rc))) as Hb2
      by (by apply merged_heap_absorbed).
    assert (h2 !! c = Some (Room.set_merged_into (Some b) rc)) as Hc2
      by (unfold h2; by rewrite merged_heap_other).
    assert (resolves h2 c a) as Hres.
    { exists 2%nat. econstructor; [exact Hc2 | done |].
      econstructor; [exact Hb2 | done |]. by econstructor. }
    destruct (final_resolves _ _ _ Hres) as (h3 & Hfin3 & Hc3 & Hvis).
    destruct (Hvis c _ (reaches_here _ _) Hc2 ltac:(done)) as (sc' & Hsc' & Hmc').
    destruct (Hvis b (Room.set_merged_into (Some a) (merged_room rb rc)))
      as (sb' & Hsb' & Hmb'); [| done | done |].
    { econstructor; [exact Hc2 | done | constructor]. }
    assert (resolves h3 b a) as Hres3.
    { eapply compressed_resolves; [done |]. exists 1%nat.
      econstructor; [exact Hb2 | done |]. by econstructor. }
    destruct (final_resolves _ _ _ Hres3) as (h4 & Hfin4 & Hc4 & _).
    exists h1, h2, h3, h4, (Room.set_merged_into (Some b) rc), sc', sb'.
    split_and!; try done.
    + by apply merge_with_eq.
    + by apply merge_with_eq.
    + eapply compressed_is_root; [done |]. eapply compressed_is_root; [done |]. by eexists.
  - intros h0 h0' l0 r0 Hfin.
    destruct (final_inv _ _ _ _ Hfin) as (Hres & Hc0 & Hvis). split_and!.
    + done.
    + eapply compressed_is_root; [done |]. by eapply resolves_is_root.
    + intros x r Hx Hr Hm. destruct (Hvis x r Hx Hr Hm) as (r' & Hr' & Hm').
      exists r'. split_and!; [done | done |]. destruct Hc0 as [_ Hc0].
      destruct (Hc0 _ _ Hr) as (r'' & Hr'' & Hsame & _). congruence.
    + by eapply final_rec_off_path.
    + intros x r Hr Hm. by eapply compressed_root_lookup.
    + intros x root Hx. by eapply compressed_resolves.
Qed.

Lemma chain_resolves_to_top_witness :
  (exists h1 h2 h3 h4 sc sc' sb',
     RoomOps.merge_with [Room.init 1; Room.init 2; Room.init 3] 1 2 = Some (h1, 1%nat) /\
     RoomOps.merge_with h1 0 1 = Some (h2, 0%nat) /\
     RoomOps.final h2 2 = Some (h3, 0%nat) /\
     RoomOps.final h3 1 = Some (h4, 0%nat) /\
     h2 !! 2%nat = Some sc /\ Room.merged_into sc = Some 1%nat /\
     h3 !! 2%nat = Some sc' /\ Room.merged_into sc' = Some 0%nat /\
     h3 !! 1%nat = Some sb' /\ Room.merged_into sb' = Some 0%nat /\
     is_root h4 0) /\
  (exists r2 r3,
     [Room.init 1; Room.set_merged_into (Some 0%nat) (Room.init 2);
      Room.set_merged_into (Some 0%nat) (Room.init 3);
      Room.set_merged_into (Some 0%nat) (Room.init 4)] !! 2%nat = Some r2 /\
     Room.merged_into r2 = Some 0%nat /\
     [Room.init 1; Room.set_merged_into (Some 0%nat) (Room.init 2);
      Room.set_merged_into (Some 0%nat) (Room.init 3);
      Room.set_merged_into (Some 0%nat) (Room.init 4)] !! 3%nat = Some r3 /\
     Room.merged_into r3 = Some 0%nat).
Proof.
  destruct (chain_resolves_to_top [Room.init 1; Room.init 2; Room.init 3] 0 1 2
              (Room.init 1) (Room.init 2) (Room.init 3)) as [Hchain Hgen];
    try (lia || reflexivity).
  split; [exact Hchain |].
  destruct (Hgen [Room.init 1; Room.set_merged_into (Some 0%nat) (Room.init 2);
                  Room.set_merged_into (Some 1%nat) (Room.init 3);
                  Room.set_merged_into (Some 2%nat) (Room.init 4)]
                 [Room.init 1; Room.set_merged_into (Some 0%nat) (Room.init 2);
                  Room.set_merged_into (Some 0%nat) (Room.init 3);
                  Room.set_merged_into (Some 0%nat) (Room.init 4)]
                 3%nat 0%nat eq_refl) as (_ & _ & Hvis & _).
  destruct (Hvis 2%nat (Room.set_merged_into (Some 1%nat) (Room.init 3)))
    as (r2 & Hr2 & Hm2 & _); [| reflexivity | done |].
  { econstructor; [reflexivity | reflexivity | constructor]. }
  destruct (Hvis 3%nat (Room.set_merged_into (Some 2%nat) (Room.init 4)))
    as (r3 & Hr3 & Hm3 & _); [constructor | reflexivity | done |].
  by exists r2, r3.
Defined.

(** * The claims about [parse] *)

(** Under the guards of [get_char] and [get_room] the subscripts are in
    range: the fall-back branches of the embedding are not taken. *)
Lemma string_get_in_range (line : string) (n : nat) :
  (n < String.length line)%nat -> is_Some (String.get n line).
Proof.
  revert n. induction line as [|c line IH]; intros n Hn; simpl in *; [lia |].
  destruct n as [|n]; [by eexists |]. apply IH. lia.
Qed.

Lemma get_char_subscripts g x y :
  0 <= y < Grid.height g ->
  exists line, Grid.lines g !! Z.to_nat y = Some line /\
    (0 <= x < len line -> is_Some (String.get (Z.to_nat x) line)).
Proof.
  intros Hy. unfold Grid.height in Hy.
  destruct (lookup_lt_is_Some_2 (Grid.lines g) (Z.to_nat y) ltac:(lia)) as [line Hline].
  exists line. split; [done |]. intros Hx. apply string_get_in_range. unfold len in Hx. lia.
Qed.

Lemma get_room_subscripts n g x y :
  cells_ok n g -> 0 <= y < Grid.height g -> 0 <= x < Grid.width g ->
  exists row, Grid.cells g !! Z.to_nat y = Some row /\ is_Some (row !! Z.to_nat x).
Proof.
  intros [Hlen Hrows] Hy Hx.
  destruct (lookup_lt_is_Some_2 (Grid.cells g) (Z.to_nat y) ltac:(lia)) as [row Hrow].
  exists row. split; [done |]. apply lookup_lt_is_Some_2.
  destruct (Hrows _ _ Hrow) as [-> _]. lia.
Qed.

Lemma range_nil : range 0 = [].
Proof. done. Qed.

(** [parse] is the scan followed by the extraction, also on a grid with
    no line, which the scan leaves without cells. *)
Lemma parse_scan text :
  Parser.parse text =
  Parser.scan text ≫= fun st =>
    Grid.extract_unique_rooms (Parser.st_heap st) (Parser.grid st).
Proof.
  unfold Parser.parse, Parser.scan.
  destruct (Grid.height (Grid.init text) =? 0) eqn:Hh; [| done].
  apply Z.eqb_eq in Hh. rewrite Hh, range_nil. simpl.
  unfold Grid.extract_unique_rooms. simpl.
  change (Grid.height {| Grid.lines := splitlines text; Grid.cells := [] |})
    with (Grid.height (Grid.init text)).
  by rewrite Hh.
Qed.

Lemma parse_spec text :
  exists st e roots,
    Parser.scan text = Some st /\ state_ok st /\ Parser.parse text = Some e /\
    Forall2 (resolves (Parser.st_heap st)) (cell_rooms (Parser.grid st)) roots /\
    extracted (Parser.st_heap st) (distinct roots) e.
Proof.
  destruct (scan_spec text) as (st & Hscan & Hst & _).
  destruct (extract_unique_rooms_spec (Parser.st_heap st) (Parser.grid st))
    as (e & roots & Hex & Hroots & He); [apply Hst | apply Hst |].
  exists st, e, roots. rewrite parse_scan, Hscan. done.
Qed.

(** C4.  [parse] returns the roots of the rooms of the cells, each once,
    that carry a name; the error stream holds one message for each of
    these distinct roots that has no name and a count that is not zero, and
    such a root is not returned.  The returned list is given by the store
    and the cells alone.  The rooms returned are, in the final store, what
    they were at the end of the scan. *)
Theorem parse_returns_named_roots (text : string) :
  exists st e roots,
    Parser.scan text = Some st /\ Parser.parse text = Some e /\
    Forall2 (resolves (Parser.st_heap st)) (cell_rooms (Parser.grid st)) roots /\
    NoDup (distinct roots) /\ (forall l, l ∈ distinct roots <-> l ∈ roots) /\
    Grid.rooms e = filter (is_named (Parser.st_heap st)) (distinct roots) /\
    Grid.stderr e =
      warning_of (Parser.st_heap st) <$>
        filter (is_anomaly (Parser.st_heap st)) (distinct roots) /\
    (forall l, l ∈ distinct roots -> is_anomaly (Parser.st_heap st) l -> l ∉ Grid.rooms e) /\
    (forall l, l ∈ roots -> Grid.ex_heap e !! l = Parser.st_heap st !! l).
Proof.
  destruct (parse_spec text) as (st & e & roots & Hscan & Hst & Hparse & Hroots & He).
  destruct He as (Hc & _ & Hrooms & Herr).
  exists st, e, roots. split_and!; try done.
  - apply NoDup_distinct.
  - apply elem_of_distinct.
  - intros l _ Han. rewrite Hrooms, list_elem_of_filter. intros [Hnamed _].
    unfold is_anomaly, is_named in *. destruct (Parser.st_heap st !! l) as [r|]; [| done].
    apply andb_prop_elim in Han as [Hnone%bool_decide_unpack _].
    by apply bool_decide_unpack in Hnamed.
  - intros l Hl. apply list_elem_of_lookup in Hl as [i Hi].
    destruct (Forall2_lookup_r _ _ _ _ _ Hroots Hi) as (c & _ & Hres).
    destruct (resolves_is_root _ _ _ Hres) as (r & Hr & Hm).
    rewrite Hr. by eapply compressed_root_lookup.
Qed.

(** With no bound on the recursion of [final], [parse] comes back for
    every input, with a list of rooms of the final store that all carry a
    name: no subscript is out of range and no reference dangles. *)
Lemma parse_returns_unbounded (text : string) :
  (exists e rooms,
     Parser.parse text = Some e /\ Parser.parsed_rooms text = Some rooms /\
     Forall (fun r => Room.name r <> None) rooms) /\
  Parser.parse "" = Some (Grid.mkExtraction [] ∅ [] []).
Proof.
  split; [| done].
  destruct (parse_spec text) as (st & e & roots & Hscan & Hst & Hparse & Hroots & He).
  destruct He as (Hc & _ & Hrooms & _).
  assert (Forall (fun l => exists r, Grid.ex_heap e !! l = Some r /\ Room.name r <> None)
            (Grid.rooms e)) as Hall.
  { rewrite Hrooms. apply Forall_forall. intros l [Hnamed _]%list_elem_of_filter.
    unfold is_named in Hnamed.
    destruct (Parser.st_heap st !! l) as [r|] eqn:Hl; [| done].
    apply bool_decide_unpack in Hnamed. destruct Hc as [_ Hc].
    destruct (Hc _ _ Hl) as (r' & Hl' & (_ & Hn & _) & _).
    exists r'. split; [done | congruence]. }
  assert (exists rooms, mapM (fun l => Grid.ex_heap e !! l) (Grid.rooms e) = Some rooms /\
                        Forall (fun r => Room.name r <> None) rooms) as (rooms & Hmap & Hnamed).
  { clear Hrooms. induction Hall as [|l ls (r & Hl & Hn) _ (rooms & Hrest & Hnamed)].
    - eexists. split; [done | constructor].
    - exists (r :: rooms). simpl. rewrite Hl. simpl. rewrite Hrest. simpl.
      split; [done | by constructor]. }
  exists e, rooms. unfold Parser.parsed_rooms. rewrite Hparse. done.
Qed.

(** * The recursion limit *)

Lemma with_final_scan text : WithFinal.scan RoomOps.final text = Parser.scan text.
Proof. reflexivity. Qed.

Lemma with_final_parse text : WithFinal.parse RoomOps.final text = Parser.parse text.
Proof. reflexivity. Qed.

Lemma final_rec_depth fuel h l h' root :
  RoomOps.final_rec fuel h l = Some (h', root) ->
  exists d, resolves_in h l root d /\ (d < fuel)%nat.
Proof.
  revert l h' root. induction fuel as [|fuel IH]; intros l h' root; [done |]. simpl.
  destruct (h !! l) as [r|] eqn:Hl; [simpl | done].
  destruct (Room.merged_into r) as [p|] eqn:Hm.
  - destruct (RoomOps.final_rec fuel h p) as [[h1 root1]|] eqn:Hfin; [simpl | done].
    destruct (IH _ _ _ Hfin) as (d & Hd & Hlt). intros Hrest.
    unfold update in Hrest.
    destruct (h1 !! l) as [r1|] eqn:Hl1; [simpl in Hrest | done].
    rewrite list_lookup_insert_eq in Hrest by (by eapply lookup_lt_Some).
    simpl in Hrest. injection Hrest as _ <-.
    exists (S d). split; [by econstructor | lia].
  - intros [= <- <-]. exists 0%nat. split; [by econstructor | lia].
Qed.

Lemma final_rec_mono fuel fuel' h l res :
  RoomOps.final_rec fuel h l = Some res -> (fuel <= fuel')%nat ->
  RoomOps.final_rec fuel' h l = Some res.
Proof.
  revert fuel' l res. induction fuel as [|fuel IH]; intros fuel' l res; [done |].
  destruct fuel' as [|fuel']; [lia |]. simpl.
  destruct (h !! l) as [r|]; [simpl | done].
  destruct (Room.merged_into r) as [p|]; [| done].
  destruct (RoomOps.final_rec fuel h p) as [res1|] eqn:Hfin; [simpl | done].
  intros Hrest Hle. by rewrite (IH fuel' p res1 Hfin ltac:(lia)).
Qed.

(** A call of [final] that returns under a bound returns the same without it. *)
Lemma final_rec_final limit h l res :
  RoomOps.final_rec limit h l = Some res -> RoomOps.final h l = Some res.
Proof.
  intros Hfin. destruct res as [h' root].
  destruct (final_rec_depth _ _ _ _ _ Hfin) as (d & Hd & Hlt).
  pose proof (resolves_depth_lt _ _ _ _ Hd) as Hlen.
  destruct (final_rec_spec (S d) h l root d Hd ltac:(lia)) as (h'' & Hfin' & _).
  rewrite (final_rec_mono _ limit _ _ _ Hfin' ltac:(lia)) in Hfin. injection Hfin as <-.
  by apply (final_rec_mono (S d)); [| lia].
Qed.

(** The bound is exact: a chain of [d] links needs [d + 1] nested calls. *)
Lemma final_rec_overflow fuel h l root d :
  resolves_in h l root d -> (fuel <= d)%nat -> RoomOps.final_rec fuel h l = None.
Proof.
  intros Hd Hle. destruct (RoomOps.final_rec fuel h l) as [[h' root']|] eqn:Hfin; [| done].
  destruct (final_rec_depth _ _ _ _ _ Hfin) as (d' & Hd' & Hlt).
  destruct (resolves_in_fun _ _ _ _ _ _ Hd Hd') as [_ ->]. lia.
Qed.

Lemma foldl_bind_none {A B} (f : A -> B -> option A) (l : list B) :
  foldl (fun oa b => a ← oa; f a b) None l = None.
Proof. by induction l. Qed.

Lemma foldl_option_sub {A B} (f g : A -> B -> option A) (l : list B) (oa : option A) (r : A) :
  (forall a b a', f a b = Some a' -> g a b = Some a') ->
  foldl (fun oa b => a ← oa; f a b) oa l = Some r ->
  foldl (fun oa b => a ← oa; g a b) oa l = Some r.
Proof.
  intros Hsub. revert oa. induction l as [|b l IH]; intros oa; [done |]. simpl.
  destruct oa as [a|]; simpl.
  - destruct (f a b) as [a'|] eqn:Hf.
    + rewrite (Hsub _ _ _ Hf). apply IH.
    + by rewrite foldl_bind_none.
  - by rewrite foldl_bind_none.
Qed.

(** A run that comes back with one [final] comes back, with the same
    result, with every [final] that returns at least where that one does. *)
Section with_final_sub.
Context (fin1 fin2 : heap -> loc -> option (heap * loc)).
Hypothesis Hsub : forall h l res, fin1 h l = Some res -> fin2 h l = Some res.

Lemma merge_above_sub h g x y cur h' :
  WithFinal.merge_above fin1 h g x y cur = Some h' ->
  WithFinal.merge_above fin2 h g x y cur = Some h'.
Proof using Hsub.
  unfold WithFinal.merge_above. destruct (Grid.get_connected_room_above g x y); [| done].
  destruct (fin1 h n) as [[h1 fa]|] eqn:H1; [simpl | done]. rewrite (Hsub _ _ _ H1). simpl.
  destruct (fin1 h1 cur) as [[h2 fc]|] eqn:H2; [simpl | done]. by rewrite (Hsub _ _ _ H2).
Qed.

Lemma count_chair_sub h char cur h' :
  WithFinal.count_chair fin1 h char cur = Some h' ->
  WithFinal.count_chair fin2 h char cur = Some h'.
Proof using Hsub.
  unfold WithFinal.count_chair. destruct (chair_of_char char); [| done].
  destruct (fin1 h cur) as [[h1 root]|] eqn:H1; [simpl | done]. by rewrite (Hsub _ _ _ H1).
Qed.

Lemma track_name_sub h char cur buf res :
  WithFinal.track_name fin1 h char cur buf = Some res ->
  WithFinal.track_name fin2 h char cur buf = Some res.
Proof using Hsub.
  unfold WithFinal.track_name. case_bool_decide; [done |]. destruct buf as [b|]; [| done].
  case_bool_decide; [| done].
  destruct (fin1 h cur) as [[h1 root]|] eqn:H1; [simpl | done]. by rewrite (Hsub _ _ _ H1).
Qed.

Lemma scan_cell_sub y st x st' :
  WithFinal.scan_cell fin1 y st x = Some st' -> WithFinal.scan_cell fin2 y st x = Some st'.
Proof using Hsub.
  unfold WithFinal.scan_cell, WithFinal.enter_cell.
  destruct (Grid.is_wall (Parser.grid st) x y); [done |].
  destruct (Parser.open_room st) as [st1 cur].
  destruct (WithFinal.merge_above fin1 _ _ x y cur) as [hm|] eqn:Hm; [simpl | done].
  rewrite (merge_above_sub _ _ _ _ _ _ Hm). simpl.
  destruct (Grid.set_room (Parser.grid st1) x y cur) as [g2|]; [simpl | done].
  destruct (WithFinal.count_chair fin1 hm _ cur) as [hc|] eqn:Hc; [simpl | done].
  rewrite (count_chair_sub _ _ _ _ Hc). simpl.
  destruct (WithFinal.track_name fin1 hc _ cur _) as [res|] eqn:Hn; [simpl | done].
  by rewrite (track_name_sub _ _ _ _ _ Hn).
Qed.

Lemma scan_row_sub st y st' :
  WithFinal.scan_row fin1 st y = Some st' -> WithFinal.scan_row fin2 st y = Some st'.
Proof using Hsub. apply foldl_option_sub. intros a b a'. apply scan_cell_sub. Qed.

Lemma scan_sub text st :
  WithFinal.scan fin1 text = Some st -> WithFinal.scan fin2 text = Some st.
Proof using Hsub. apply foldl_option_sub. intros a b a'. apply scan_row_sub. Qed.

Lemma extract_cell_sub e cell e' :
  WithFinal.extract_cell fin1 e cell = Some e' ->
  WithFinal.extract_cell fin2 e cell = Some e'.
Proof using Hsub.
  unfold WithFinal.extract_cell. destruct cell as [cell|]; [| done].
  destruct (fin1 (Grid.ex_heap e) cell) as [[h room]|] eqn:H1; [simpl | done].
  by rewrite (Hsub _ _ _ H1).
Qed.

Lemma extract_row_sub oe row e' :
  WithFinal.extract_row fin1 oe row = Some e' -> WithFinal.extract_row fin2 oe row = Some e'.
Proof using Hsub. apply foldl_option_sub. intros a b a'. apply extract_cell_sub. Qed.

Lemma extract_unique_rooms_sub h g e :
  WithFinal.extract_unique_rooms fin1 h g = Some e ->
  WithFinal.extract_unique_rooms fin2 h g = Some e.
Proof using Hsub.
  unfold WithFinal.extract_unique_rooms.
  generalize (Some (Grid.mkExtraction h ∅ [] [])). induction (Grid.cells g) as [|row l IH];
    intros oe; [done |]. simpl.
  destruct (WithFinal.extract_row fin1 oe row) as [e1|] eqn:Hrow.
  - rewrite (extract_row_sub _ _ _ Hrow). apply IH.
  - intros Hnone. exfalso. clear -Hnone. induction l as [|row' l IHl]; [done |].
    apply IHl. simpl in Hnone. unfold WithFinal.extract_row in Hnone at 2.
    by rewrite foldl_bind_none in Hnone.
Qed.

Lemma parse_sub text e :
  WithFinal.parse fin1 text = Some e -> WithFinal.parse fin2 text = Some e.
Proof using Hsub.
  unfold WithFinal.parse. destruct (Grid.height (Grid.init text) =? 0); [done |].
  destruct (WithFinal.scan fin1 text) as [st|] eqn:Hscan; [simpl | done].
  rewrite (scan_sub _ _ Hscan). simpl. apply extract_unique_rooms_sub.
Qed.

End with_final_sub.

Lemma limited_parse_mono limit limit' text e :
  Limited.parse limit text = Some e -> (limit <= limit')%nat ->
  Limited.parse limit' text = Some e.
Proof.
  intros Hparse Hle. revert Hparse. apply parse_sub. intros h l res Hfin.
  by apply (final_rec_mono limit).
Qed.

Lemma limited_parse_agrees limit text e :
  Limited.parse limit text = Some e -> Parser.parse text = Some e.
Proof.
  intros Hparse. rewrite <- with_final_parse. revert Hparse. apply parse_sub.
  intros h l res. apply final_rec_final.
Qed.

Lemma limited_scan_agrees limit text st :
  Limited.scan limit text = Some st -> Parser.scan text = Some st.
Proof.
  intros Hscan. rewrite <- with_final_scan. revert Hscan. apply scan_sub.
  intros h l res. apply final_rec_final.
Qed.

(** With room for 999 nested calls, [parse] does not come back from
    [deep_plan 1000]. *)
Lemma deep_plan_overflow : Limited.parse 999 (deep_plan 1000) = None.
Proof. vm_compute. reflexivity. Qed.

(** The chain that the scan of [deep_plan 1000] leaves behind the room of
    the first cell. *)
Lemma deep_plan_chain :
  exists st,
    Limited.scan 3 (deep_plan 1000) = Some st /\
    Grid.get_room (Parser.grid st) 0 0 = Some 0%nat /\
    resolves_in (Parser.st_heap st) 0 999 999.
Proof.
  assert ((st ← Limited.scan 3 (deep_plan 1000);
           Some (Grid.get_room (Parser.grid st) 0 0,
                 snd <$> RoomOps.final_rec 1000 (Parser.st_heap st) 0,
                 snd <$> RoomOps.final_rec 999 (Parser.st_heap st) 0)) =
          Some (Some 0%nat, Some 999%nat, None)) as Hrun by (vm_compute; reflexivity).
  destruct (Limited.scan 3 (deep_plan 1000)) as [st|]; [| simpl in Hrun; discriminate Hrun].
  change (Some (Grid.get_room (Parser.grid st) 0 0,
                snd <$> RoomOps.final_rec 1000 (Parser.st_heap st) 0,
                snd <$> RoomOps.final_rec 999 (Parser.st_heap st) 0) =
          Some (Some 0%nat, Some 999%nat, None)) in Hrun.
  destruct (RoomOps.final_rec 1000 (Parser.st_heap st) 0) as [[h' root]|] eqn:Hfin;
    destruct (RoomOps.final_rec 999 (Parser.st_heap st) 0) as [res|] eqn:Hnone;
    try discriminate Hrun.
  injection Hrun as Hroom ->.
  exists st. split; [reflexivity |]. split; [exact Hroom |].
  destruct (final_rec_depth _ _ _ _ _ Hfin) as (d & Hd & Hlt).
  destruct (decide (d = 999%nat)) as [-> | Hne]; [exact Hd |].
  destruct (final_rec_spec (S d) _ _ _ d Hd ltac:(lia)) as (h'' & Hfin' & _).
  rewrite (final_rec_mono _ 999 _ _ _ Hfin' ltac:(lia)) in Hnone. discriminate Hnone.
Qed.

(** C7.  [parse] does raise.  On the plan [' |' * 1000 + '\n '], of 2002
    characters, the scan comes back, with three nested calls of [final] at
    most, and leaves the thousand compartments of the first row chained one
    behind the other: the room of the first cell is 999 links from its
    root.  The call of [final] on that room, in [extract_unique_rooms],
    needs a thousand nested calls: with room for 999 or fewer the run of
    [parse] ends in a [RecursionError], with room for a thousand it
    returns.  The limit is all that stops [parse]: a run that returns under
    a limit returns what the run without a limit returns, which returns for
    every input; and on the empty text [parse] returns the empty list, with
    nothing printed, whatever the limit. *)
Theorem parse_exceeds_recursion_limit :
  String.length (deep_plan 1000) = 2002%nat /\
  (exists st,
     Limited.scan 3 (deep_plan 1000) = Some st /\
     Grid.get_room (Parser.grid st) 0 0 = Some 0%nat /\
     resolves_in (Parser.st_heap st) 0 999 999) /\
  (forall limit, (limit <= 999)%nat -> Limited.parse limit (deep_plan 1000) = None) /\
  is_Some (Limited.parse 1000 (deep_plan 1000)) /\
  (forall limit text e, Limited.parse limit text = Some e -> Parser.parse text = Some e) /\
  (forall text, is_Some (Parser.parse text)) /\
  (forall limit, Limited.parse limit "" = Some (Grid.mkExtraction [] ∅ [] [])).
Proof.
  pose proof deep_plan_overflow as H999.
  split_and!.
  - vm_compute. reflexivity.
  - apply deep_plan_chain.
  - intros limit Hle.
    destruct (Limited.parse limit (deep_plan 1000)) as [e|] eqn:Hparse; [| reflexivity].
    apply (limited_parse_mono _ 999) in Hparse; [| exact Hle].
    rewrite H999 in Hparse. discriminate Hparse.
  - vm_compute. eexists. reflexivity.
  - apply limited_parse_agrees.
  - intros text. destruct (parse_returns_unbounded text) as [(e & _ & He & _) _]. by exists e.
  - reflexivity.
Qed.

(** * The claim about the formatter *)

Lemma chairs_ext (c1 c2 : Chairs) :
  (forall t, chair_get c1 t = chair_get c2 t) -> c1 = c2.
Proof.
  intros H. destruct c1, c2.
  pose proof (H ChW). pose proof (H ChP). pose proof (H ChS). pose proof (H ChC).
  simpl in *. congruence.
Qed.

Lemma sum_chairs_get rooms t : chair_get (sum_chairs rooms) t = total_of rooms t.
Proof.
  induction rooms as [|r rooms IH]; simpl; [by destruct t |].
  by rewrite chair_get_sum, IH.
Qed.

Lemma totals_loop_sum rooms : totals_loop no_chairs rooms = sum_chairs rooms.
Proof.
  apply chairs_ext. intros t. rewrite totals_loop_get, sum_chairs_get. by destruct t.
Qed.

Lemma sort_key_named r n :
  Room.name r = Some n -> Formatter.sort_key r = n /\ Formatter.name_text r = n.
Proof.
  intros Hn. unfold Formatter.sort_key, Formatter.name_text, truthy. rewrite Hn. simpl.
  split; [| done]. destruct (String.eqb_spec n ""); simpl; congruence.
Qed.

(** C8.  The output is the line [total:], the line of the elementwise
    sum of the tallies, then for each room, in the order of the sort, the
    line [<name>:] and the line of its tally, every line ended by a newline.
    A tally line is [W: w, P: p, S: s, C: c].  The sort is a permutation of
    the rooms, ascending in the names, keeps rooms of one name in their
    order, and puts the rooms with the empty name first. *)
Theorem format_output_layout (rooms : list Room.t) :
  Formatter.format_output rooms =
    "total:" +:+ Formatter.newline
      +:+ Formatter.format_chair_line (sum_chairs rooms) +:+ Formatter.newline
      +:+ blocks (Formatter.sorted rooms) /\
  (forall t, chair_get (sum_chairs rooms) t = total_of rooms t) /\
  (forall c, Formatter.format_chair_line c =
             "W: " +:+ pretty (cW c) +:+ ", " +:+ "P: " +:+ pretty (cP c) +:+ ", "
               +:+ "S: " +:+ pretty (cS c) +:+ ", " +:+ "C: " +:+ pretty (cC c)) /\
  (forall r, room_block r =
             Formatter.name_text r +:+ ":" +:+ Formatter.newline
               +:+ Formatter.format_chair_line (Room.chairs r) +:+ Formatter.newline) /\
  (forall r n, Room.name r = Some n ->
               Formatter.sort_key r = n /\ Formatter.name_text r = n) /\
  Formatter.sorted rooms ≡ₚ rooms /\
  Sorted key_le (Formatter.sorted rooms) /\
  (forall k, filter (fun r => Formatter.sort_key r = k) (Formatter.sorted rooms) =
             filter (fun r => Formatter.sort_key r = k) rooms) /\
  Formatter.sorted rooms =
    filter (fun r => Formatter.sort_key r = "") rooms ++
    Formatter.sorted (filter (fun r => Formatter.sort_key r <> "") rooms) /\
  (exists s, Formatter.format_output rooms = s +:+ Formatter.newline).
Proof.
  split_and!.
  - by rewrite format_output_blocks, totals_loop_sum.
  - apply sum_chairs_get.
  - apply format_chair_line_eq.
  - done.
  - apply sort_key_named.
  - apply sorted_Permutation.
  - apply sorted_Sorted.
  - intros k. apply sorted_stable.
  - apply sorted_empty_first.
  - unfold Formatter.format_output. by eexists.
Qed.

(** * The claims about the steps of the scan *)

Lemma initial_state_ok text : state_ok (Parser.mkState [] (Grid.init text) 0 None None).
Proof.
  split_and!; simpl; try done.
  - split; [intros l Hl; simpl in Hl; lia | done].
  - apply init_cells_ok.
Qed.

Lemma state_ok_after_cell st x y st' :
  state_ok st ->
  0 <= x < Grid.width (Parser.grid st) -> 0 <= y < Grid.height (Parser.grid st) ->
  Parser.scan_cell y st x = Some st' -> state_ok st'.
Proof.
  intros Hst Hx Hy Hcell.
  destruct (scan_cell_spec y st x Hst Hx Hy) as (st'' & m & Hcell' & Hst' & _).
  congruence.
Qed.

(** C2, as stated, fails: in the grid of the two rows ["   "] and
    [" | "] the cells (0,1) and (2,1) lie in one row with the wall (1,1)
    between them, and both end in the class of the region above. *)
Lemma walled_segments_are_unified :
  ~ (forall (text : string) (st : Parser.state) (y x1 xw x2 : Z) (l1 l2 r1 r2 : loc),
       Parser.scan text = Some st ->
       x1 < xw < x2 ->
       Grid.is_wall (Parser.grid st) xw y = true ->
       Grid.get_room (Parser.grid st) x1 y = Some l1 ->
       Grid.get_room (Parser.grid st) x2 y = Some l2 ->
       resolves (Parser.st_heap st) l1 r1 ->
       resolves (Parser.st_heap st) l2 r2 ->
       r1 <> r2).
Proof.
  intros H.
  destruct (Parser.scan ("   " +:+ Formatter.newline +:+ " | ")) as [st|] eqn:Hscan;
    [| by vm_compute in Hscan].
  apply (H _ st 1 0 1 2 1%nat 2%nat 0%nat 0%nat Hscan); [lia | | | | | | done];
    vm_compute in Hscan; injection Hscan as <-; try reflexivity.
  - exists 1%nat. econstructor; [reflexivity | reflexivity |]. by econstructor.
  - exists 1%nat. econstructor; [reflexivity | reflexivity |]. by econstructor.
Qed.

Lemma chair_char_floor c ty :
  chair_of_char c = Some ty -> is_wall c = false /\ c <> "("%char /\ c <> ")"%char.
Proof.
  unfold chair_of_char. repeat case_bool_decide; subst; try done; intros _; by vm_compute.
Qed.

(** C9.  On a floor cell that holds a chair character while a name is
    being captured, the step of the scan adds the character to the name
    buffer and adds one to the count of that chair type on the root of the
    open region, the root being the one after the merge with the room above,
    if any.  So the label [(Working)] alone gives a room named [Working]
    with one [W] chair. *)
Theorem chair_in_name_is_counted (st : Parser.state) (x y : Z) (ty : chair_type)
    (b : string) :
  state_ok st ->
  0 <= x < Grid.width (Parser.grid st) -> 0 <= y < Grid.height (Parser.grid st) ->
  chair_of_char (Grid.get_char (Parser.grid st) x y) = Some ty ->
  Parser.name_buffer st = Some b ->
  (exists st2 cur st' root r,
     Parser.enter_cell st x y = Some (st2, cur) /\
     Parser.scan_cell y st x = Some st' /\
     resolves (Parser.st_heap st2) cur root /\
     Parser.st_heap st2 !! root = Some r /\
     Parser.st_heap st' !! root =
       Some (Room.set_chairs (chair_add (Room.chairs r) ty 1) r) /\
     resolves (Parser.st_heap st') cur root /\
     Parser.current_room st' = Some cur /\
     Parser.name_buffer st' =
       Some (b +:+ String (Grid.get_char (Parser.grid st) x y) "")) /\
  Parser.parsed_rooms "(Working)" =
    Some [Room.set_chairs (mkChairs 1 0 0 0) (Room.set_name (Some "Working") (Room.init 1))].
Proof.
  intros Hst Hx Hy Hchair Hbuf. split; [| by vm_compute].
  destruct (chair_char_floor _ _ Hchair) as (Hwall & Hopen & Hclose).
  destruct (enter_cell_spec _ _ _ Hst Hx Hy)
    as (st2 & cur & m & Henter & Hst2 & Hcur2 & _ & Hbuf2 & _).
  destruct Hst2 as (Hok2 & _ & _ & Hvalid2). pose proof (Hvalid2 _ Hcur2) as Hcurlt.
  destruct (update_root_spec (Parser.st_heap st2) cur
              (fun r => Room.set_chairs (chair_add (Room.chairs r) ty 1) r) Hok2 Hcurlt)
    as (h1 & root & r & Hfin & Hres & Hroot & Hm & Hc & Hupd & Hok3 & Hlen3 & Hres3).
  { intros l r [Hid Hch]. split; [done |]. by apply chairs_nonneg_add. }
  { done. }
  eexists st2, cur, _, root, r. split_and!; [done | | done | done | | |  |].
  - unfold Parser.scan_cell. fold (is_wall (Grid.get_char (Parser.grid st) x y)).
    unfold Grid.is_wall. fold (is_wall (Grid.get_char (Parser.grid st) x y)).
    rewrite Hwall, Henter. simpl. unfold Parser.count_chair. rewrite Hchair, Hfin. simpl.
    rewrite Hupd. simpl. unfold Parser.track_name.
    rewrite bool_decide_eq_false_2 by done. rewrite Hbuf2, Hbuf.
    rewrite bool_decide_eq_false_2 by done. simpl. reflexivity.
  - simpl. apply list_lookup_insert_eq.
    rewrite (compressed_length _ _ Hc). by eapply lookup_lt_Some.
  - simpl. by apply Hres3.
  - done.
  - done.
Qed.

Lemma chair_in_name_is_counted_witness :
  exists st2 cur st' root r,
    Parser.enter_cell (after_open_paren "(W") 1 0 = Some (st2, cur) /\
    Parser.scan_cell 0 (after_open_paren "(W") 1 = Some st' /\
    resolves (Parser.st_heap st2) cur root /\
    Parser.st_heap st2 !! root = Some r /\
    Parser.st_heap st' !! root =
      Some (Room.set_chairs (chair_add (Room.chairs r) ChW 1) r) /\
    resolves (Parser.st_heap st') cur root /\
    Parser.current_room st' = Some cur /\
    Parser.name_buffer st' = Some ("" +:+ String "W"%char "").
Proof.
  apply (chair_in_name_is_counted (after_open_paren "(W") 1 0 ChW "").
  - apply (state_ok_after_cell (Parser.mkState [] (Grid.init "(W") 0 None None) 0 0).
    + apply initial_state_ok.
    + by vm_compute.
    + by vm_compute.
    + by vm_compute.
  - by vm_compute.
  - by vm_compute.
  - reflexivity.
  - reflexivity.
Defined.

(** C10.  A label [()] gives the name [""], and a root named [""] is
    returned and sorted first, but the name [""] does not survive a merge
    into a root that has no name.  What the code does as the claim says:
    ["("] starts the capture with the empty string; [")"] writes the
    captured string, the empty one too, as the name on the root of the
    open region; the extraction returns a distinct root exactly when its
    name is not [None]; the sort key of a room that has a name is that
    name, and the sort puts the rooms of key [""] before the others; the
    plan [()] and the box with [W] and [()] give one room named [""].
    Where it does not: in the plan of the rows ["-- "] and ["() "] the
    label [()] is written on room 2, the room of the second row; the
    cell after the label lies under the floor cell of room 1, and
    [merge_with] makes room 1 the root and leaves its name [None],
    since the test of [other.name] takes [""] for no name (the defect
    of C1).  The region of the label ends with no name, and [parse]
    returns the empty list, with no warning. *)
Theorem empty_label_lost_in_merge :
  (forall h cur buf, Parser.track_name h "("%char cur buf = Some (h, Some "")) /\
  (forall st x y b,
     state_ok st ->
     0 <= x < Grid.width (Parser.grid st) -> 0 <= y < Grid.height (Parser.grid st) ->
     Grid.get_char (Parser.grid st) x y = ")"%char ->
     Parser.name_buffer st = Some b ->
     exists st2 cur st' root r,
       Parser.enter_cell st x y = Some (st2, cur) /\
       Parser.scan_cell y st x = Some st' /\
       resolves (Parser.st_heap st2) cur root /\
       Parser.st_heap st2 !! root = Some r /\
       Parser.st_heap st' !! root = Some (Room.set_name (Some b) r) /\
       resolves (Parser.st_heap st') cur root /\
       Parser.name_buffer st' = None) /\
  (forall text, exists st e roots,
     Parser.scan text = Some st /\ Parser.parse text = Some e /\
     Forall2 (resolves (Parser.st_heap st)) (cell_rooms (Parser.grid st)) roots /\
     forall l r, l ∈ roots -> Parser.st_heap st !! l = Some r ->
       (l ∈ Grid.rooms e <-> Room.name r <> None)) /\
  (forall r n, Room.name r = Some n -> Formatter.sort_key r = n) /\
  (forall rooms,
     Formatter.sorted rooms =
       filter (fun r => Formatter.sort_key r = "") rooms ++
       Formatter.sorted (filter (fun r => Formatter.sort_key r <> "") rooms)) /\
  Parser.parsed_rooms "()" = Some [Room.set_name (Some "") (Room.init 1)] /\
  Parser.parsed_rooms
    ("+-+" +:+ Formatter.newline +:+ "|W|" +:+ Formatter.newline +:+
     "|()|" +:+ Formatter.newline +:+ "+-+" +:+ Formatter.newline) =
    Some [Room.set_chairs (mkChairs 1 0 0 0) (Room.set_name (Some "") (Room.init 2))] /\
  label (Grid.init empty_label_plan) 0 1 1 "" /\
  (exists st0 sa sb sc,
     Parser.scan_row (Parser.mkState [] (Grid.init empty_label_plan) 0 None None) 0
       = Some st0 /\
     Parser.scan_cell 1 (Parser.close_room st0) 0 = Some sa /\
     Parser.scan_cell 1 sa 1 = Some sb /\
     Parser.scan_cell 1 sb 2 = Some sc /\
     Parser.scan empty_label_plan = Some sc /\
     Parser.st_heap st0 = [Room.init 1] /\
     Parser.st_heap sa = [Room.init 1; Room.init 2] /\
     Parser.name_buffer sa = Some "" /\
     Parser.st_heap sb = [Room.init 1; Room.set_name (Some "") (Room.init 2)] /\
     Grid.get_connected_room_above (Parser.grid sb) 2 1 = Some 0%nat /\
     Parser.current_room sb = Some 1%nat /\
     Parser.st_heap sc =
       [Room.init 1;
        Room.set_merged_into (Some 0%nat) (Room.set_name (Some "") (Room.init 2))] /\
     region sc (1, 1) = Some 0%nat /\
     in_named_region sc (1, 1) = false) /\
  (exists e,
     Parser.parse empty_label_plan = Some e /\ Grid.rooms e = [] /\ Grid.stderr e = []) /\
  Parser.parsed_rooms empty_label_plan = Some [].
Proof.
  split_and!.
  - done.
  - intros st x y b Hst Hx Hy Hchar Hbuf.
    destruct (enter_cell_spec _ _ _ Hst Hx Hy)
      as (st2 & cur & m & Henter & Hst2 & Hcur2 & _ & Hbuf2 & _).
    destruct Hst2 as (Hok2 & _ & _ & Hvalid2). pose proof (Hvalid2 _ Hcur2) as Hcurlt.
    destruct (update_root_spec (Parser.st_heap st2) cur (Room.set_name (Some b)) Hok2 Hcurlt)
      as (h1 & root & r & Hfin & Hres & Hroot & Hm & Hc & Hupd & Hok3 & Hlen3 & Hres3);
      [done | done |].
    eexists st2, cur, _, root, r. split_and!; [done | | done | done | | |].
    + unfold Parser.scan_cell, Grid.is_wall. rewrite Hchar.
      replace (bool_decide (")"%char ∈ WALL_CHARS)) with false by done.
      rewrite Henter. simpl. unfold Parser.count_chair.
      replace (chair_of_char ")"%char) with (@None chair_type) by done.
      unfold Parser.track_name. rewrite bool_decide_eq_false_2 by done.
      rewrite Hbuf2, Hbuf. rewrite bool_decide_eq_true_2 by done.
      rewrite Hfin. simpl. rewrite Hupd. simpl. reflexivity.
    + simpl. apply list_lookup_insert_eq.
      rewrite (compressed_length _ _ Hc). by eapply lookup_lt_Some.
    + simpl. by apply Hres3.
    + done.
  - intros text.
    destruct (parse_spec text) as (st0 & e & roots & Hscan & _ & Hparse & Hroots & He).
    destruct He as (_ & _ & Hrooms & _).
    exists st0, e, roots. split_and!; try done.
    intros l r Hl Hr.
    rewrite Hrooms, list_elem_of_filter, elem_of_distinct. unfold is_named. rewrite Hr.
    rewrite bool_decide_spec. tauto.
  - intros r n Hn. by apply sort_key_named.
  - apply sorted_empty_first.
  - vm_compute. reflexivity.
  - vm_compute. reflexivity.
  - unfold label. split_and!; try (vm_compute; done).
    intros x Hx. lia.
  - eexists _, _, _, _. split_and!; vm_compute; reflexivity.
  - eexists. split_and!; vm_compute; reflexivity.
  - vm_compute. reflexivity.
Qed.

(** * Further properties of [Room] *)

(** X1.  [r.merge_with(r)]: the tallies are doubled, the name stays, and the
    room points at itself, so that [r.final()] never comes back. *)
Theorem merge_with_itself_loops (h : heap) (a : loc) (ra : Room.t) :
  h !! a = Some ra ->
  exists h',
    RoomOps.merge_with h a a = Some (h', a) /\
    h' !! a = Some {| Room.id := Room.id ra; Room.name := Room.name ra;
                      Room.chairs := chairs_sum (Room.chairs ra) (Room.chairs ra);
                      Room.merged_into := Some a |} /\
    (forall x, x <> a -> h' !! x = h !! x) /\
    (forall fuel, RoomOps.final_rec fuel h' a = None) /\
    RoomOps.final h' a = None.
Proof.
  intros Ha. pose proof (lookup_lt_Some _ _ _ Ha) as Hlt.
  set (ra' := {| Room.id := Room.id ra; Room.name := Room.name ra;
                 Room.chairs := chairs_sum (Room.chairs ra) (Room.chairs ra);
                 Room.merged_into := Some a |}).
  assert (forall fuel, RoomOps.final_rec fuel (<[a := ra']> h) a = None) as Hloop.
  { intros fuel. induction fuel as [|fuel IH]; [done |].
    simpl. rewrite list_lookup_insert_eq by done. simpl. by rewrite IH. }
  exists (<[a := ra']> h). split_and!.
  - unfold RoomOps.merge_with, update. simpl. rewrite Ha. simpl.
    repeat (rewrite ?list_lookup_insert_eq by (by rewrite ?length_insert);
            simpl; rewrite ?list_insert_insert_eq).
    replace (truthy (Room.name ra) && negb (truthy (Room.name ra))) with false
      by (by destruct (truthy (Room.name ra))).
    simpl. rewrite ?list_lookup_insert_eq by (by rewrite ?length_insert). simpl.
    rewrite ?list_insert_insert_eq. unfold ra'.
    destruct ra as [i n [w p s c] m]. reflexivity.
  - by apply list_lookup_insert_eq.
  - intros x Hx. by rewrite list_lookup_insert_ne.
  - done.
  - apply Hloop.
Qed.

Lemma merge_with_itself_loops_witness :
  exists h',
    RoomOps.merge_with [Room.set_chairs (mkChairs 1 0 2 0) (Room.init 1)] 0 0
      = Some (h', 0%nat) /\
    h' !! 0%nat = Some {| Room.id := 1; Room.name := None;
                          Room.chairs := mkChairs 2 0 4 0;
                          Room.merged_into := Some 0%nat |} /\
    RoomOps.final h' 0 = None.
Proof.
  destruct (merge_with_itself_loops
              [Room.set_chairs (mkChairs 1 0 2 0) (Room.init 1)] 0
              (Room.set_chairs (mkChairs 1 0 2 0) (Room.init 1)) eq_refl)
    as (h' & Hmerge & Hl & _ & _ & Hfin).
  exists h'. done.
Defined.

(** X2.  [a.merge_with(b)] on any two distinct rooms, roots or not: [a] gets
    the sum of the tallies and keeps its identifier and its own forward
    pointer; a name of [a] that is not empty is kept, and if one of the two
    names is not empty the name of [a] afterwards is not empty; [b] keeps its
    data and points at [a], whatever it pointed at before; no other room
    changes. *)
Theorem merge_with_effect (h : heap) (a b : loc) (ra rb : Room.t) :
  a <> b -> h !! a = Some ra -> h !! b = Some rb ->
  exists h' sa,
    RoomOps.merge_with h a b = Some (h', a) /\
    length h' = length h /\
    h' !! a = Some sa /\
    Room.id sa = Room.id ra /\ Room.merged_into sa = Room.merged_into ra /\
    Room.chairs sa = chairs_sum (Room.chairs ra) (Room.chairs rb) /\
    (truthy (Room.name ra) = true -> Room.name sa = Room.name ra) /\
    (truthy (Room.name ra) = false -> truthy (Room.name rb) = true ->
       Room.name sa = Room.name rb) /\
    (truthy (Room.name rb) = false -> Room.name sa = Room.name ra) /\
    (truthy (Room.name sa) = truthy (Room.name ra) || truthy (Room.name rb)) /\
    h' !! b = Some (Room.set_merged_into (Some a) rb) /\
    (forall x, x <> a -> x <> b -> h' !! x = h !! x).
Proof.
  intros Hne Ha Hb. exists (merged_heap h a b ra rb), (merged_room ra rb).
  split_and!.
  - by apply merge_with_eq.
  - unfold merged_heap. by rewrite !length_insert.
  - by apply merged_heap_survivor.
  - done.
  - done.
  - done.
  - simpl. unfold merged_name. intros ->. by rewrite andb_false_r.
  - simpl. unfold merged_name. by intros -> ->.
  - simpl. unfold merged_name. by intros ->.
  - simpl. unfold merged_name.
    destruct (truthy (Room.name rb)) eqn:Hb', (truthy (Room.name ra)) eqn:Ha'; simpl; done.
  - by apply merged_heap_absorbed.
  - intros x Hxa Hxb. by apply merged_heap_other.
Qed.

Lemma merge_with_effect_witness :
  exists h' sa,
    RoomOps.merge_with
      [Room.set_name (Some "") (Room.init 1); Room.init 2;
       Room.set_merged_into (Some 1%nat) (Room.set_name (Some "den") (Room.init 3))] 0 2
      = Some (h', 0%nat) /\
    h' !! 0%nat = Some sa /\ Room.name sa = Some "den" /\
    h' !! 2%nat =
      Some (Room.set_merged_into (Some 0%nat) (Room.set_name (Some "den") (Room.init 3))).
Proof.
  destruct (merge_with_effect
              [Room.set_name (Some "") (Room.init 1); Room.init 2;
               Room.set_merged_into (Some 1%nat) (Room.set_name (Some "den") (Room.init 3))]
              0 2 (Room.set_name (Some "") (Room.init 1))
              (Room.set_merged_into (Some 1%nat) (Room.set_name (Some "den") (Room.init 3))))
    as (h' & sa & Hmerge & _ & Ha & _ & _ & _ & _ & Hname & _ & _ & Hb & _);
    [lia | reflexivity | reflexivity |].
  exists h', sa. split_and!; [done | done | by apply Hname | done].
Defined.

(** X3.  A call of [final] changes no identifier, name or tally and does not
    resize the store; the roots and the rooms that are not on the way from
    the argument to its root are left as they are; and no chain of forward
    pointers gets longer. *)
Theorem final_frame (h h' : heap) (l root : loc) :
  RoomOps.final h l = Some (h', root) ->
  length h' = length h /\
  (forall x r, h !! x = Some r ->
     exists r', h' !! x = Some r' /\ Room.id r' = Room.id r /\
                Room.name r' = Room.name r /\ Room.chairs r' = Room.chairs r) /\
  (forall x r, h !! x = Some r -> Room.merged_into r = None -> h' !! x = Some r) /\
  (forall x, ~ reaches h l x -> h' !! x = h !! x) /\
  (forall x rx d, resolves_in h x rx d ->
     exists d', (d' <= d)%nat /\ resolves_in h' x rx d').
Proof.
  intros Hfin. destruct (final_inv _ _ _ _ Hfin) as (_ & Hc & _). split_and!.
  - by apply compressed_length.
  - intros x r Hx. destruct Hc as [_ Hc].
    destruct (Hc _ _ Hx) as (r' & Hx' & (? & ? & ?) & _). by exists r'.
  - intros x r Hx Hm. by eapply compressed_root_lookup.
  - by eapply final_rec_off_path.
  - intros x rx d Hx. by eapply compressed_resolves_in.
Qed.

Lemma final_frame_witness :
  length [Room.init 1; Room.set_merged_into (Some 0%nat) (Room.init 2);
          Room.set_merged_into (Some 1%nat) (Room.init 3); Room.init 4] = 4%nat /\
  [Room.init 1; Room.set_merged_into (Some 0%nat) (Room.init 2);
   Room.set_merged_into (Some 0%nat) (Room.init 3); Room.init 4] !! 3%nat
  = [Room.init 1; Room.set_merged_into (Some 0%nat) (Room.init 2);
     Room.set_merged_into (Some 1%nat) (Room.init 3); Room.init 4] !! 3%nat.
Proof.
  destruct (final_frame
              [Room.init 1; Room.set_merged_into (Some 0%nat) (Room.init 2);
               Room.set_merged_into (Some 1%nat) (Room.init 3); Room.init 4]
              [Room.init 1; Room.set_merged_into (Some 0%nat) (Room.init 2);
               Room.set_merged_into (Some 0%nat) (Room.init 3); Room.init 4]
              2 0 eq_refl) as (Hlen & _ & _ & Hoff & _).
  split; [done |]. apply Hoff. intros Hreach.
  inversion Hreach as [| ? ? ? ? H1 H2 H3]; subst.
  injection H1 as <-. injection H2 as <-.
  inversion H3 as [| ? ? ? ? H4 H5 H6]; subst.
  injection H4 as <-. injection H5 as <-.
  inversion H6 as [| ? ? ? ? H7 H8 H9]; subst.
  injection H7 as <-. discriminate H8.
Defined.

(** X4.  Path compression is done after one call: a second call of [final] on
    the same room returns the same root and leaves the store as the first
    call left it. *)
Theorem final_again (h h' : heap) (l root : loc) :
  RoomOps.final h l = Some (h', root) ->
  RoomOps.final h' l = Some (h', root).
Proof.
  intros Hfin. destruct (final_inv _ _ _ _ Hfin) as (Hres & Hc & Hvis).
  pose proof (resolves_is_root _ _ _ Hres) as Hroot.
  pose proof (compressed_is_root _ _ _ Hc Hroot) as (rr & Hrr & Hrm).
  destruct Hres as [d Hres]. inversion Hres as [? r Hl Hm | ? r p ? ? Hl Hm Hp]; subst.
  { apply final_root. by exists rr. }
  destruct (Hvis l r (reaches_here _ _) Hl) as (r' & Hl' & Hm'); [congruence |].
  assert (l <> root) as Hne by (intros ->; congruence).
  pose proof (lookup_lt_Some _ _ _ Hl') as Hlt. pose proof (lookup_lt_Some _ _ _ Hrr) as Hlt'.
  unfold RoomOps.final. destruct (length h') as [|[|n]] eqn:Hlen; [lia | lia |].
  cbn [RoomOps.final_rec]. rewrite Hl'. simpl. rewrite Hm', Hrr. simpl. rewrite Hrm. simpl.
  unfold update. rewrite Hl'. simpl.
  assert (Room.set_merged_into (Some root) r' = r') as ->.
  { destruct r'; simpl in *. unfold Room.set_merged_into. simpl. by rewrite Hm'. }
  rewrite list_insert_id by done. rewrite Hl'. simpl. by rewrite Hm'.
Qed.

Lemma final_again_witness :
  RoomOps.final [Room.init 1; Room.set_merged_into (Some 0%nat) (Room.init 2);
                 Room.set_merged_into (Some 0%nat) (Room.init 3)] 2
  = Some ([Room.init 1; Room.set_merged_into (Some 0%nat) (Room.init 2);
           Room.set_merged_into (Some 0%nat) (Room.init 3)], 0%nat).
Proof.
  apply (final_again
           [Room.init 1; Room.set_merged_into (Some 0%nat) (Room.init 2);
            Room.set_merged_into (Some 1%nat) (Room.init 3)]).
  reflexivity.
Defined.

(** * Further properties of [Grid] *)

Lemma py_index_wrap n i :
  - Z.of_nat n <= i < 0 -> py_index n i = py_index n (Z.of_nat n + i).
Proof.
  intros Hi. unfold py_index.
  destruct (0 <=? i) eqn:H1; [lia |]. simpl.
  destruct (- Z.of_nat n <=? i) eqn:H2; [| lia]. destruct (i <? 0) eqn:H3; [| lia]. simpl.
  destruct (0 <=? Z.of_nat n + i) eqn:H4; [| lia].
  destruct (Z.of_nat n + i <? Z.of_nat n) eqn:H5; [done | lia].
Qed.

Lemma py_index_out n i :
  Z.of_nat n <= i \/ i < - Z.of_nat n -> py_index n i = None.
Proof.
  intros Hi. unfold py_index.
  destruct (0 <=? i) eqn:H1, (i <? Z.of_nat n) eqn:H2; simpl; try lia;
    destruct (- Z.of_nat n <=? i) eqn:H3, (i <? 0) eqn:H4; simpl; try lia; done.
Qed.

Lemma width_nonneg g : 0 <= Grid.width g.
Proof.
  unfold Grid.width. destruct (Grid.lines g) as [|l ls]; [done |].
  assert (forall m, 0 <= m -> 0 <= foldl (fun m l' => Z.max m (len l')) m ls) as H.
  { induction ls as [|l' ls IH]; intros m Hm; simpl; [done |]. apply IH. lia. }
  apply H. unfold len. lia.
Qed.

Lemma grid_shaped_of_cells_ok n g : cells_ok n g -> grid_shaped g.
Proof.
  intros [Hlen Hrows]. split; [done |]. intros j row Hj. by destruct (Hrows _ _ Hj).
Qed.

Lemma set_room_frame (g : Grid.t) (x y : Z) (room : loc) :
  grid_shaped g -> 0 <= x < Grid.width g -> 0 <= y < Grid.height g ->
  exists g',
    Grid.set_room g x y room = Some g' /\
    Grid.get_room g' x y = Some room /\
    (forall x' y', x' <> x \/ y' <> y -> Grid.get_room g' x' y' = Grid.get_room g x' y') /\
    Grid.lines g' = Grid.lines g /\ grid_shaped g'.
Proof.
  intros [Hlen Hrows] Hx Hy. unfold Grid.set_room.
  rewrite py_index_in_range by lia. simpl.
  destruct (lookup_lt_is_Some_2 (Grid.cells g) (Z.to_nat y) ltac:(lia)) as [row Hrow].
  rewrite Hrow. simpl. pose proof (Hrows _ _ Hrow) as Hrowlen.
  rewrite py_index_in_range by lia. simpl. eexists. split; [done |].
  unfold Grid.get_room, Grid.height, Grid.width in *. simpl. split_and!.
  - destruct (y <? 0) eqn:?, (y >=? Z.of_nat (length (Grid.lines g))) eqn:?; try lia.
    simpl. fold (Grid.width g).
    destruct (x <? 0) eqn:?; [lia |]. simpl.
    destruct (x >=? Grid.width g) eqn:?; [unfold Grid.width in *; lia |].
    rewrite list_lookup_insert_eq by lia. simpl.
    rewrite list_lookup_insert_eq by (unfold Grid.width; lia). done.
  - intros x' y' Hne.
    destruct ((y' <? 0) || (y' >=? Z.of_nat (length (Grid.lines g)))) eqn:Hgy; [done |].
    apply orb_false_elim in Hgy as [Hy1 Hy2].
    match goal with |- (if ?c then _ else _) = _ => destruct c eqn:Hgx; [done |] end.
    apply orb_false_elim in Hgx as [Hx1 Hx2].
    destruct (decide (Z.to_nat y' = Z.to_nat y)) as [Heq | Hney].
    + rewrite Heq, list_lookup_insert_eq by lia. rewrite Hrow. simpl.
      rewrite list_lookup_insert_ne; [done |]. lia.
    + by rewrite list_lookup_insert_ne.
  - done.
  - split; simpl; [by rewrite length_insert |].
    intros j row' Hj. destruct (decide (j = Z.to_nat y)) as [-> | Hne].
    + rewrite list_lookup_insert_eq in Hj by lia. injection Hj as <-.
      by rewrite length_insert.
    + rewrite list_lookup_insert_ne in Hj by done. exact (Hrows _ _ Hj).
Qed.

Lemma init_get_room text x y : Grid.get_room (Grid.init text) x y = None.
Proof.
  unfold Grid.get_room.
  destruct ((y <? 0) || (y >=? Grid.height (Grid.init text))); [done |].
  destruct ((x <? 0) || (x >=? Grid.width (Grid.init text))); [done |].
  simpl. destruct (replicate _ _ !! Z.to_nat y) as [row|] eqn:Hrow; [simpl | done].
  apply lookup_replicate in Hrow as [-> _].
  destruct (replicate _ _ !! Z.to_nat x) as [c|] eqn:Hc; [simpl | done].
  by apply lookup_replicate in Hc as [-> _].
Qed.

(** X5.  [set_room] then [get_room]: inside the grid the write succeeds, the
    cell reads back the room, every other cell reads as before, and the
    characters and the shape of the grid are as before. *)
Theorem set_room_get_room (g : Grid.t) (x y : Z) (room : loc) :
  grid_shaped g -> 0 <= x < Grid.width g -> 0 <= y < Grid.height g ->
  exists g',
    Grid.set_room g x y room = Some g' /\
    Grid.get_room g' x y = Some room /\
    (forall x' y', x' <> x \/ y' <> y -> Grid.get_room g' x' y' = Grid.get_room g x' y') /\
    Grid.lines g' = Grid.lines g /\ grid_shaped g'.
Proof.
  apply set_room_frame.
Qed.

Lemma set_room_get_room_witness :
  exists g',
    Grid.set_room (Grid.init "ab") 1 0 7 = Some g' /\
    Grid.get_room g' 1 0 = Some 7%nat /\
    Grid.lines g' = ["ab"].
Proof.
  destruct (set_room_get_room (Grid.init "ab") 1 0 7)
    as (g' & Hset & Hget & _ & Hlines & _).
  - eapply grid_shaped_of_cells_ok, init_cells_ok.
  - by vm_compute.
  - by vm_compute.
  - by exists g'.
Defined.

(** X6.  [get_room] checks the bounds and [set_room] does not: outside the
    grid [get_room] is [None]; [set_room] fails on a row or column at or
    beyond the size, and on a negative row or column it writes the cell
    counted from the end. *)
Theorem room_access_out_of_range (g : Grid.t) (x y : Z) (room : loc) :
  grid_shaped g ->
  (~ (0 <= x < Grid.width g /\ 0 <= y < Grid.height g) -> Grid.get_room g x y = None) /\
  (Grid.height g <= y \/ y < - Grid.height g -> Grid.set_room g x y room = None) /\
  (- Grid.height g <= y < 0 ->
     Grid.set_room g x y room = Grid.set_room g x (Grid.height g + y) room) /\
  (0 <= y < Grid.height g -> Grid.width g <= x \/ x < - Grid.width g ->
     Grid.set_room g x y room = None) /\
  (0 <= y < Grid.height g -> - Grid.width g <= x < 0 ->
     Grid.set_room g x y room = Grid.set_room g (Grid.width g + x) y room).
Proof.
  intros [Hlen Hrows]. pose proof (width_nonneg g) as Hw.
  assert (0 <= Grid.height g) as Hh by (unfold Grid.height; lia).
  assert (Z.of_nat (length (Grid.cells g)) = Grid.height g) as Hcells by lia.
  assert (forall y row, 0 <= y < Grid.height g ->
            Grid.cells g !! Z.to_nat y = Some row ->
            Z.of_nat (length row) = Grid.width g) as Hrow.
  { intros y' row _ Hr. rewrite (Hrows _ _ Hr). lia. }
  split_and!.
  - intros Hout. unfold Grid.get_room.
    destruct (y <? 0) eqn:?, (y >=? Grid.height g) eqn:?; simpl; try done.
    destruct (x <? 0) eqn:?, (x >=? Grid.width g) eqn:?; simpl; try done. lia.
  - intros Hy. unfold Grid.set_room. rewrite py_index_out; [done | lia].
  - intros Hy. unfold Grid.set_room. rewrite py_index_wrap by lia. by rewrite Hcells.
  - intros Hy Hx. unfold Grid.set_room. rewrite py_index_in_range by lia. simpl.
    destruct (Grid.cells g !! Z.to_nat y) as [row|] eqn:Hr; [simpl | done].
    rewrite py_index_out; [done |]. rewrite (Hrow _ _ Hy Hr). lia.
  - intros Hy Hx. unfold Grid.set_room. rewrite py_index_in_range by lia. simpl.
    destruct (Grid.cells g !! Z.to_nat y) as [row|] eqn:Hr; [simpl | done].
    rewrite py_index_wrap by (rewrite (Hrow _ _ Hy Hr); lia).
    by rewrite (Hrow _ _ Hy Hr).
Qed.

Lemma room_access_out_of_range_witness :
  Grid.get_room (Grid.init "ab") 2 0 = None /\
  Grid.set_room (Grid.init "ab") 2 0 7 = None /\
  Grid.set_room (Grid.init "ab") (-1) 0 7 = Grid.set_room (Grid.init "ab") 1 0 7.
Proof.
  destruct (room_access_out_of_range (Grid.init "ab") 2 0 7)
    as (Hget & _ & _ & Hset & _); [eapply grid_shaped_of_cells_ok, init_cells_ok |].
  destruct (room_access_out_of_range (Grid.init "ab") (-1) 0 7)
    as (_ & _ & _ & _ & Hwrap); [eapply grid_shaped_of_cells_ok, init_cells_ok |].
  split_and!.
  - apply Hget. vm_compute. intros [[_ H] _]. discriminate H.
  - apply Hset; vm_compute; [split; [discriminate | reflexivity] | left; discriminate].
  - apply Hwrap; vm_compute; split; (discriminate || reflexivity).
Defined.

Lemma foldl_max_spec (ls : list string) (m : Z) :
  m <= foldl (fun m l' => Z.max m (len l')) m ls /\
  Forall (fun l => len l <= foldl (fun m l' => Z.max m (len l')) m ls) ls /\
  (foldl (fun m l' => Z.max m (len l')) m ls = m \/
   exists l, l ∈ ls /\ foldl (fun m l' => Z.max m (len l')) m ls = len l).
Proof.
  revert m. induction ls as [|l ls IH]; intros m; simpl.
  - split_and!; [lia | constructor | by left].
  - destruct (IH (Z.max m (len l))) as (Hge & Hall & Hatt). split_and!.
    + lia.
    + constructor; [lia | done].
    + destruct Hatt as [-> | (l' & Hl' & ->)].
      * destruct (Z.max_spec m (len l)) as [[_ ->] | [_ ->]]; [right | by left].
        exists l. split; [by left | done].
      * right. exists l'. split; [by right | done].
Qed.

(** X7.  The grid of a text: as many rows as the text has lines; the width is
    the length of a longest line, and 0 when there is no line; the cell map
    has that shape and holds no room; outside the characters of a line,
    ragged ends included, [get_char] is a space. *)
Theorem grid_init_shape (text : string) :
  Grid.lines (Grid.init text) = splitlines text /\
  Grid.height (Grid.init text) = Z.of_nat (length (splitlines text)) /\
  Forall (fun line => len line <= Grid.width (Grid.init text)) (splitlines text) /\
  (splitlines text = [] -> Grid.width (Grid.init text) = 0) /\
  (splitlines text <> [] ->
     exists line, line ∈ splitlines text /\ len line = Grid.width (Grid.init text)) /\
  grid_shaped (Grid.init text) /\
  (forall x y, Grid.get_room (Grid.init text) x y = None) /\
  (forall x y line,
     splitlines text !! Z.to_nat y = Some line -> 0 <= y -> len line <= x ->
     Grid.get_char (Grid.init text) x y = " "%char).
Proof.
  split_and!.
  - done.
  - done.
  - unfold Grid.width. simpl. destruct (splitlines text) as [|l ls]; [constructor |].
    destruct (foldl_max_spec ls (len l)) as (Hge & Hall & _). by constructor.
  - unfold Grid.width. simpl. by intros ->.
  - unfold Grid.width. simpl. destruct (splitlines text) as [|l ls]; [done |]. intros _.
    destruct (foldl_max_spec ls (len l)) as (_ & _ & [-> | (l' & Hl' & ->)]).
    + exists l. split; [by left | done].
    + exists l'. split; [by right | done].
  - eapply grid_shaped_of_cells_ok, init_cells_ok.
  - apply init_get_room.
  - intros x y line Hline Hy Hx. unfold Grid.get_char. simpl.
    destruct ((y <? 0) || (y >=? Grid.height (Grid.init text))); [done |].
    rewrite Hline. destruct (x <? 0) eqn:?; [done |]. simpl.
    destruct (x >=? len line) eqn:?; [done | lia].
Qed.

(** * Further properties of the formatter *)

Lemma key_le_trans r1 r2 r3 : key_le r1 r2 -> key_le r2 r3 -> key_le r1 r3.
Proof.
  unfold key_le. intros H1%Is_true_true H2%Is_true_true. apply Is_true_true.
  change (String.le (Formatter.sort_key r1) (Formatter.sort_key r3)).
  by etrans.
Qed.

Lemma total_of_Permutation rooms rooms' t :
  rooms ≡ₚ rooms' -> total_of rooms t = total_of rooms' t.
Proof. induction 1; simpl; lia. Qed.

Lemma NoDup_fmap_eq {A B} (f : A -> B) (l : list A) (x y : A) :
  NoDup (f <$> l) -> x ∈ l -> y ∈ l -> f x = f y -> x = y.
Proof.
  induction l as [|a l IH]; simpl; [by intros _ ?%elem_of_nil |].
  intros [Hnotin Hnd]%NoDup_cons [-> | Hx]%elem_of_cons [-> | Hy]%elem_of_cons Heq; auto.
  - destruct Hnotin. rewrite Heq. by apply list_elem_of_fmap_2.
  - destruct Hnotin. rewrite <- Heq. by apply list_elem_of_fmap_2.
Qed.

(** X8.  When no two rooms have the same name, the output does not depend on
    the order in which the rooms are given. *)
Theorem format_output_order_irrelevant (rooms rooms' : list Room.t) :
  rooms ≡ₚ rooms' -> NoDup (Formatter.sort_key <$> rooms) ->
  Formatter.format_output rooms = Formatter.format_output rooms'.
Proof.
  intros Hperm Hnd. rewrite !format_output_blocks, !totals_loop_sum.
  assert (sum_chairs rooms = sum_chairs rooms') as ->.
  { apply chairs_ext. intros t. rewrite !sum_chairs_get. by apply total_of_Permutation. }
  assert (Formatter.sorted rooms = Formatter.sorted rooms') as ->; [| done].
  apply (Sorted_unique_strong key_le (Transitive0 := key_le_trans)).
  - intros x1 x2 Hx1 Hx2 H12 H21.
    apply (NoDup_fmap_eq Formatter.sort_key rooms); [done | | |].
    + by rewrite <- (sorted_Permutation rooms).
    + rewrite Hperm. by rewrite <- (sorted_Permutation rooms').
    + by apply String.leb_antisym.
  - apply sorted_Sorted.
  - apply sorted_Sorted.
  - by rewrite !sorted_Permutation.
Qed.

Lemma format_output_order_irrelevant_witness :
  Formatter.format_output
    [Room.set_name (Some "den") (Room.init 1); Room.set_name (Some "attic") (Room.init 2)] =
  Formatter.format_output
    [Room.set_name (Some "attic") (Room.init 2); Room.set_name (Some "den") (Room.init 1)].
Proof.
  apply format_output_order_irrelevant.
  - apply Permutation_swap.
  - apply NoDup_cons. split; [| apply NoDup_singleton].
    intros H%list_elem_of_singleton. discriminate H.
Defined.

(** * The scan, cell by cell *)

Lemma merge_above_part h g x y cur :
  heap_ok h -> cells_ok (length h) g -> (cur < length h)%nat ->
  exists h', Parser.merge_above h g x y cur = Some h' /\
             merge_part (Grid.get_connected_room_above g x y) cur h h'.
Proof.
  intros Hok Hcells Hcur. unfold Parser.merge_above, merge_part.
  destruct (Grid.get_connected_room_above g x y) as [above|] eqn:Habove.
  2: { by exists h. }
  pose proof (get_connected_room_above_valid _ _ _ _ _ Hcells Habove) as Hab.
  destruct (final_heap_ok _ _ Hok Hab)
    as (h1 & fa & ra & Hfin1 & Hr1 & Hc1 & Hok1 & Hfa & Hfa1 & Hram).
  rewrite Hfin1. simpl.
  assert (cur < length h1)%nat as Hcur1 by (by rewrite (compressed_length _ _ Hc1)).
  destruct (final_heap_ok _ _ Hok1 Hcur1)
    as (h2 & fc & rc & Hfin2 & Hr2 & Hc2 & Hok2 & Hfc1 & Hfc2 & Hrcm).
  rewrite Hfin2. simpl.
  assert (compressed h h2) as Hc by (eapply compressed_trans; [apply Hok | done | done]).
  assert (h2 !! fa = Some ra) as Hfa2 by (by eapply compressed_root_lookup).
  assert (resolves h cur fc) as Hr2'.
  { apply (compressed_resolves_rev h h1); [apply Hok | done | done]. }
  case_bool_decide as Hne.
  - rewrite (merge_with_eq _ _ _ _ _ Hne Hfa2 Hfc2). simpl.
    exists (merged_heap h2 fa fc ra rc). split; [done |]. exists h2, fa, fc, ra, rc.
    split_and!; try done. by rewrite decide_False.
  - exists h2. split; [done |]. exists h2, fa, fc, ra, rc.
    split_and!; try done. rewrite decide_True; [done |].
    exact Hne.
Qed.

Lemma root_write_spec h cur f :
  heap_ok h -> (cur < length h)%nat ->
  exists h1 root h',
    RoomOps.final h cur = Some (h1, root) /\ update h1 root f = Some h' /\
    root_write cur f h h'.
Proof.
  intros Hok Hcur.
  destruct (final_heap_ok _ _ Hok Hcur)
    as (h1 & root & r & Hfin & Hr & Hc & Hok1 & Hroot & Hroot1 & Hrm).
  exists h1, root, (<[root := f r]> h1). split_and!; [done | |].
  - unfold update. by rewrite Hroot1.
  - by exists h1, root, r.
Qed.

Lemma count_chair_part h char cur :
  heap_ok h -> (cur < length h)%nat ->
  exists h', Parser.count_chair h char cur = Some h' /\ chair_part cur char h h'.
Proof.
  intros Hok Hcur. unfold Parser.count_chair, chair_part.
  destruct (chair_of_char char) as [ty|]; [| by exists h].
  destruct (root_write_spec h cur
              (fun r => Room.set_chairs (chair_add (Room.chairs r) ty 1) r) Hok Hcur)
    as (h1 & root & h' & Hfin & Hupd & Hw).
  rewrite Hfin. simpl. rewrite Hupd. by exists h'.
Qed.

Lemma track_name_part h char cur buf :
  heap_ok h -> (cur < length h)%nat ->
  exists h' buf', Parser.track_name h char cur buf = Some (h', buf') /\
                  name_part cur char buf h h' buf'.
Proof.
  intros Hok Hcur. unfold Parser.track_name, name_part.
  case_bool_decide; [by eexists _, _ |].
  destruct buf as [b|]; [| by eexists _, _].
  case_bool_decide; [| by eexists _, _].
  destruct (root_write_spec h cur (Room.set_name (Some b)) Hok Hcur)
    as (h1 & root & h' & Hfin & Hupd & Hw).
  rewrite Hfin. simpl. rewrite Hupd. simpl. by eexists _, _.
Qed.

Lemma scan_cell_step y st x :
  state_ok st ->
  0 <= x < Grid.width (Parser.grid st) -> 0 <= y < Grid.height (Parser.grid st) ->
  exists st', Parser.scan_cell y st x = Some st' /\ state_ok st' /\ cell_step st x y st'.
Proof.
  intros Hst Hx Hy.
  destruct (scan_cell_spec y st x Hst Hx Hy)
    as (st' & m & Hcell & Hst' & Hlines & _ & Hwall & Hfloor & _).
  exists st'. split_and!; [done | done |]. split; [done |].
  destruct (Grid.is_wall (Parser.grid st) x y) eqn:Hw; [by apply Hwall |].
  destruct (Hfloor eq_refl) as (cur' & Hcur' & _).
  unfold Parser.scan_cell in Hcell. rewrite Hw in Hcell.
  unfold Parser.enter_cell in Hcell.
  destruct (open_room_spec _ Hst)
    as (st1 & cur & Hopen & Hst1 & Hcur1 & Hg1 & Hb1 & _ & Hcase).
  rewrite Hopen in Hcell. destruct Hst1 as (Hok1 & Hcnt1 & Hcells1 & Hvalid1).
  pose proof (Hvalid1 _ Hcur1) as Hcurlt.
  destruct (merge_above_part _ _ x y cur Hok1 Hcells1 Hcurlt) as (hm & Hmerge & Hmp).
  rewrite Hmerge in Hcell. simpl in Hcell.
  destruct (Grid.set_room (Parser.grid st1) x y cur) as [g2|] eqn:Hset; [| done].
  simpl in Hcell.
  destruct (merge_above_spec _ _ x y cur Hok1 Hcells1 Hcurlt)
    as (hm' & m' & Hmerge' & Hokm & Hlenm & _).
  assert (hm' = hm) as -> by congruence.
  destruct (count_chair_part hm (Grid.get_char (Parser.grid st) x y) cur Hokm ltac:(lia))
    as (hc & Hcount & Hcp).
  rewrite Hcount in Hcell. simpl in Hcell.
  destruct (count_chair_spec hm (Grid.get_char (Parser.grid st) x y) cur Hokm ltac:(lia))
    as (hc' & Hcount' & Hokc & Hlenc & _).
  assert (hc' = hc) as -> by congruence.
  destruct (track_name_part hc (Grid.get_char (Parser.grid st) x y) cur
              (Parser.name_buffer st1) Hokc ltac:(lia)) as (hn & buf & Htrack & Hnp).
  rewrite Htrack in Hcell. simpl in Hcell. injection Hcell as <-. simpl in *.
  rewrite Hcur1 in Hcur'. injection Hcur' as <-.
  exists cur, (Parser.st_heap st1), hm, hc. split_and!; try done.
  - destruct Hcase as [[? ->] | (? & ? & ?)]; [by left | by right].
  - by rewrite <- Hg1.
  - by rewrite <- Hb1.
  - by rewrite <- Hg1.
Qed.

(** ** Loops over [range] *)

Lemma foldl_range_inv {A} (f : A -> Z -> option A) (I : Z -> A -> Prop) (n : Z) (a0 : A) :
  0 <= n -> I 0 a0 ->
  (forall i a, 0 <= i < n -> I i a -> exists a', f a i = Some a' /\ I (i + 1) a') ->
  exists a, foldl (fun oa i => a ← oa; f a i) (Some a0) (range n) = Some a /\ I n a.
Proof.
  intros Hn H0 Hstep. unfold range.
  assert (forall k : nat, Z.of_nat k <= n ->
            exists a, foldl (fun oa i => a ← oa; f a i) (Some a0) (seqZ 0 (Z.of_nat k)) = Some a /\
                      I (Z.of_nat k) a) as Hk.
  { induction k as [|k IH]; intros Hle.
    - exists a0. by rewrite seqZ_nil.
    - destruct IH as (a & Hfold & Ha); [lia |].
      destruct (Hstep (Z.of_nat k) a ltac:(lia) Ha) as (a' & Hf & Ha').
      exists a'. rewrite seqZ_S, foldl_app, Hfold. simpl.
      replace (Z.of_nat (S k)) with (Z.of_nat k + 1) by lia. done. }
  destruct (Hk (Z.to_nat n) ltac:(lia)) as (a & Hfold & Ha).
  exists a. rewrite Z2Nat.id in * by done. done.
Qed.

(** ** The root of a room, computed *)

Lemma root_rec_resolves_in h l r d fuel :
  resolves_in h l r d -> (d < fuel)%nat -> root_rec fuel h l = Some r.
Proof.
  intros Hres. revert fuel.
  induction Hres as [l r Hl Hm | l r p root d Hl Hm Hres IH]; intros fuel Hlt.
  - destruct fuel as [|fuel]; [lia |]. simpl. rewrite Hl. simpl. by rewrite Hm.
  - destruct fuel as [|fuel]; [lia |]. simpl. rewrite Hl. simpl. rewrite Hm.
    apply IH. lia.
Qed.

Lemma root_rec_sound fuel h l r : root_rec fuel h l = Some r -> resolves h l r.
Proof.
  revert l. induction fuel as [|fuel IH]; intros l; [done |]. simpl.
  destruct (h !! l) as [rec|] eqn:Hl; [simpl | done].
  destruct (Room.merged_into rec) as [p|] eqn:Hm.
  - intros [d Hd]%IH. exists (S d). by econstructor.
  - intros [= <-]. exists 0%nat. by econstructor.
Qed.

Lemma root_of_resolves h l r : root_of h l = Some r <-> resolves h l r.
Proof.
  split; [apply root_rec_sound |].
  intros [d Hd]. eapply root_rec_resolves_in; [done |]. by eapply resolves_depth_lt.
Qed.

Lemma region_of_class h g c r : region_of h g c = Some r <-> class h g c r.
Proof.
  unfold region_of, class. destruct (Grid.get_room g c.1 c.2) as [l|]; simpl.
  - rewrite root_of_resolves. split; [by exists l | by intros (? & [= <-] & ?)].
  - split; [done | by intros (? & ? & _)].
Qed.

Lemma class_fun h g c r1 r2 : class h g c r1 -> class h g c r2 -> r1 = r2.
Proof.
  intros (l1 & Hl1 & H1) (l2 & Hl2 & H2). rewrite Hl1 in Hl2. injection Hl2 as <-.
  by eapply resolves_fun.
Qed.

(** ** The characters are those of the lines *)

Lemma get_char_lines g g' x y :
  Grid.lines g' = Grid.lines g -> Grid.get_char g' x y = Grid.get_char g x y.
Proof. intros H. unfold Grid.get_char, Grid.height. by rewrite H. Qed.

Lemma is_wall_lines g g' x y :
  Grid.lines g' = Grid.lines g -> Grid.is_wall g' x y = Grid.is_wall g x y.
Proof. intros H. unfold Grid.is_wall. by rewrite (get_char_lines _ _ _ _ H). Qed.

Lemma chair_not_wall g x y t :
  chair_of_char (Grid.get_char g x y) = Some t -> Grid.is_wall g x y = false.
Proof.
  unfold Grid.is_wall, chair_of_char. intros H. apply bool_decide_eq_false. intros Hw.
  repeat case_bool_decide; try done;
    match goal with Heq : Grid.get_char _ _ _ = _ |- _ => rewrite Heq in Hw end;
    apply (bool_decide_pack _) in Hw; by vm_compute in Hw.
Qed.

(** ** Paths of floor cells *)

Lemma adjacent_sym c1 c2 : adjacent c1 c2 -> adjacent c2 c1.
Proof. unfold adjacent. intros [[? [?|?]] | [? [?|?]]]; lia. Qed.

Lemma connected_floor_l g c1 c2 : connected g c1 c2 -> floor_cell g c1.
Proof. by destruct 1. Qed.

Lemma connected_floor_r g c1 c2 : connected g c1 c2 -> floor_cell g c2.
Proof. by induction 1. Qed.

Lemma connected_trans g c1 c2 c3 : connected g c1 c2 -> connected g c2 c3 -> connected g c1 c3.
Proof. induction 1; [done |]. intros. econstructor; eauto. Qed.

Lemma connected_snoc g c1 c2 c3 :
  connected g c1 c2 -> adjacent c2 c3 -> floor_cell g c3 -> connected g c1 c3.
Proof.
  intros H12 Hadj H3. eapply connected_trans; [done |].
  econstructor; [by eapply connected_floor_r | done | by constructor].
Qed.

Lemma connected_sym g c1 c2 : connected g c1 c2 -> connected g c2 c1.
Proof.
  induction 1 as [c Hc | c1 c2 c3 H1 Hadj H23 IH]; [by constructor |].
  eapply connected_snoc; [done | by apply adjacent_sym | done].
Qed.

(** ** Counting cells *)

Lemma count_split {A} (P Q R : A -> Prop)
    `{!forall x, Decision (P x)} `{!forall x, Decision (Q x)} `{!forall x, Decision (R x)}
    (l : list A) :
  (forall x, P x <-> Q x \/ R x) -> (forall x, Q x -> R x -> False) ->
  length (filter P l) = (length (filter Q l) + length (filter R l))%nat.
Proof.
  intros Hiff Hdis. induction l as [|x l IH]; [done |].
  rewrite !filter_cons.
  destruct (decide (P x)) as [HP | HP], (decide (Q x)) as [HQ | HQ],
    (decide (R x)) as [HR | HR]; simpl; rewrite IH; try lia.
  - by destruct (Hdis x).
  - apply Hiff in HP as [? | ?]; done.
  - destruct HP. apply Hiff. by left.
  - destruct HP. apply Hiff. by left.
  - destruct HP. apply Hiff. by right.
Qed.

Lemma count_ext {A} (P Q : A -> Prop)
    `{!forall x, Decision (P x)} `{!forall x, Decision (Q x)} (l : list A) :
  (forall x, x ∈ l -> (P x <-> Q x)) -> length (filter P l) = length (filter Q l).
Proof.
  induction l as [|x l IH]; intros Hiff; [done |].
  rewrite !filter_cons.
  assert (length (filter P l) = length (filter Q l)) as Hl.
  { apply IH. intros y Hy. apply Hiff. by right. }
  pose proof (Hiff x ltac:(by left)) as Hx.
  destruct (decide (P x)), (decide (Q x)); simpl; rewrite ?Hl; tauto.
Qed.

Lemma count_add_one {A} (P P' : A -> Prop)
    `{!forall x, Decision (P x)} `{!forall x, Decision (P' x)} (l : list A) (x0 : A) :
  NoDup l -> x0 ∈ l -> (forall x, x ∈ l -> x <> x0 -> (P' x <-> P x)) ->
  ~ P x0 -> P' x0 ->
  length (filter P' l) = S (length (filter P l)).
Proof.
  intros Hnd Hin Hiff Hno Hyes. induction Hnd as [|x l Hx Hnd IH]; [by inversion Hin |].
  rewrite !filter_cons. apply elem_of_cons in Hin as [<- | Hin].
  - rewrite decide_True by done. rewrite decide_False by done. simpl. f_equal.
    apply count_ext. intros y Hy. apply Hiff; [by right |]. by intros ->.
  - assert (x <> x0) as Hne by (by intros ->).
    pose proof (Hiff x ltac:(by left) Hne) as Hxx.
    assert (length (filter P' l) = S (length (filter P l))) as Hl.
    { apply IH; [done |]. intros y Hy. apply Hiff. by right. }
    destruct (decide (P' x)), (decide (P x)); simpl; rewrite ?Hl; tauto.
Qed.

Lemma elem_of_all_cells g c : c ∈ all_cells g <-> in_grid g c.
Proof.
  unfold all_cells, in_grid, range. rewrite list_elem_of_bind. split.
  - intros (y & (x & -> & Hx%elem_of_seqZ)%list_elem_of_fmap & Hy%elem_of_seqZ).
    simpl. lia.
  - intros [Hx Hy]. exists c.2. split; [| apply elem_of_seqZ; lia].
    apply list_elem_of_fmap. exists c.1. split; [by destruct c | apply elem_of_seqZ; lia].
Qed.

Lemma NoDup_all_cells g : NoDup (all_cells g).
Proof.
  unfold all_cells, range. apply NoDup_bind.
  - intros y1 y2 c _ _ (x1 & -> & _)%list_elem_of_fmap (x2 & [= _ ->] & _)%list_elem_of_fmap.
    done.
  - intros y _. apply NoDup_fmap_2; [| apply NoDup_seqZ]. by intros x1 x2 [= ->].
  - apply NoDup_seqZ.
Qed.

Lemma all_cells_lines g g' : Grid.lines g' = Grid.lines g -> all_cells g' = all_cells g.
Proof. intros H. unfold all_cells. by rewrite (width_lines _ _ H), (height_lines _ _ H). Qed.

(** ** Reading and writing the cells *)

Lemma get_room_in_grid g x y l :
  Grid.get_room g x y = Some l -> 0 <= x < Grid.width g /\ 0 <= y < Grid.height g.
Proof.
  unfold Grid.get_room.
  destruct ((y <? 0) || (y >=? Grid.height g)) eqn:Hy; [done |].
  destruct ((x <? 0) || (x >=? Grid.width g)) eqn:Hx; [done |].
  intros _. apply orb_false_elim in Hy as [??], Hx as [??]. lia.
Qed.

Lemma get_connected_room_above_eq g x y :
  0 < y -> Grid.is_wall g x (y - 1) = false ->
  Grid.get_connected_room_above g x y = Grid.get_room g x (y - 1).
Proof.
  intros Hy Hw. unfold Grid.get_connected_room_above.
  destruct (y <=? 0) eqn:?; [lia |]. by rewrite Hw.
Qed.

Lemma get_connected_room_above_inv g x y l :
  Grid.get_connected_room_above g x y = Some l ->
  0 < y /\ Grid.is_wall g x (y - 1) = false /\ Grid.get_room g x (y - 1) = Some l.
Proof.
  unfold Grid.get_connected_room_above.
  destruct (y <=? 0) eqn:?; [done |].
  destruct (Grid.is_wall g x (y - 1)); [done |]. intros H. split_and!; [lia | done | done].
Qed.

(** ** What the parts of a step do to the regions *)

Lemma same_regions_refl h : same_regions h h.
Proof. split_and!; [done | done |]. intros r rec Hr Hm. by exists rec. Qed.

Lemma same_regions_trans h1 h2 h3 :
  same_regions h1 h2 -> same_regions h2 h3 -> same_regions h1 h3.
Proof.
  intros (Hl1 & Hr1 & Hc1) (Hl2 & Hr2 & Hc2). split_and!.
  - congruence.
  - intros l r. by rewrite Hr2, Hr1.
  - intros r rec3 Hr3 Hm3. destruct (Hc2 _ _ Hr3 Hm3) as (rec2 & Hrec2 & Hm2 & Heq2).
    destruct (Hc1 _ _ Hrec2 Hm2) as (rec1 & Hrec1 & Hm1 & Heq1).
    exists rec1. split_and!; [done | done | congruence].
Qed.

Lemma compressed_same_regions h h' : forest h -> compressed h h' -> same_regions h h'.
Proof.
  intros Hf Hc. split_and!.
  - by apply compressed_length.
  - intros l r. split; [by apply compressed_resolves_rev | by apply compressed_resolves].
  - intros r rec' Hr Hm. exists rec'. split_and!; [| done | done].
    by eapply compressed_root_lookup_rev.
Qed.

Lemma insert_same_regions h root rec rec' :
  h !! root = Some rec -> Room.merged_into rec' = Room.merged_into rec ->
  Room.chairs rec' = Room.chairs rec -> same_regions h (<[root := rec']> h).
Proof.
  intros Hroot Hm Hc. split_and!.
  - by rewrite length_insert.
  - intros l r. by eapply insert_resolves.
  - intros r rec2 Hr Hm2. destruct (decide (r = root)) as [-> | Hne].
    + rewrite list_lookup_insert_eq in Hr by (by eapply lookup_lt_Some).
      injection Hr as <-. exists rec. split_and!; [done | congruence | done].
    + rewrite list_lookup_insert_ne in Hr by done. by exists rec2.
Qed.

Lemma root_write_same_regions h h' cur f :
  forest h -> root_write cur f h h' ->
  (forall r, Room.merged_into (f r) = Room.merged_into r) ->
  (forall r, Room.chairs (f r) = Room.chairs r) ->
  same_regions h h'.
Proof.
  intros Hf (h1 & root & r & Hc & Hres & Hroot & Hm & ->) Hfm Hfc.
  eapply same_regions_trans; [by apply compressed_same_regions |].
  by eapply insert_same_regions.
Qed.

Lemma name_part_same_regions h h' cur char buf buf' :
  forest h -> name_part cur char buf h h' buf' -> same_regions h h'.
Proof.
  intros Hf. unfold name_part. case_bool_decide; [intros [-> _]; apply same_regions_refl |].
  destruct buf as [b|]; [| intros [-> _]; apply same_regions_refl].
  case_bool_decide; [| intros [-> _]; apply same_regions_refl].
  intros [Hw _]. by eapply root_write_same_regions.
Qed.

Lemma same_regions_class h h' g c r :
  same_regions h h' -> class h' g c r <-> class h g c r.
Proof.
  intros (_ & Hres & _). unfold class. split; intros (l & Hl & Hr); exists l; by rewrite ?Hres in *.
Qed.

Lemma region_of_ext h h' g g' c :
  (forall r, class h' g' c r <-> class h g c r) -> region_of h' g' c = region_of h g c.
Proof.
  intros Hiff. apply option_eq. intros r. by rewrite !region_of_class.
Qed.

Lemma chairs_in_ext reg reg' g0 r t :
  (forall c, in_grid g0 c -> (reg' c = Some r <-> reg c = Some r)) ->
  chairs_in reg' g0 r t = chairs_in reg g0 r t.
Proof.
  intros Hiff. unfold chairs_in. f_equal. apply count_ext.
  intros c Hc%elem_of_all_cells. by rewrite (Hiff c Hc).
Qed.

Lemma chairs_in_zero reg g0 r t :
  (forall c, in_grid g0 c -> reg c <> Some r) -> chairs_in reg g0 r t = 0.
Proof.
  intros Hno. unfold chairs_in.
  rewrite (count_ext _ (fun _ => False)).
  - by induction (all_cells g0).
  - intros c Hc%elem_of_all_cells. split; [| done]. intros [? _]. by eapply Hno.
Qed.

Lemma same_regions_tallies g0 h h' g :
  same_regions h h' -> tallies_ok g0 h g -> tallies_ok g0 h' g.
Proof.
  intros Hsame Htal r rec' t Hr Hm.
  destruct Hsame as (Hlen & Hres & Hch). destruct (Hch _ _ Hr Hm) as (rec & Hrec & Hmr & ->).
  rewrite (Htal _ _ t Hrec Hmr). symmetry. apply chairs_in_ext. intros c _.
  rewrite (region_of_ext h h' g g c); [done |].
  intros r'. apply same_regions_class. by split_and!.
Qed.

Lemma alloc_resolves_rev h r0 l root :
  forest h -> (l < length h)%nat -> resolves (h ++ [r0]) l root -> resolves h l root.
Proof.
  intros Hf Hl Hres. destruct (Hf l Hl) as [root' Hroot'].
  pose proof (alloc_resolves h r0 _ _ Hroot') as Hres'.
  by rewrite (resolves_fun _ _ _ _ Hres Hres').
Qed.

Lemma alloc_class h r0 g c r :
  forest h -> cells_ok (length h) g -> class (h ++ [r0]) g c r <-> class h g c r.
Proof.
  intros Hf Hcells. unfold class. split; intros (l & Hl & Hr); exists l; (split; [done |]).
  - eapply alloc_resolves_rev; [done | | done]. by eapply get_room_valid.
  - by apply alloc_resolves.
Qed.

Lemma class_root_lt h g c r : class h g c r -> (r < length h)%nat.
Proof.
  intros (l & _ & Hres). destruct (resolves_is_root _ _ _ Hres) as (rec & Hrec & _).
  by eapply lookup_lt_Some.
Qed.

Lemma alloc_tallies g0 h g k :
  forest h -> cells_ok (length h) g -> tallies_ok g0 h g ->
  tallies_ok g0 (h ++ [Room.init k]) g.
Proof.
  intros Hf Hcells Htal r rec t Hr Hm.
  destruct (decide (r < length h)%nat) as [Hlt | Hge].
  - rewrite lookup_app_l in Hr by done. rewrite (Htal _ _ t Hr Hm).
    symmetry. apply chairs_in_ext. intros c _.
    rewrite (region_of_ext h (h ++ [Room.init k]) g g c); [done |].
    intros r'. by apply alloc_class.
  - assert (r = length h) as ->.
    { apply lookup_lt_Some in Hr. rewrite length_app in Hr. simpl in Hr. lia. }
    rewrite list_lookup_middle in Hr by done. injection Hr as <-.
    rewrite chairs_in_zero; [by destruct t |].
    intros c _ Hc. apply region_of_class, alloc_class in Hc; [| done | done].
    apply class_root_lt in Hc. lia.
Qed.

Lemma merged_class h g fa fc ra rc c r' :
  forest h -> fa <> fc -> h !! fa = Some ra -> h !! fc = Some rc ->
  Room.merged_into ra = None -> Room.merged_into rc = None ->
  class (merged_heap h fa fc ra rc) g c r' <->
  exists r, class h g c r /\ r' = if decide (r = fc) then fa else r.
Proof.
  intros Hf Hne Ha Hc Hma Hmc. unfold class. split.
  - intros (l & Hl & Hres).
    destruct (merged_heap_resolves_rev h fa fc ra rc Hne Ha Hc Hma Hmc l r' Hf Hres)
      as (r & Hr & ->).
    exists r. split; [by exists l | done].
  - intros (r & (l & Hl & Hres) & ->). exists l. split; [done |].
    by apply merged_heap_resolves.
Qed.

Lemma merged_tallies g0 h g fa fc ra rc :
  forest h -> fa <> fc -> h !! fa = Some ra -> h !! fc = Some rc ->
  Room.merged_into ra = None -> Room.merged_into rc = None ->
  tallies_ok g0 h g -> tallies_ok g0 (merged_heap h fa fc ra rc) g.
Proof.
  intros Hf Hne Ha Hc Hma Hmc Htal r rec t Hr Hm.
  assert (forall c r', region_of (merged_heap h fa fc ra rc) g c = Some r' <->
            exists r0, region_of h g c = Some r0 /\ r' = if decide (r0 = fc) then fa else r0)
    as Hreg.
  { intros c r'. rewrite region_of_class, merged_class by done.
    by setoid_rewrite region_of_class. }
  destruct (decide (r = fa)) as [-> | Hnea].
  - rewrite merged_heap_survivor in Hr by done. injection Hr as <-. simpl.
    rewrite chair_get_sum, (Htal _ _ t Ha Hma), (Htal _ _ t Hc Hmc).
    unfold chairs_in. rewrite <- Nat2Z.inj_add. f_equal. symmetry. apply count_split.
    + intros c. rewrite Hreg. split.
      * intros [(r0 & Hr0 & Heq) Hch]. destruct (decide (r0 = fc)) as [-> | ?].
        -- by right.
        -- left. by subst r0.
      * intros [[Hr0 Hch] | [Hr0 Hch]]; (split; [| done]).
        -- exists fa. split; [done |]. by rewrite decide_False.
        -- exists fc. split; [done |]. by rewrite decide_True.
    + intros c [H1 _] [H2 _]. congruence.
  - destruct (decide (r = fc)) as [-> | Hnec].
    { rewrite merged_heap_absorbed in Hr by done. injection Hr as <-. done. }
    rewrite merged_heap_other in Hr by done. rewrite (Htal _ _ t Hr Hm).
    symmetry. apply chairs_in_ext. intros c _. rewrite Hreg. split.
    + intros (r0 & Hr0 & Heq). destruct (decide (r0 = fc)); congruence.
    + intros Hr0. exists r. split; [done |]. by rewrite decide_False.
Qed.

Lemma merge_part_tallies g0 h hm g above cur :
  forest h -> merge_part above cur h hm -> tallies_ok g0 h g -> tallies_ok g0 hm g.
Proof.
  intros Hf Hmp Htal. destruct above as [above|]; simpl in Hmp; [| by subst].
  destruct Hmp as (h2 & fa & fc & ra & rc & Hc & _ & _ & Ha & Hfc & Hma & Hmc & ->).
  assert (tallies_ok g0 h2 g) as Htal2.
  { eapply same_regions_tallies; [by apply compressed_same_regions | done]. }
  destruct (decide (fa = fc)); [done |].
  apply merged_tallies; try done. by eapply compressed_forest.
Qed.

Lemma region_of_frame h g g' x y c :
  (forall x' y', x' <> x \/ y' <> y -> Grid.get_room g' x' y' = Grid.get_room g x' y') ->
  c <> (x, y) -> region_of h g' c = region_of h g c.
Proof.
  intros Hframe Hne. unfold region_of. rewrite Hframe; [done |].
  destruct c as [cx cy]. simpl.
  destruct (decide (cx = x)) as [-> | ?]; [| by left].
  right. by intros ->.
Qed.

Lemma insert_region_of h root rec rec' g c :
  h !! root = Some rec -> Room.merged_into rec' = Room.merged_into rec ->
  region_of (<[root := rec']> h) g c = region_of h g c.
Proof.
  intros Hroot Hm. apply region_of_ext. intros r. unfold class.
  by setoid_rewrite (insert_resolves h root rec rec' _ _ Hroot Hm).
Qed.

Lemma enter_tallies g0 h hc g g' x y cur :
  forest h -> in_grid g0 (x, y) ->
  Grid.get_room g x y = None ->
  Grid.get_room g' x y = Some cur ->
  (forall x' y', x' <> x \/ y' <> y -> Grid.get_room g' x' y' = Grid.get_room g x' y') ->
  chair_part cur (Grid.get_char g0 x y) h hc ->
  tallies_ok g0 h g -> tallies_ok g0 hc g'.
Proof.
  intros Hf Hin Hold Hnew Hframe Hcp Htal. unfold chair_part in Hcp.
  destruct (chair_of_char (Grid.get_char g0 x y)) as [ty|] eqn:Hchar.
  - destruct Hcp as (h1 & root & rec0 & Hc & Hres & Hroot & Hm0 & ->).
    assert (tallies_ok g0 h1 g) as Htal1.
    { eapply same_regions_tallies; [by apply compressed_same_regions | done]. }
    set (bump := Room.set_chairs (chair_add (Room.chairs rec0) ty 1) rec0).
    assert (Room.merged_into bump = Room.merged_into rec0) as Hmb by done.
    assert (region_of (<[root := bump]> h1) g' (x, y) = Some root) as Hxy.
    { rewrite (insert_region_of _ _ rec0) by done. unfold region_of. simpl.
      rewrite Hnew. simpl. apply root_of_resolves. by apply compressed_resolves with h. }
    assert (region_of h1 g (x, y) = None) as Hxy0.
    { unfold region_of. simpl. by rewrite Hold. }
    intros r rec t Hr Hm.
    destruct (decide (r = root)) as [-> | Hne].
    + rewrite list_lookup_insert_eq in Hr by (by eapply lookup_lt_Some).
      injection Hr as <-. simpl. rewrite chair_get_add, (Htal1 _ _ t Hroot Hm0).
      unfold chairs_in. destruct (decide (t = ty)) as [-> | Hty].
      * rewrite (count_add_one
                   (fun c => region_of h1 g c = Some root /\
                             chair_of_char (Grid.get_char g0 c.1 c.2) = Some ty)
                   (fun c => region_of (<[root := bump]> h1) g' c = Some root /\
                             chair_of_char (Grid.get_char g0 c.1 c.2) = Some ty)
                   (all_cells g0) (x, y)).
        -- lia.
        -- apply NoDup_all_cells.
        -- by apply elem_of_all_cells.
        -- intros c _ Hcne. rewrite (insert_region_of _ _ rec0) by done.
           by rewrite (region_of_frame _ g g' x y).
        -- rewrite Hxy0. by intros [? _].
        -- done.
      * rewrite Z.add_0_r. f_equal. apply count_ext. intros c _.
        destruct (decide (c = (x, y))) as [-> | Hcne].
        -- simpl. rewrite Hchar, Hxy0. split; intros [? ?]; congruence.
        -- rewrite (insert_region_of _ _ rec0) by done.
           by rewrite (region_of_frame _ g g' x y).
    + rewrite list_lookup_insert_ne in Hr by done. rewrite (Htal1 _ _ t Hr Hm).
      unfold chairs_in. f_equal. apply count_ext. intros c _.
      destruct (decide (c = (x, y))) as [-> | Hcne].
      * rewrite Hxy, Hxy0. split; intros [? ?]; congruence.
      * rewrite (insert_region_of _ _ rec0) by done.
        by rewrite (region_of_frame _ g g' x y).
  - subst hc. intros r rec t Hr Hm. rewrite (Htal _ _ t Hr Hm).
    unfold chairs_in. f_equal. apply count_ext. intros c _.
    destruct (decide (c = (x, y))) as [-> | Hcne].
    + simpl. rewrite Hchar. unfold region_of at 1. simpl. rewrite Hold. simpl.
      split; intros [? ?]; congruence.
    + by rewrite (region_of_frame _ g g' x y).
Qed.

Lemma cell_neq (c : Z * Z) x y : c <> (x, y) -> c.1 <> x \/ c.2 <> y.
Proof.
  destruct c as [cx cy]. simpl. intros Hne.
  destruct (decide (cx = x)) as [-> | ?]; [| by left]. right. by intros ->.
Qed.

Lemma redirect_eq m r1 r2 :
  redirect m r1 = redirect m r2 -> r1 <> r2 ->
  exists fa fc, m = Some (fa, fc) /\ ((r1 = fc /\ r2 = fa) \/ (r1 = fa /\ r2 = fc)).
Proof.
  destruct m as [[fa fc]|]; simpl; [| done]. intros Heq Hne. exists fa, fc. split; [done |].
  destruct (decide (r1 = fc)), (decide (r2 = fc)); subst; try done; [by left | by right].
Qed.


Lemma insert_forest h root rec rec' :
  forest h -> h !! root = Some rec -> Room.merged_into rec' = Room.merged_into rec ->
  forest (<[root := rec']> h).
Proof.
  intros Hf Hroot Hm l Hl. rewrite length_insert in Hl. destruct (Hf l Hl) as [r Hr].
  exists r. by eapply insert_resolves.
Qed.

Lemma root_write_resolves h h' cur f :
  forest h -> root_write cur f h h' ->
  (forall r, Room.merged_into (f r) = Room.merged_into r) ->
  forest h' /\ length h' = length h /\ forall l r, resolves h' l r <-> resolves h l r.
Proof.
  intros Hf (h1 & root & rec & Hc & Hres & Hroot & Hm & ->) Hfm.
  pose proof (compressed_forest _ _ Hc Hf) as Hf1. split_and!.
  - by eapply insert_forest.
  - rewrite length_insert. by apply compressed_length.
  - intros l r. rewrite (insert_resolves h1 root rec (f rec)) by done.
    split; [by apply compressed_resolves_rev | by apply compressed_resolves].
Qed.

Lemma chair_part_resolves h hc cur char :
  forest h -> chair_part cur char h hc ->
  forest hc /\ length hc = length h /\ forall l r, resolves hc l r <-> resolves h l r.
Proof.
  intros Hf. unfold chair_part. destruct (chair_of_char char); [| by intros ->].
  intros Hw. by eapply root_write_resolves.
Qed.

Lemma merge_part_forest h hm above cur :
  forest h -> merge_part above cur h hm -> forest hm /\ length hm = length h.
Proof.
  intros Hf Hmp. destruct above as [above|]; simpl in Hmp; [| by subst].
  destruct Hmp as (h2 & fa & fc & ra & rc & Hc & _ & _ & Ha & Hfc & Hma & Hmc & ->).
  pose proof (compressed_forest _ _ Hc Hf) as Hf2.
  pose proof (compressed_length _ _ Hc) as Hl2.
  destruct (decide (fa = fc)); [done |]. split.
  - by apply merged_heap_forest.
  - by rewrite merged_heap_length.
Qed.

Lemma before_next x y c : before (x + 1) y c <-> before x y c \/ c = (x, y).
Proof.
  unfold before. destruct c as [cx cy]. simpl. split.
  - intros [? | [-> ?]]; [by left; left |].
    destruct (decide (cx = x)) as [-> | ?]; [by right |]. left. right. lia.
  - intros [[? | [-> ?]] | [= -> ->]]; [by left | right; lia | right; lia].
Qed.

Lemma not_before_here x y : ~ before x y (x, y).
Proof. unfold before. simpl. lia. Qed.

Lemma adjacent_before x y c :
  adjacent (x, y) c -> before (x + 1) y c -> c = (x - 1, y) \/ c = (x, y - 1).
Proof.
  unfold adjacent, before. destruct c as [cx cy]. simpl.
  intros Hadj Hb.
  destruct (decide (cx = x - 1 /\ cy = y)) as [[-> ->] | ?]; [by left |].
  destruct (decide (cx = x /\ cy = y - 1)) as [[-> ->] | ?]; [by right |]. lia.
Qed.


Lemma open_paren_floor g x y :
  Grid.get_char g x y = "("%char -> Grid.is_wall g x y = false.
Proof. intros H. unfold Grid.is_wall. by rewrite H. Qed.

(** ** Names and labels *)

Lemma row_chars_nil g y x : row_chars g y x x = "".
Proof. unfold row_chars. by rewrite Z.sub_diag. Qed.

Lemma foldr_string_snoc (f : Z -> ascii) (l : list Z) (a : Z) :
  foldr (fun x s => String (f x) s) "" (l ++ [a]) =
  foldr (fun x s => String (f x) s) "" l +:+ String (f a) "".
Proof.
  induction l as [|x l IH]; [done |]. simpl. rewrite IH. done.
Qed.

Lemma row_chars_snoc g y x0 x1 :
  x0 <= x1 ->
  row_chars g y x0 (x1 + 1) = row_chars g y x0 x1 +:+ String (Grid.get_char g x1 y) "".
Proof.
  intros Hle. unfold row_chars.
  replace (x1 + 1 - x0) with ((x1 - x0) + 1) by lia.
  rewrite seqZ_app by lia.
  replace (seqZ (x0 + (x1 - x0)) 1) with [x1] by (unfold seqZ; simpl; f_equal; lia).
  by rewrite (foldr_string_snoc (fun x => Grid.get_char g x y)).
Qed.

Lemma root_write_roots h h' cur f :
  forest h -> root_write cur f h h' ->
  forall r rec', h' !! r = Some rec' -> Room.merged_into rec' = None ->
    exists rec, h !! r = Some rec /\ Room.merged_into rec = None /\
                (rec' = rec \/ (resolves h cur r /\ rec' = f rec)).
Proof.
  intros Hf (h1 & root & rec0 & Hc & Hres & Hroot & Hm & ->) r rec' Hr Hm'.
  destruct (decide (r = root)) as [-> | Hne].
  - rewrite list_lookup_insert_eq in Hr by (by eapply lookup_lt_Some).
    injection Hr as <-. exists rec0. split_and!; [| done | by right].
    by eapply compressed_root_lookup_rev.
  - rewrite list_lookup_insert_ne in Hr by done. exists rec'.
    split_and!; [| done | by left]. by eapply compressed_root_lookup_rev.
Qed.

Lemma names_ok_same g0 h h' g :
  (forall l r, resolves h' l r <-> resolves h l r) ->
  (forall r rec', h' !! r = Some rec' -> Room.merged_into rec' = None ->
     exists rec, h !! r = Some rec /\ Room.merged_into rec = None /\
                 Room.name rec' = Room.name rec) ->
  names_ok g0 h g -> names_ok g0 h' g.
Proof.
  intros Hres Hroots Hnam r rec' s Hr Hm Hs.
  destruct (Hroots _ _ Hr Hm) as (rec & Hrec & Hmr & Heq). rewrite Heq in Hs.
  destruct (Hnam _ _ _ Hrec Hmr Hs) as (x0 & x1 & y & Hlab & l & Hl & Hcl).
  exists x0, x1, y. split; [done |]. exists l. split; [done |]. by apply Hres.
Qed.

Lemma compressed_names g0 h h' g :
  forest h -> compressed h h' -> names_ok g0 h g -> names_ok g0 h' g.
Proof.
  intros Hf Hc. apply names_ok_same.
  - by apply compressed_same_regions.
  - intros r rec' Hr Hm. exists rec'. split_and!; [| done | done].
    by eapply compressed_root_lookup_rev.
Qed.

Lemma alloc_names g0 h g k :
  forest h -> cells_ok (length h) g -> names_ok g0 h g ->
  names_ok g0 (h ++ [Room.init k]) g.
Proof.
  intros Hf Hcells Hnam r rec s Hr Hm Hs.
  destruct (decide (r < length h)%nat) as [Hlt | Hge].
  - rewrite lookup_app_l in Hr by done.
    destruct (Hnam _ _ _ Hr Hm Hs) as (x0 & x1 & y & Hlab & Hcl).
    exists x0, x1, y. split; [done |]. by apply alloc_class.
  - assert (r = length h) as ->.
    { apply lookup_lt_Some in Hr. rewrite length_app in Hr. simpl in Hr. lia. }
    rewrite list_lookup_middle in Hr by done. by injection Hr as <-.
Qed.

Lemma merged_names g0 h g fa fc ra rc :
  forest h -> fa <> fc -> h !! fa = Some ra -> h !! fc = Some rc ->
  Room.merged_into ra = None -> Room.merged_into rc = None ->
  names_ok g0 h g -> names_ok g0 (merged_heap h fa fc ra rc) g.
Proof.
  intros Hf Hne Ha Hc Hma Hmc Hnam r rec s Hr Hm Hs.
  destruct (decide (r = fa)) as [-> | Hnea].
  - rewrite merged_heap_survivor in Hr by done. injection Hr as <-. simpl in Hs.
    unfold merged_name in Hs.
    destruct (truthy (Room.name rc) && negb (truthy (Room.name ra))).
    + destruct (Hnam _ _ _ Hc Hmc Hs) as (x0 & x1 & y & Hlab & Hcl).
      exists x0, x1, y. split; [done |]. apply merged_class; try done.
      exists fc. split; [done |]. by rewrite decide_True.
    + destruct (Hnam _ _ _ Ha Hma Hs) as (x0 & x1 & y & Hlab & Hcl).
      exists x0, x1, y. split; [done |]. apply merged_class; try done.
      exists fa. split; [done |]. by rewrite decide_False.
  - destruct (decide (r = fc)) as [-> | Hnec].
    { rewrite merged_heap_absorbed in Hr by done. injection Hr as <-. done. }
    rewrite merged_heap_other in Hr by done.
    destruct (Hnam _ _ _ Hr Hm Hs) as (x0 & x1 & y & Hlab & Hcl).
    exists x0, x1, y. split; [done |]. apply merged_class; try done.
    exists r. split; [done |]. by rewrite decide_False.
Qed.

Lemma merge_part_names g0 h hm g above cur :
  forest h -> merge_part above cur h hm -> names_ok g0 h g -> names_ok g0 hm g.
Proof.
  intros Hf Hmp Hnam. destruct above as [above|]; simpl in Hmp; [| by subst].
  destruct Hmp as (h2 & fa & fc & ra & rc & Hc & _ & _ & Ha & Hfc & Hma & Hmc & ->).
  pose proof (compressed_names g0 _ _ g Hf Hc Hnam) as Hnam2.
  destruct (decide (fa = fc)); [done |].
  apply merged_names; try done. by eapply compressed_forest.
Qed.

Lemma chair_part_names g0 h hc g cur char :
  forest h -> chair_part cur char h hc -> names_ok g0 h g -> names_ok g0 hc g.
Proof.
  intros Hf. unfold chair_part. destruct (chair_of_char char) as [ty|]; [| by intros ->].
  intros Hw. apply names_ok_same.
  - by eapply root_write_resolves.
  - intros r rec' Hr Hm. destruct (root_write_roots _ _ _ _ Hf Hw r rec' Hr Hm)
      as (rec & Hrec & Hmr & [-> | [_ ->]]); by exists rec.
Qed.

Lemma set_room_names g0 h g g' x y :
  Grid.get_room g x y = None ->
  (forall x' y', x' <> x \/ y' <> y -> Grid.get_room g' x' y' = Grid.get_room g x' y') ->
  names_ok g0 h g -> names_ok g0 h g'.
Proof.
  intros Hold Hframe Hnam r rec s Hr Hm Hs.
  destruct (Hnam _ _ _ Hr Hm Hs) as (x0 & x1 & y1 & Hlab & l & Hl & Hres).
  exists x0, x1, y1. split; [done |]. exists l. split; [| done].
  simpl in *. rewrite Hframe; [done |].
  destruct (decide (x1 = x)) as [-> | ?]; [| by left]. right. intros ->. congruence.
Qed.

Lemma name_part_names g0 x y cur buf buf' h h' g :
  forest h -> 0 <= y < Grid.height g0 -> 0 <= x < Grid.width g0 ->
  Grid.get_room g x y = Some cur ->
  (forall b, buf = Some b ->
     exists x0, 0 <= x0 < x /\ Grid.get_char g0 x0 y = "("%char /\
                clear_between g0 y x0 x /\ b = row_chars g0 y (x0 + 1) x) ->
  name_part cur (Grid.get_char g0 x y) buf h h' buf' ->
  names_ok g0 h g -> names_ok g0 h' g.
Proof.
  intros Hf Hy Hx Hget Hbuf Hnp Hnam. unfold name_part in Hnp.
  case_bool_decide as Hopen; [by destruct Hnp as [-> _] |].
  destruct buf as [b|]; [| by destruct Hnp as [-> _]].
  case_bool_decide as Hclose; [| by destruct Hnp as [-> _]].
  destruct Hnp as [Hw _].
  destruct (root_write_resolves _ _ _ _ Hf Hw ltac:(done)) as (Hf' & Hlen & Hres).
  intros r rec' s Hr Hm Hs.
  destruct (root_write_roots _ _ _ _ Hf Hw r rec' Hr Hm)
    as (rec & Hrec & Hmr & [-> | [Hcur ->]]).
  - destruct (Hnam _ _ _ Hrec Hmr Hs) as (x0 & x1 & y1 & Hlab & l & Hl & Hcl).
    exists x0, x1, y1. split; [done |]. exists l. split; [done |]. by apply Hres.
  - simpl in Hs. injection Hs as <-.
    destruct (Hbuf b eq_refl) as (x0 & Hx0 & Hopen0 & Hclear & ->).
    exists x0, x, y. split.
    + unfold label. split_and!; try done; lia.
    + exists cur. split; [done |]. by apply Hres.
Qed.

Lemma name_part_buffer g0 x y cur buf buf' h h' :
  0 <= x -> Grid.is_wall g0 x y = false ->
  (forall b, buf = Some b ->
     exists x0, 0 <= x0 < x /\ Grid.get_char g0 x0 y = "("%char /\
                clear_between g0 y x0 x /\ b = row_chars g0 y (x0 + 1) x) ->
  name_part cur (Grid.get_char g0 x y) buf h h' buf' ->
  forall b, buf' = Some b ->
    exists x0, 0 <= x0 < x + 1 /\ Grid.get_char g0 x0 y = "("%char /\
               clear_between g0 y x0 (x + 1) /\ b = row_chars g0 y (x0 + 1) (x + 1).
Proof.
  intros Hx Hw Hbuf Hnp b' Hb'. unfold name_part in Hnp.
  case_bool_decide as Hopen.
  { destruct Hnp as [_ ->]. injection Hb' as <-. exists x. split_and!; [lia | lia | done | |].
    - intros x' ?. lia.
    - by rewrite row_chars_nil. }
  destruct buf as [b|]; [| destruct Hnp as [_ ->]; done].
  case_bool_decide as Hclose; [destruct Hnp as [_ ->]; done |].
  destruct Hnp as [_ ->]. injection Hb' as <-.
  destruct (Hbuf b eq_refl) as (x0 & Hx0 & Hopen0 & Hclear & ->).
  exists x0. split_and!; [lia | lia | done | |].
  - intros x' Hx'. destruct (decide (x' = x)) as [-> | ?]; [done |]. apply Hclear. lia.
  - rewrite row_chars_snoc by lia. done.
Qed.

(** ** Labels give names *)

Lemma truthy_nonempty b : b <> "" -> truthy (Some b) = true.
Proof. intros Hb. simpl. by apply negb_true_iff, String.eqb_neq. Qed.

Lemma truthy_merged_name a c : truthy (merged_name a c) = truthy a || truthy c.
Proof.
  unfold merged_name. by destruct (truthy c) eqn:Hc, (truthy a) eqn:Ha; simpl; rewrite ?Ha, ?Hc.
Qed.

Lemma class_is_root h g c r : class h g c r -> is_root h r.
Proof. intros (l & _ & Hres). by eapply resolves_is_root. Qed.

Lemma labels_named_same g0 h h' g :
  (forall l r, resolves h' l r <-> resolves h l r) ->
  (forall r rec', h' !! r = Some rec' -> Room.merged_into rec' = None ->
     exists rec, h !! r = Some rec /\ Room.merged_into rec = None /\
                 Room.name rec' = Room.name rec) ->
  labels_named g0 h g -> labels_named g0 h' g.
Proof.
  intros Hres Hroots Hlab Hne x0 x1 y s r rec' Hl Hcl Hr.
  destruct (class_is_root _ _ _ _ Hcl) as (rec2 & Hr2 & Hm). rewrite Hr in Hr2.
  injection Hr2 as <-. destruct (Hroots _ _ Hr Hm) as (rec & Hrec & _ & ->).
  apply (Hlab Hne x0 x1 y s r rec); [done | | done].
  destruct Hcl as (l & Hget & Hcl). exists l. split; [done |]. by apply Hres.
Qed.

Lemma compressed_labels g0 h h' g :
  forest h -> compressed h h' -> labels_named g0 h g -> labels_named g0 h' g.
Proof.
  intros Hf Hc. apply labels_named_same.
  - by apply compressed_same_regions.
  - intros r rec' Hr Hm. exists rec'. split_and!; [| done | done].
    by eapply compressed_root_lookup_rev.
Qed.

Lemma alloc_labels g0 h g k :
  forest h -> cells_ok (length h) g -> labels_named g0 h g ->
  labels_named g0 (h ++ [Room.init k]) g.
Proof.
  intros Hf Hcells Hlab Hne x0 x1 y s r rec Hl Hcl Hr.
  apply alloc_class in Hcl; [| done | done].
  pose proof (class_root_lt _ _ _ _ Hcl) as Hlt. rewrite lookup_app_l in Hr by done.
  by eapply (Hlab Hne).
Qed.

Lemma merged_labels g0 h g fa fc ra rc :
  forest h -> fa <> fc -> h !! fa = Some ra -> h !! fc = Some rc ->
  Room.merged_into ra = None -> Room.merged_into rc = None ->
  labels_named g0 h g -> labels_named g0 (merged_heap h fa fc ra rc) g.
Proof.
  intros Hf Hne Ha Hc Hma Hmc Hlab Hno x0 x1 y s r' rec' Hl Hcl Hr.
  apply merged_class in Hcl as (r & Hcl & ->); try done.
  destruct (decide (r = fc)) as [-> | Hnec].
  - rewrite merged_heap_survivor in Hr by done. injection Hr as <-. simpl.
    rewrite truthy_merged_name, (Hlab Hno _ _ _ _ _ _ Hl Hcl Hc). apply orb_true_r.
  - destruct (decide (r = fa)) as [-> | Hnea].
    + rewrite merged_heap_survivor in Hr by done. injection Hr as <-. simpl.
      by rewrite truthy_merged_name, (Hlab Hno _ _ _ _ _ _ Hl Hcl Ha).
    + rewrite merged_heap_other in Hr by done. by eapply (Hlab Hno).
Qed.

Lemma merge_part_labels g0 h hm g above cur :
  forest h -> merge_part above cur h hm -> labels_named g0 h g -> labels_named g0 hm g.
Proof.
  intros Hf Hmp Hlab. destruct above as [above|]; simpl in Hmp; [| by subst].
  destruct Hmp as (h2 & fa & fc & ra & rc & Hc & _ & _ & Ha & Hfc & Hma & Hmc & ->).
  pose proof (compressed_labels g0 _ _ g Hf Hc Hlab) as Hlab2.
  destruct (decide (fa = fc)); [done |].
  apply merged_labels; try done. by eapply compressed_forest.
Qed.

Lemma chair_part_labels g0 h hc g cur char :
  forest h -> chair_part cur char h hc -> labels_named g0 h g -> labels_named g0 hc g.
Proof.
  intros Hf. unfold chair_part. destruct (chair_of_char char) as [ty|]; [| by intros ->].
  intros Hw. apply labels_named_same.
  - by eapply root_write_resolves.
  - intros r rec' Hr Hm. destruct (root_write_roots _ _ _ _ Hf Hw r rec' Hr Hm)
      as (rec & Hrec & Hmr & [-> | [_ ->]]); by exists rec.
Qed.

Lemma written_name_nonempty g0 x y b :
  0 <= x < Grid.width g0 -> 0 <= y < Grid.height g0 ->
  (forall x0 x1 y, ~ label g0 x0 x1 y "") ->
  (exists x0, 0 <= x0 < x /\ Grid.get_char g0 x0 y = "("%char /\
              clear_between g0 y x0 x /\ b = row_chars g0 y (x0 + 1) x) ->
  Grid.get_char g0 x y = ")"%char -> b <> "".
Proof.
  intros Hx Hy Hno (x0 & Hx0 & Hopen & Hclear & Heq) Hclose ->.
  apply (Hno x0 x y). unfold label. split_and!; try done; lia.
Qed.

Lemma name_part_labels g0 x y cur buf buf' h h' g :
  forest h -> 0 <= x < Grid.width g0 -> 0 <= y < Grid.height g0 ->
  (forall b, buf = Some b ->
     exists x0, 0 <= x0 < x /\ Grid.get_char g0 x0 y = "("%char /\
                clear_between g0 y x0 x /\ b = row_chars g0 y (x0 + 1) x) ->
  name_part cur (Grid.get_char g0 x y) buf h h' buf' ->
  labels_named g0 h g -> labels_named g0 h' g.
Proof.
  intros Hf Hx Hy Hbuf Hnp Hlab Hno x0 x1 y1 s r rec' Hl Hcl Hr. unfold name_part in Hnp.
  case_bool_decide as Hopen; [destruct Hnp as [-> _]; by eapply (Hlab Hno) |].
  destruct buf as [b|] eqn:Hb; [| destruct Hnp as [-> _]; by eapply (Hlab Hno)].
  case_bool_decide as Hclose; [| destruct Hnp as [-> _]; by eapply (Hlab Hno)].
  destruct Hnp as [Hw _].
  destruct (root_write_resolves _ _ _ _ Hf Hw ltac:(done)) as (Hf' & Hlen & Hres).
  destruct (class_is_root _ _ _ _ Hcl) as (rec2 & Hr2 & Hm). rewrite Hr in Hr2.
  injection Hr2 as <-.
  destruct (root_write_roots _ _ _ _ Hf Hw r rec' Hr Hm)
    as (rec & Hrec & Hmr & [-> | [Hcur ->]]).
  - apply (Hlab Hno x0 x1 y1 s r rec); [done | | done].
    destruct Hcl as (l & Hget & Hcl). exists l. split; [done |]. by apply Hres.
  - simpl. apply truthy_nonempty. eapply written_name_nonempty; eauto.
Qed.

Lemma name_part_here g0 x y cur buf buf' h h' x0 s r rec :
  forest h -> 0 <= x < Grid.width g0 -> 0 <= y < Grid.height g0 ->
  (forall b, buf = Some b ->
     exists x0, 0 <= x0 < x /\ Grid.get_char g0 x0 y = "("%char /\
                clear_between g0 y x0 x /\ b = row_chars g0 y (x0 + 1) x) ->
  (forall x0, 0 <= x0 < x -> Grid.get_char g0 x0 y = "("%char ->
     (forall x', x0 < x' < x ->
        Grid.is_wall g0 x' y = false /\ Grid.get_char g0 x' y <> ")"%char) ->
     is_Some buf) ->
  name_part cur (Grid.get_char g0 x y) buf h h' buf' ->
  (forall x0 x1 y, ~ label g0 x0 x1 y "") ->
  label g0 x0 x y s -> resolves h' cur r -> h' !! r = Some rec ->
  truthy (Room.name rec) = true.
Proof.
  intros Hf Hx Hy Hbuf Hfull Hnp Hno (Hx0 & Hx1 & _ & Hopen & Hclose & Hclear & _) Hres Hr.
  destruct (Hfull x0 ltac:(lia) Hopen) as [b Hb].
  { intros x' Hx'. by destruct (Hclear x' Hx') as (? & _ & ?). }
  unfold name_part in Hnp. rewrite Hclose in Hnp.
  rewrite bool_decide_eq_false_2 in Hnp by done. rewrite Hb in Hnp.
  rewrite bool_decide_eq_true_2 in Hnp by done. destruct Hnp as [Hw _].
  destruct (root_write_resolves _ _ _ _ Hf Hw ltac:(done)) as (_ & _ & Hres').
  destruct Hw as (h1 & root & rec0 & Hc & Hcur & Hroot & Hm & ->).
  apply Hres' in Hres. rewrite (resolves_fun _ _ _ _ Hres Hcur) in Hr.
  rewrite list_lookup_insert_eq in Hr by (by eapply lookup_lt_Some).
  injection Hr as <-. simpl. apply truthy_nonempty.
  eapply written_name_nonempty; eauto.
Qed.


Lemma set_room_labels g0 h g g' x y cur :
  Grid.get_room g x y = None -> Grid.get_room g' x y = Some cur ->
  (forall x' y', x' <> x \/ y' <> y -> Grid.get_room g' x' y' = Grid.get_room g x' y') ->
  ((forall x0 x1 y, ~ label g0 x0 x1 y "") ->
   forall x0 s r rec, label g0 x0 x y s -> resolves h cur r -> h !! r = Some rec ->
     truthy (Room.name rec) = true) ->
  labels_named g0 h g -> labels_named g0 h g'.
Proof.
  intros Hold Hnew Hframe Hhere Hlab Hno x0 x1 y1 s r rec Hl (l & Hget & Hres) Hr.
  simpl in Hget. destruct (decide (x1 = x /\ y1 = y)) as [[-> ->] | Hne].
  - rewrite Hnew in Hget. injection Hget as <-. by eapply (Hhere Hno).
  - rewrite Hframe in Hget by lia. apply (Hlab Hno x0 x1 y1 s r rec); [done | | done].
    by exists l.
Qed.

Lemma name_part_buffer_full g0 x y cur buf buf' h h' :
  (forall x0, 0 <= x0 < x -> Grid.get_char g0 x0 y = "("%char ->
     (forall x', x0 < x' < x ->
        Grid.is_wall g0 x' y = false /\ Grid.get_char g0 x' y <> ")"%char) ->
     is_Some buf) ->
  name_part cur (Grid.get_char g0 x y) buf h h' buf' ->
  forall x0, 0 <= x0 < x + 1 -> Grid.get_char g0 x0 y = "("%char ->
    (forall x', x0 < x' < x + 1 ->
       Grid.is_wall g0 x' y = false /\ Grid.get_char g0 x' y <> ")"%char) ->
    is_Some buf'.
Proof.
  intros Hfull Hnp x0 Hx0 Hopen Hclear. unfold name_part in Hnp.
  case_bool_decide as Hop; [by destruct Hnp as [_ ->] |].
  assert (x0 <> x) as Hne by (by intros ->).
  destruct (Hfull x0 ltac:(lia) Hopen) as [b ->].
  { intros x' Hx'. apply Hclear. lia. }
  destruct (Hclear x ltac:(lia)) as [_ Hcl].
  rewrite bool_decide_eq_false_2 in Hnp by done. by destruct Hnp as [_ ->].
Qed.

Section cell_steps.
Context (g0 : Grid.t) (x y : Z) (st st' : Parser.state).
Hypothesis Hinv : scan_inv g0 x y st.
Hypothesis Hx : 0 <= x < Grid.width g0.
Hypothesis Hy : 0 <= y < Grid.height g0.
Hypothesis Hcell : Parser.scan_cell y st x = Some st'.

Lemma wall_step_inv : Grid.is_wall g0 x y = true -> scan_inv g0 (x + 1) y st'.
Proof using All.
  intros Hw. destruct Hinv as (Hst & Hlines & Hcov & Hnj & Hcc & Hru & Htal & Hcur & Hnam & Hbuf & Hlab & Hfull).
  unfold Parser.scan_cell in Hcell. rewrite (is_wall_lines _ _ _ _ Hlines), Hw in Hcell.
  injection Hcell as <-. simpl.
  assert (~ floor_cell g0 (x, y)) as Hnf.
  { intros [_ Hf]. simpl in Hf. congruence. }
  split_and!; try done.
  - by apply close_room_ok.
  - intros c. simpl. rewrite (Hcov c), before_next. split; [intros [? ?]; by split; [| left] |].
    intros [Hf [? | ->]]; done.
  - intros c1 c2 H1 H2 [Hb1 | ->]%before_next [Hb2 | ->]%before_next; try done.
    by apply Hnj.
  - unfold cur_ok. simpl. rewrite decide_False by lia.
    replace (x + 1 - 1) with x by lia. by rewrite Hw.
  - intros x0 Hx0 Hopen Hclear. destruct (decide (x0 = x)) as [-> | Hne].
    + apply open_paren_floor in Hopen. congruence.
    + destruct (Hclear x ltac:(lia)) as [Hwx _]. congruence.
Qed.

Lemma floor_step_facts :
  Grid.is_wall g0 x y = false -> exists cur m, floor_step g0 x y st st' cur m.
Proof using All.
  intros Hw. destruct Hinv as (Hst & Hlines & Hcov & Hnj & Hcc & Hru & Htal & Hcur & Hnam & Hbuf & Hlab & Hfull).
  pose proof (width_lines _ _ Hlines) as Hwid.
  pose proof (height_lines _ _ Hlines) as Hhei.
  assert (Grid.is_wall (Parser.grid st) x y = false) as Hw'
    by (by rewrite (is_wall_lines _ _ _ _ Hlines)).
  destruct (scan_cell_spec y st x Hst ltac:(lia) ltac:(lia))
    as (st1 & m & Hcell1 & Hst' & Hlines' & _ & _ & Hfloor & Hres & Hprov & _).
  rewrite Hcell in Hcell1. injection Hcell1 as <-.
  destruct (scan_cell_step y st x Hst ltac:(lia) ltac:(lia))
    as (st1 & Hcell1 & _ & _ & Hstep).
  rewrite Hcell in Hcell1. injection Hcell1 as <-. rewrite Hw' in Hstep.
  destruct Hstep as (cur & h1 & hm & hc & Hcase & Hmp & Hcp & Hnp & Hcur' & Hset).
  destruct (Hfloor Hw') as (cur1 & Hcur1 & _ & Hjoin).
  rewrite Hcur' in Hcur1. injection Hcur1 as <-.
  destruct Hst as (Hok & Hcnt & Hcells & Hvalid).
  destruct (set_room_frame (Parser.grid st) x y cur (grid_shaped_of_cells_ok _ _ Hcells)
              ltac:(lia) ltac:(lia)) as (g' & Hset' & Hget & Hframe & _ & _).
  rewrite Hset in Hset'. injection Hset' as <-.
  assert (Grid.get_room (Parser.grid st) x y = None) as Hold.
  { destruct (Grid.get_room (Parser.grid st) x y) as [l|] eqn:Hl; [| done].
    destruct (proj1 (Hcov (x, y)) ltac:(by simpl; rewrite Hl)) as [_ Hb].
    by apply not_before_here in Hb. }
  assert (forest h1 /\ tallies_ok g0 h1 (Parser.grid st) /\
          (h1 = Parser.st_heap st \/
           (Parser.current_room st = None /\
            h1 = Parser.st_heap st ++ [Room.init (Parser.room_counter st + 1)])))
    as (Hf1 & Htal1 & Hh1).
  { destruct Hcase as [[Hc ->] | (Hc & -> & ->)].
    - split_and!; [apply Hok | done | by left].
    - split_and!; [| | by right].
      + rewrite Hcnt. apply alloc_heap_ok, Hok.
      + apply alloc_tallies; [apply Hok | done | done]. }
  destruct (merge_part_forest _ _ _ _ Hf1 Hmp) as [Hfm Hlm].
  pose proof (merge_part_tallies g0 _ _ (Parser.grid st) _ _ Hf1 Hmp Htal1) as Htalm.
  rewrite (get_char_lines _ _ _ _ Hlines) in Hcp, Hnp.
  destruct (chair_part_resolves _ _ _ _ Hfm Hcp) as (Hfc & Hlc & Hresc).
  pose proof (enter_tallies g0 hm hc (Parser.grid st) (Parser.grid st') x y cur
                Hfm ltac:(by split) Hold Hget Hframe Hcp Htalm) as Htalc.
  pose proof (name_part_same_regions _ _ _ _ _ _ Hfc Hnp) as Hsame.
  assert (names_ok g0 h1 (Parser.grid st)) as Hnam1.
  { destruct Hcase as [[Hc ->] | (Hc & -> & ->)]; [done |].
    apply alloc_names; [apply Hok | done | done]. }
  pose proof (merge_part_names g0 _ _ (Parser.grid st) _ _ Hf1 Hmp Hnam1) as Hnamm.
  pose proof (set_room_names g0 hm _ (Parser.grid st') x y Hold Hframe Hnamm) as Hnamm'.
  pose proof (chair_part_names g0 _ _ (Parser.grid st') _ _ Hfm Hcp Hnamm') as Hnamc.
  pose proof (name_part_names g0 x y cur _ _ _ _ (Parser.grid st') Hfc Hy Hx Hget Hbuf Hnp
                Hnamc) as Hnam'.
  pose proof (name_part_buffer g0 x y cur _ _ _ _ ltac:(lia) Hw Hbuf Hnp) as Hbuf'.
  assert (labels_named g0 h1 (Parser.grid st)) as Hlab1.
  { destruct Hcase as [[Hc ->] | (Hc & -> & ->)]; [done |].
    apply alloc_labels; [apply Hok | done | done]. }
  pose proof (merge_part_labels g0 _ _ (Parser.grid st) _ _ Hf1 Hmp Hlab1) as Hlabm.
  pose proof (chair_part_labels g0 _ _ (Parser.grid st) _ _ Hfm Hcp Hlabm) as Hlabc.
  pose proof (name_part_labels g0 x y cur _ _ _ _ (Parser.grid st) Hfc Hx Hy Hbuf Hnp Hlabc)
    as Hlabn.
  assert (labels_named g0 (Parser.st_heap st') (Parser.grid st')) as Hlab'.
  { apply (set_room_labels g0 _ (Parser.grid st) _ x y cur Hold Hget Hframe); [| done].
    intros Hno x0 s r rec Hl Hr Hrec.
    by eapply (name_part_here g0 x y cur _ _ hc _ x0 s r rec Hfc Hx Hy Hbuf Hfull Hnp Hno). }
  pose proof (name_part_buffer_full g0 x y cur _ _ _ _ Hfull Hnp) as Hfull'.
  exists cur, m. unfold floor_step. split_and!; try done.
  - by rewrite Hlines'.
  - destruct Hcase as [[Hc _] | (Hc & -> & _)]; [left | by right].
    split; [done |]. by apply Hvalid.
  - destruct Hsame as (Hln & _). rewrite Hln, Hlc, Hlm.
    destruct Hh1 as [-> | [Hnone ->]]; [by left | right].
    split; [done |]. rewrite length_app. simpl. lia.
  - intros fa fc Hm. destruct (Hprov fa fc Hm) as (_ & Hne & above & Hab & Hra & Hc).
    split; [done |]. exists above. split_and!; try done.
    destruct Hc as [(cur2 & Hc2 & Hr2) | ?]; [left | by right].
    destruct Hcase as [[Hc' _] | (Hc' & _)]; [| congruence].
    rewrite Hc' in Hc2. by injection Hc2 as <-.
  - intros Hnone Hnoab. rewrite Hnoab in Hmp. simpl in Hmp. subst hm.
    destruct Hsame as (_ & Hresn & _). apply Hresn, Hresc.
    destruct Hcase as [[Hc _] | (_ & -> & ->)]; [congruence |].
    apply is_root_resolves, alloc_is_root.
  - by eapply same_regions_tallies.
Qed.


Section floor_steps.
Context (cur : loc) (m : option (loc * loc)).
Hypothesis Hw : Grid.is_wall g0 x y = false.
Hypothesis Hstep : floor_step g0 x y st st' cur m.

Lemma here_floor : floor_cell g0 (x, y).
Proof using Hx Hy Hw. by split; [split |]. Qed.

Lemma old_cell c l : Grid.get_room (Parser.grid st) c.1 c.2 = Some l -> c <> (x, y).
Proof using Hstep.
  pose proof Hstep as (_ & _ & _ & Hold & _). intros Hl ->. simpl in Hl. congruence.
Qed.

Lemma class_old c r' :
  c <> (x, y) ->
  class (Parser.st_heap st') (Parser.grid st') c r' <->
  exists r, class (Parser.st_heap st) (Parser.grid st) c r /\ r' = redirect m r.
Proof using Hinv Hstep.
  intros Hne. pose proof Hstep as (_ & _ & _ & _ & _ & Hframe & _ & _ & Hres & _).
  pose proof Hinv as (Hst & _). destruct Hst as ((Hf & _) & _ & Hcells & _).
  unfold class. rewrite (Hframe _ _ (cell_neq c x y Hne)). split.
  - intros (l & Hl & Hr'). destruct (Hf l (get_room_valid _ _ _ _ _ Hcells Hl)) as [r Hr].
    exists r. split; [by exists l |]. eapply resolves_fun; [done |]. by apply Hres.
  - intros (r & (l & Hl & Hr) & ->). exists l. split; [done |]. by apply Hres.
Qed.

Lemma class_here r' :
  class (Parser.st_heap st') (Parser.grid st') (x, y) r' <->
  resolves (Parser.st_heap st') cur r'.
Proof using Hstep.
  pose proof Hstep as (_ & _ & _ & _ & Hget & _). unfold class. simpl. rewrite Hget.
  split; [by intros (? & [= <-] & ?) | by exists cur].
Qed.

Lemma cur_root : exists rc, resolves (Parser.st_heap st') cur rc.
Proof using Hstep.
  pose proof Hstep as (((Hf & _) & _ & _ & Hvalid) & _ & Hcur' & _). by apply Hf, Hvalid.
Qed.

Lemma left_cell :
  floor_cell g0 (x - 1, y) <-> Grid.get_room (Parser.grid st) (x - 1) y = Some cur.
Proof using Hinv Hstep.
  pose proof Hinv as (Hst & Hlines & Hcov & _ & _ & _ & _ & Hcur & _). unfold cur_ok in Hcur.
  pose proof Hstep as (_ & _ & _ & _ & _ & _ & Hcase & _). split.
  - intros [[Hx1 Hy1] Hw1]. simpl in *. rewrite decide_False in Hcur by lia.
    rewrite Hw1 in Hcur.
    destruct (proj2 (Hcov (x - 1, y))) as [l Hl].
    { split; [by split |]. right. simpl. lia. }
    simpl in Hl. rewrite Hl in *. destruct Hcase as [[Hc _] | [Hc _]]; congruence.
  - intros Hl. by destruct (proj1 (Hcov (x - 1, y)) ltac:(by simpl; rewrite Hl)).
Qed.

Lemma old_cur : Parser.current_room st = Some cur -> floor_cell g0 (x - 1, y).
Proof using Hinv Hstep.
  intros Hc. apply left_cell.
  pose proof Hinv as (_ & _ & _ & _ & _ & _ & _ & Hcur & _). unfold cur_ok in Hcur.
  rewrite Hc in Hcur. destruct (decide (x = 0)); [done |].
  by destruct (Grid.is_wall g0 (x - 1) y).
Qed.

Lemma up_cell above :
  Grid.get_connected_room_above (Parser.grid st) x y = Some above <->
  floor_cell g0 (x, y - 1) /\ Grid.get_room (Parser.grid st) x (y - 1) = Some above.
Proof using Hinv.
  pose proof Hinv as (Hst & Hlines & Hcov & _). split.
  - intros (Hy0 & Hwa & Hl)%get_connected_room_above_inv. split; [| done].
    by destruct (proj1 (Hcov (x, y - 1)) ltac:(by simpl; rewrite Hl)).
  - intros [[[Hx1 Hy1] Hw1] Hl]. simpl in *.
    rewrite get_connected_room_above_eq; [done | lia |].
    by rewrite (is_wall_lines _ _ _ _ Hlines).
Qed.

Lemma up_floor :
  floor_cell g0 (x, y - 1) ->
  exists above, Grid.get_connected_room_above (Parser.grid st) x y = Some above.
Proof using Hinv.
  intros Hf. pose proof Hinv as (_ & _ & Hcov & _).
  destruct (proj2 (Hcov (x, y - 1))) as [l Hl].
  { split; [done |]. left. simpl. lia. }
  exists l. by apply up_cell.
Qed.

Lemma floor_step_covers : covers g0 (x + 1) y (Parser.grid st').
Proof using All.
  pose proof Hinv as (_ & _ & Hcov & _).
  pose proof Hstep as (_ & _ & _ & Hold & Hget & Hframe & _).
  intros c. rewrite before_next. destruct (decide (c = (x, y))) as [-> | Hne].
  - simpl. rewrite Hget. split; [| done]. intros _. split; [apply here_floor | by right].
  - rewrite (Hframe _ _ (cell_neq c x y Hne)), (Hcov c).
    split; [intros [? ?]; by split; [| left] | by intros [? [? | ?]]].
Qed.

Lemma floor_step_cur_ok : cur_ok g0 (x + 1) y st'.
Proof using Hx Hw Hstep.
  pose proof Hstep as (_ & _ & Hcur' & _ & Hget & _). unfold cur_ok.
  rewrite decide_False by lia. replace (x + 1 - 1) with x by lia. by rewrite Hw, Hcur', Hget.
Qed.

Lemma floor_step_rooms_used : rooms_used (Parser.st_heap st') (Parser.grid st').
Proof using Hinv Hstep.
  pose proof Hinv as (_ & _ & _ & _ & _ & Hru & _).
  pose proof Hstep as (_ & _ & _ & Hold & Hget & Hframe & Hcase & Hlen & _).
  intros l Hl. destruct (decide (l < length (Parser.st_heap st))%nat) as [Hlt | Hge].
  - destruct (Hru l Hlt) as [c Hc]. exists c.
    by rewrite (Hframe _ _ (cell_neq c x y (old_cell c l Hc))).
  - destruct Hlen as [Hlen | [Hnone Hlen]]; [lia |].
    destruct Hcase as [[? _] | [_ ->]]; [congruence |].
    exists (x, y). simpl. rewrite Hget. f_equal. lia.
Qed.

Lemma joined_here c :
  floor_cell g0 c -> before (x + 1) y c -> adjacent (x, y) c ->
  exists r, class (Parser.st_heap st') (Parser.grid st') (x, y) r /\
            class (Parser.st_heap st') (Parser.grid st') c r.
Proof using Hinv Hstep.
  intros Hf Hb Hadj. pose proof Hstep as (_ & _ & _ & _ & Hget & Hframe & _ & _ & _ & _ & Hjoin & _).
  destruct (adjacent_before _ _ _ Hadj Hb) as [-> | ->].
  - apply left_cell in Hf. destruct cur_root as [rc Hrc]. exists rc.
    split; [by apply class_here |]. exists cur. split; [| done].
    simpl. rewrite Hframe; [done |]. left. lia.
  - destruct (up_floor Hf) as [above Hab]. destruct (Hjoin _ Hab) as (r & Hra & Hrc).
    exists r. split; [by apply class_here |]. exists above. split; [| done].
    simpl. rewrite Hframe; [by apply up_cell | right; lia].
Qed.

Lemma floor_step_neighbours_joined :
  neighbours_joined g0 (x + 1) y (Parser.st_heap st') (Parser.grid st').
Proof using Hinv Hstep.
  pose proof Hinv as (_ & _ & _ & Hnj & _).
  intros c1 c2 Hf1 Hf2 Hb1 Hb2 Hadj.
  destruct (decide (c1 = (x, y))) as [-> | Hne1]; [by apply joined_here |].
  destruct (decide (c2 = (x, y))) as [-> | Hne2].
  { destruct (joined_here c1 Hf1 Hb1 (adjacent_sym _ _ Hadj)) as (r & ? & ?). by exists r. }
  apply before_next in Hb1 as [Hb1 | ?]; [| done].
  apply before_next in Hb2 as [Hb2 | ?]; [| done].
  destruct (Hnj c1 c2 Hf1 Hf2 Hb1 Hb2 Hadj) as (r & H1 & H2).
  exists (redirect m r). split; apply class_old; try done; by exists r.
Qed.

Lemma bridge fa fc c1 c2 :
  m = Some (fa, fc) ->
  class (Parser.st_heap st) (Parser.grid st) c1 fc ->
  class (Parser.st_heap st) (Parser.grid st) c2 fa ->
  connected g0 c1 c2.
Proof using All.
  intros Hm H1 H2. pose proof Hinv as (_ & _ & _ & _ & Hcc & _).
  pose proof Hstep as (_ & _ & _ & _ & _ & _ & _ & _ & _ & Hprov & _).
  destruct (Hprov _ _ Hm) as (Hne & above & Hab & Hra & Hc).
  apply up_cell in Hab as [Hfup Hup].
  assert (class (Parser.st_heap st) (Parser.grid st) (x, y - 1) fa) as Hcup by (by exists above).
  destruct Hc as [[Hc Hrc] | [Hc ->]].
  - pose proof (old_cur Hc) as Hfleft. pose proof (proj1 left_cell Hfleft) as Hleft.
    assert (class (Parser.st_heap st) (Parser.grid st) (x - 1, y) fc) as Hcleft by (by exists cur).
    eapply connected_trans; [by apply (Hcc c1 (x - 1, y) fc) |].
    apply connected_next with (x, y); [done | right; simpl; lia |].
    apply connected_next with (x, y - 1); [apply here_floor | left; simpl; lia |].
    by apply (Hcc (x, y - 1) c2 fa).
  - apply class_root_lt in H1. lia.
Qed.

Lemma connected_here_old c r' :
  c <> (x, y) ->
  class (Parser.st_heap st') (Parser.grid st') c r' ->
  resolves (Parser.st_heap st') cur r' ->
  connected g0 (x, y) c.
Proof using All.
  intros Hne Hc Hcur'. pose proof Hinv as (Hst & _ & _ & _ & Hcc & _).
  destruct Hst as ((Hf & _) & _ & Hcells & _).
  pose proof Hstep as (_ & _ & _ & _ & _ & _ & Hcase & _ & Hres & Hprov & Hjoin & Hnew & _).
  apply class_old in Hc as (r2 & Hc2 & ->); [| done].
  destruct Hcase as [[Hcold Hlt] | [Hcnew ->]].
  - destruct (Hf cur Hlt) as [rc0 Hrc0].
    pose proof (resolves_fun _ _ _ _ Hcur' (Hres _ _ Hrc0)) as Heq.
    pose proof (old_cur Hcold) as Hfleft. pose proof (proj1 left_cell Hfleft) as Hleft.
    assert (class (Parser.st_heap st) (Parser.grid st) (x - 1, y) rc0) as Hcleft
      by (by exists cur).
    destruct (decide (rc0 = r2)) as [-> | Hner].
    + apply connected_next with (x - 1, y); [apply here_floor | right; simpl; lia |].
      by apply (Hcc _ _ r2).
    + destruct (redirect_eq m r2 rc0 Heq ltac:(done)) as (fa & fc & Hm & Hcases).
      destruct (Hprov _ _ Hm) as (Hnea & above & Hab & Hra & Hc).
      destruct Hc as [[_ Hrc] | [? _]]; [| congruence].
      pose proof (resolves_fun _ _ _ _ Hrc Hrc0) as ->.
      destruct Hcases as [[-> _] | [-> _]]; [done |].
      apply up_cell in Hab as [Hfup Hup].
      apply connected_next with (x, y - 1); [apply here_floor | left; simpl; lia |].
      apply (Hcc _ _ fa); [by exists above | done].
  - destruct (Grid.get_connected_room_above (Parser.grid st) x y) as [above|] eqn:Hab.
    + destruct (Hjoin _ eq_refl) as (r & Hra' & Hrc').
      pose proof (resolves_fun _ _ _ _ Hcur' Hrc') as Heq. rewrite <- Heq in Hra'. clear Heq.
      apply up_cell in Hab as [Hfup Hup].
      destruct (Hf above (get_room_valid _ _ _ _ _ Hcells Hup)) as [ra Hra].
      pose proof (resolves_fun _ _ _ _ Hra' (Hres _ _ Hra)) as Heq.
      assert (class (Parser.st_heap st) (Parser.grid st) (x, y - 1) ra) as Hcup
        by (by exists above).
      destruct (decide (ra = r2)) as [-> | Hner].
      * apply connected_next with (x, y - 1); [apply here_floor | left; simpl; lia |].
        by apply (Hcc _ _ r2).
      * destruct (redirect_eq m r2 ra Heq ltac:(done)) as (fa & fc & Hm & Hcases).
        destruct (Hprov _ _ Hm) as (_ & _ & _ & _ & [[? _] | [_ ->]]); [congruence |].
        apply class_root_lt in Hc2, Hcup. destruct Hcases as [[-> _] | [_ ->]]; lia.
    + pose proof (resolves_fun _ _ _ _ Hcur' (Hnew Hcnew eq_refl)) as Heq.
      destruct m as [[fa fc]|] eqn:Hm.
      * by destruct (Hprov _ _ eq_refl) as (_ & above & ? & _).
      * simpl in Heq. apply class_root_lt in Hc2. lia.
Qed.

Lemma floor_step_classes_connected :
  classes_connected g0 (Parser.st_heap st') (Parser.grid st').
Proof using All.
  pose proof Hinv as (_ & _ & _ & _ & Hcc & _).
  intros c1 c2 r' H1 H2.
  destruct (decide (c1 = (x, y))) as [-> | Hne1], (decide (c2 = (x, y))) as [-> | Hne2].
  - constructor. apply here_floor.
  - apply connected_here_old with r'; [done | done | by apply class_here].
  - apply connected_sym, connected_here_old with r'; [done | done | by apply class_here].
  - apply class_old in H1 as (r1 & H1 & ->); [| done].
    apply class_old in H2 as (r2 & H2 & Heq); [| done].
    destruct (decide (r1 = r2)) as [-> | Hner]; [by apply (Hcc _ _ r2) |].
    destruct (redirect_eq m r1 r2 Heq Hner) as (fa & fc & Hm & [[-> ->] | [-> ->]]).
    + by apply bridge with fa fc.
    + apply connected_sym. by apply bridge with fa fc.
Qed.

Lemma floor_step_inv : scan_inv g0 (x + 1) y st'.
Proof using All.
  pose proof Hstep
    as (Hst' & Hlines' & _ & _ & _ & _ & _ & _ & _ & _ & _ & _ & Htal' & Hnam' & Hbuf' &
        Hlab' & Hfull').
  split_and!; [done | done | | | | | done | | done | done | done | done].
  - apply floor_step_covers.
  - apply floor_step_neighbours_joined.
  - apply floor_step_classes_connected.
  - apply floor_step_rooms_used.
  - apply floor_step_cur_ok.
Qed.

End floor_steps.

Lemma cell_step_inv : scan_inv g0 (x + 1) y st'.
Proof using All.
  destruct (Grid.is_wall g0 x y) eqn:Hw; [by apply wall_step_inv |].
  destruct (floor_step_facts Hw) as (cur & m & Hstep). by eapply floor_step_inv.
Qed.

End cell_steps.

(** ** The invariant along the rows *)

Lemma row_start_inv g0 y st :
  scan_inv g0 (Grid.width g0) y st -> scan_inv g0 0 (y + 1) (Parser.close_room st).
Proof.
  intros (Hst & Hlines & Hcov & Hnj & Hcc & Hru & Htal & Hcur & Hnam & Hbuf & Hlab & Hfull).
  assert (forall c, floor_cell g0 c -> before 0 (y + 1) c <-> before (Grid.width g0) y c)
    as Hb.
  { intros c [[Hx Hy] _]. unfold before. lia. }
  split_and!; try done.
  - by apply close_room_ok.
  - intros c. simpl. rewrite (Hcov c). split; intros [Hf ?]; (split; [done |]); by apply Hb.
  - intros c1 c2 H1 H2 Hb1 Hb2. simpl. apply Hnj; try done; by apply Hb.
  - intros x0 Hx0. lia.
Qed.

Lemma scan_row_inv g0 st y :
  0 <= y < Grid.height g0 ->
  scan_inv g0 0 y (Parser.close_room st) ->
  exists st', Parser.scan_row st y = Some st' /\ scan_inv g0 (Grid.width g0) y st'.
Proof.
  intros Hy Hinv. unfold Parser.scan_row.
  pose proof Hinv as (_ & Hlines & _). simpl in Hlines. rewrite (width_lines _ _ Hlines).
  apply (foldl_range_inv (Parser.scan_cell y) (fun x st => scan_inv g0 x y st));
    [apply width_nonneg | done |].
  intros x st1 Hx Hinv1. pose proof Hinv1 as (Hst1 & Hlines1 & _).
  destruct (scan_cell_step y st1 x Hst1) as (st2 & Hcell & _).
  - by rewrite (width_lines _ _ Hlines1).
  - by rewrite (height_lines _ _ Hlines1).
  - exists st2. split; [done |]. by eapply cell_step_inv.
Qed.

Lemma scan_start_inv text :
  scan_inv (Grid.init text) 0 0
    (Parser.close_room (Parser.mkState [] (Grid.init text) 0 None None)).
Proof.
  assert (forall c, floor_cell (Grid.init text) c -> ~ before 0 0 c) as Hb.
  { intros c [[Hx Hy] _]. unfold before. lia. }
  split_and!.
  - apply close_room_ok, initial_state_ok.
  - done.
  - intros c. simpl. rewrite init_get_room. split; [by intros [? ?] |].
    intros [Hf Hbc]. by destruct (Hb c).
  - intros c1 c2 H1 _ Hb1. by destruct (Hb c1).
  - intros c1 c2 r (l & Hl & _). simpl in Hl. by rewrite init_get_room in Hl.
  - intros l Hl. simpl in Hl. lia.
  - intros r rec t Hr. done.
  - done.
  - intros r rec s Hr. done.
  - by intros b Hb'.
  - intros _ x0 x1 y s r rec _ (l & Hl & _). simpl in Hl. by rewrite init_get_room in Hl.
  - intros x0 Hx0. lia.
Qed.

Lemma scan_inv_end text :
  exists st,
    Parser.scan text = Some st /\
    scan_inv (Grid.init text) 0 (Grid.height (Grid.init text)) (Parser.close_room st).
Proof.
  unfold Parser.scan.
  apply (foldl_range_inv Parser.scan_row
           (fun y st => scan_inv (Grid.init text) 0 y (Parser.close_room st))).
  - unfold Grid.height. lia.
  - apply scan_start_inv.
  - intros y st Hy Hinv. destruct (scan_row_inv _ st y Hy Hinv) as (st' & Hrow & Hinv').
    exists st'. split; [done |]. by apply row_start_inv.
Qed.

(** The facts about the regions when the scan is over. *)
Lemma scan_regions text :
  exists st,
    Parser.scan text = Some st /\ state_ok st /\
    Grid.lines (Parser.grid st) = Grid.lines (Grid.init text) /\
    (forall c, is_Some (Grid.get_room (Parser.grid st) c.1 c.2) <->
               floor_cell (Grid.init text) c) /\
    (forall c1 c2, floor_cell (Grid.init text) c1 -> floor_cell (Grid.init text) c2 ->
       adjacent c1 c2 ->
       exists r, class (Parser.st_heap st) (Parser.grid st) c1 r /\
                 class (Parser.st_heap st) (Parser.grid st) c2 r) /\
    classes_connected (Grid.init text) (Parser.st_heap st) (Parser.grid st) /\
    rooms_used (Parser.st_heap st) (Parser.grid st) /\
    tallies_ok (Grid.init text) (Parser.st_heap st) (Parser.grid st) /\
    names_ok (Grid.init text) (Parser.st_heap st) (Parser.grid st) /\
    labels_named (Grid.init text) (Parser.st_heap st) (Parser.grid st).
Proof.
  destruct (scan_inv_end text) as (st & Hscan & Hinv).
  destruct Hinv as (Hst & Hlines & Hcov & Hnj & Hcc & Hru & Htal & _ & Hnam & _ & Hlab & _).
  assert (forall c, floor_cell (Grid.init text) c ->
            before 0 (Grid.height (Grid.init text)) c) as Hb.
  { intros c [[Hx Hy] _]. unfold before. lia. }
  exists st. split_and!; try done.
  - destruct (scan_spec text) as (st2 & Hscan2 & Hst2 & _).
    rewrite Hscan in Hscan2. by injection Hscan2 as <-.
  - intros c. simpl in Hcov. rewrite (Hcov c). split; [by intros [? _] |].
    intros Hf. split; [done | by apply Hb].
  - intros c1 c2 H1 H2 Hadj. apply Hnj; try done; by apply Hb.
Qed.

(** * The regions that [parse] finds *)

Lemma elem_of_concat {A} (x : A) (ls : list (list A)) (l : list A) :
  l ∈ ls -> x ∈ l -> x ∈ concat ls.
Proof.
  induction ls as [|l' ls IH]; [by intros ?%elem_of_nil |].
  intros [-> | Hl]%elem_of_cons Hx; simpl; apply elem_of_app; [by left | right; by apply IH].
Qed.

Lemma get_room_cell_rooms g x y l : Grid.get_room g x y = Some l -> l ∈ cell_rooms g.
Proof.
  unfold Grid.get_room, cell_rooms.
  destruct ((y <? 0) || (y >=? Grid.height g)); [done |].
  destruct ((x <? 0) || (x >=? Grid.width g)); [done |].
  destruct (Grid.cells g !! Z.to_nat y) as [row|] eqn:Hrow; [simpl | done].
  destruct (row !! Z.to_nat x) as [cell|] eqn:Hcell; [simpl | done]. intros ->.
  apply list_elem_of_omap. exists (Some l). split; [| done].
  apply elem_of_concat with row; by eapply list_elem_of_lookup_2.
Qed.

Lemma region_root st c l :
  region st c = Some l ->
  exists rec, Parser.st_heap st !! l = Some rec /\ Room.merged_into rec = None.
Proof. intros (l0 & _ & Hres)%region_of_class. by eapply resolves_is_root. Qed.

Lemma count_pos {A} (P : A -> Prop) `{!forall x, Decision (P x)} (l : list A) (x : A) :
  x ∈ l -> P x -> (0 < length (filter P l))%nat.
Proof.
  intros Hx HP. assert (x ∈ filter P l) as Hin by (by apply list_elem_of_filter).
  destruct (filter P l); [by inversion Hin | simpl; lia].
Qed.

Lemma chairs_in_sum (reg : Z * Z -> option loc) g0 (D : list loc) t :
  NoDup D ->
  foldr (fun l acc => chairs_in reg g0 l t + acc) 0 D =
  Z.of_nat (length (filter (fun c => reg c ∈ Some <$> D /\
                                     chair_of_char (Grid.get_char g0 c.1 c.2) = Some t)
                           (all_cells g0))).
Proof.
  induction 1 as [|l D Hl Hnd IH]; simpl.
  - rewrite (count_ext _ (fun _ => False)); [by induction (all_cells g0) |].
    intros c _. split; [| done]. by intros [?%elem_of_nil _].
  - rewrite IH. unfold chairs_in. rewrite <- Nat2Z.inj_add. f_equal. symmetry.
    apply count_split.
    + intros c. rewrite elem_of_cons. split.
      * intros [[? | ?] ?]; [left | right]; done.
      * intros [[? ?] | [? ?]]; (split; [| done]); [by left | by right].
    + intros c [Hc _] [Hin _]. rewrite Hc in Hin.
      apply list_elem_of_fmap in Hin as (l' & Heq & Hl'). by injection Heq as <-.
Qed.

Lemma region_floor text st c :
  state_ok st ->
  (forall c, is_Some (Grid.get_room (Parser.grid st) c.1 c.2) <->
             floor_cell (Grid.init text) c) ->
  is_Some (region st c) <-> floor_cell (Grid.init text) c.
Proof.
  intros ((Hf & _) & _ & Hcells & _) Hcov. rewrite <- (Hcov c).
  unfold region, region_of. split.
  - intros [r Hr]. destruct (Grid.get_room _ _ _); [done | by simpl in Hr].
  - intros [l Hl]. rewrite Hl. simpl.
    destruct (Hf l (get_room_valid _ _ _ _ _ Hcells Hl)) as [r Hr].
    exists r. by apply root_of_resolves.
Qed.

(** The scan and [parse] together. *)
Lemma parse_regions text :
  exists st e roots,
    Parser.scan text = Some st /\ state_ok st /\ Parser.parse text = Some e /\
    Forall2 (resolves (Parser.st_heap st)) (cell_rooms (Parser.grid st)) roots /\
    extracted (Parser.st_heap st) (distinct roots) e /\
    (forall c, is_Some (region st c) <-> floor_cell (Grid.init text) c) /\
    (forall c1 c2, floor_cell (Grid.init text) c1 -> floor_cell (Grid.init text) c2 ->
       adjacent c1 c2 -> region st c1 = region st c2) /\
    (forall c1 c2 r, region st c1 = Some r -> region st c2 = Some r ->
       connected (Grid.init text) c1 c2) /\
    (forall r, is_root (Parser.st_heap st) r -> exists c, region st c = Some r) /\
    (forall c r, region st c = Some r -> r ∈ distinct roots) /\
    tallies_ok (Grid.init text) (Parser.st_heap st) (Parser.grid st) /\
    names_ok (Grid.init text) (Parser.st_heap st) (Parser.grid st) /\
    labels_named (Grid.init text) (Parser.st_heap st) (Parser.grid st).
Proof.
  destruct (parse_spec text) as (st & e & roots & Hscan & Hst & Hparse & Hroots & He).
  destruct (scan_regions text)
    as (st2 & Hscan2 & _ & Hlines & Hcov & Hnj & Hcc & Hru & Htal & Hnam & Hlab).
  rewrite Hscan in Hscan2. injection Hscan2 as <-.
  exists st, e, roots. split_and!; try done.
  - intros c. by apply region_floor.
  - intros c1 c2 H1 H2 Hadj. destruct (Hnj c1 c2 H1 H2 Hadj) as (r & Hc1 & Hc2).
    apply region_of_class in Hc1, Hc2. unfold region. congruence.
  - intros c1 c2 r H1%region_of_class H2%region_of_class. by eapply Hcc.
  - intros r (rec & Hrec & Hm). destruct (Hru r) as [c Hc]; [by eapply lookup_lt_Some |].
    exists c. apply region_of_class. exists r. split; [done |].
    exists 0%nat. by econstructor.
  - intros c r (l & Hl & Hres)%region_of_class. apply elem_of_distinct.
    apply get_room_cell_rooms in Hl. apply list_elem_of_lookup in Hl as [i Hi].
    destruct (Forall2_lookup_l _ _ _ _ _ Hroots Hi) as (r' & Hr' & Hres').
    rewrite (resolves_fun _ _ _ _ Hres Hres'). by eapply list_elem_of_lookup_2.
Qed.

(** * Merging and walls *)

(** C2, amended.  The check of the cell directly above is the only
    thing that merges.  A wall cell leaves the store as it is and closes the
    open region.  A floor cell that continues a segment makes no room.  The
    floor cell after a wall, or at the start of a row, opens a room that
    did not exist before, and every older room keeps its root; with no
    room above the cell, the new room is a root and alone in its class: it
    is not joined to the segment on the other side of the wall; with a
    room above, the new room is in the class of that room, together with
    the rooms that were in that class and no others.  When a step brings
    two rooms of different classes into one class, the cell is a floor
    cell, the cell above it is a floor cell that holds a room, and the two
    classes are the one of that room and the one of the region open in the
    row.  No step splits a class, and a floor cell under a floor cell that
    holds a room leaves the open region in the class of that room.  When
    the scan is over, every floor cell, and no other, holds a room, and two
    floor cells are in one class exactly when a path of floor cells, each
    sharing a side with the next, joins them: two segments that a wall
    separates are in one class when both have met rooms of one class
    above. *)
Theorem merge_only_with_room_above (st : Parser.state) (x y : Z) :
  state_ok st ->
  0 <= x < Grid.width (Parser.grid st) -> 0 <= y < Grid.height (Parser.grid st) ->
  exists st',
    Parser.scan_cell y st x = Some st' /\
    (Grid.is_wall (Parser.grid st) x y = true ->
       Parser.st_heap st' = Parser.st_heap st /\
       Parser.current_room st' = None /\ Parser.name_buffer st' = None) /\
    (forall cur,
       Grid.is_wall (Parser.grid st) x y = false -> Parser.current_room st = Some cur ->
       Parser.current_room st' = Some cur /\
       length (Parser.st_heap st') = length (Parser.st_heap st)) /\
    (Grid.is_wall (Parser.grid st) x y = false -> Parser.current_room st = None ->
       Parser.current_room st' = Some (length (Parser.st_heap st)) /\
       length (Parser.st_heap st') = S (length (Parser.st_heap st)) /\
       (forall l root, resolves (Parser.st_heap st) l root ->
                       resolves (Parser.st_heap st') l root) /\
       (Grid.get_connected_room_above (Parser.grid st) x y = None ->
          is_root (Parser.st_heap st') (length (Parser.st_heap st)) /\
          forall l, resolves (Parser.st_heap st') l (length (Parser.st_heap st)) ->
                    l = length (Parser.st_heap st)) /\
       (forall above,
          Grid.get_connected_room_above (Parser.grid st) x y = Some above ->
          exists fa,
            resolves (Parser.st_heap st) above fa /\
            resolves (Parser.st_heap st') (length (Parser.st_heap st)) fa /\
            forall l, resolves (Parser.st_heap st') l fa ->
                      l = length (Parser.st_heap st) \/ resolves (Parser.st_heap st) l fa)) /\
    (forall l1 l2 r1 r2 r,
       resolves (Parser.st_heap st) l1 r1 -> resolves (Parser.st_heap st) l2 r2 ->
       r1 <> r2 ->
       resolves (Parser.st_heap st') l1 r -> resolves (Parser.st_heap st') l2 r ->
       Grid.is_wall (Parser.grid st) x y = false /\
       exists above cur,
         Grid.get_connected_room_above (Parser.grid st) x y = Some above /\
         Parser.current_room st = Some cur /\
         ((resolves (Parser.st_heap st) above r1 /\ resolves (Parser.st_heap st) cur r2) \/
          (resolves (Parser.st_heap st) above r2 /\ resolves (Parser.st_heap st) cur r1))) /\
    (forall l1 l2 r,
       resolves (Parser.st_heap st) l1 r -> resolves (Parser.st_heap st) l2 r ->
       exists r', resolves (Parser.st_heap st') l1 r' /\ resolves (Parser.st_heap st') l2 r') /\
    (forall above,
       Grid.is_wall (Parser.grid st) x y = false ->
       Grid.get_connected_room_above (Parser.grid st) x y = Some above ->
       exists cur r, Parser.current_room st' = Some cur /\
                     resolves (Parser.st_heap st') above r /\
                     resolves (Parser.st_heap st') cur r) /\
    (forall text, exists end_st,
       Parser.scan text = Some end_st /\
       (forall c, is_Some (Grid.get_room (Parser.grid end_st) c.1 c.2) <->
                  floor_cell (Grid.init text) c) /\
       (forall c1 c2,
          floor_cell (Grid.init text) c1 -> floor_cell (Grid.init text) c2 ->
          ((exists r, class (Parser.st_heap end_st) (Parser.grid end_st) c1 r /\
                      class (Parser.st_heap end_st) (Parser.grid end_st) c2 r) <->
           connected (Grid.init text) c1 c2))).
Proof.
  intros Hst Hx Hy.
  destruct (scan_cell_spec y st x Hst Hx Hy)
    as (st' & m & Hcell & Hst' & _ & _ & Hwall & Hfloor & Hres & Hm & _).
  assert (forall l root, resolves (Parser.st_heap st) l root ->
                         root <> length (Parser.st_heap st)) as Hold.
  { intros l root (rr & Hrr & _)%resolves_is_root ->.
    apply lookup_lt_Some in Hrr. lia. }
  exists st'. split_and!; [done | | | | | | |].
  - intros Hw. by rewrite (Hwall Hw).
  - intros cur Hw Hcur.
    destruct (scan_cell_floor y st x Hst Hx Hy Hw) as (st2 & cur2 & Hcell2 & Hcur2 & Hcase).
    rewrite Hcell in Hcell2. injection Hcell2 as <-.
    destruct Hcase as [[Hc Hlen] | (Hc & _)]; [| congruence].
    split; [congruence | done].
  - intros Hw Hnone.
    destruct (scan_cell_floor y st x Hst Hx Hy Hw) as (st2 & cur2 & Hcell2 & Hcur2 & Hcase).
    rewrite Hcell in Hcell2. injection Hcell2 as <-.
    destruct Hcase as [[Hc _] | (_ & -> & Hlen & Hkeep & Halone & Hjoined)]; [congruence |].
    assert (forall l root, resolves (Parser.st_heap st') l root ->
              l = length (Parser.st_heap st) \/ resolves (Parser.st_heap st) l root) as Hcases.
    { intros l root Hl. destruct (decide (l = length (Parser.st_heap st))) as [| Hne]; [by left |].
      right. assert (l < length (Parser.st_heap st))%nat as Hlt.
      { destruct Hl as [d Hl]. assert (l < length (Parser.st_heap st'))%nat; [| lia].
        inversion Hl; by eapply lookup_lt_Some. }
      destruct (proj1 (proj1 Hst) _ Hlt) as [root0 Hl0].
      by rewrite (resolves_fun _ _ _ _ Hl (Hkeep _ _ Hl0)). }
    split_and!; [done | done | done | |].
    + intros Hab. pose proof (Halone Hab) as Hself. split; [by eapply resolves_is_root |].
      intros l Hl. destruct (Hcases _ _ Hl) as [| Hl0]; [done |]. by destruct (Hold _ _ Hl0).
    + intros above Hab. destruct (Hjoined _ Hab) as (fa & Hfa & Hnew).
      exists fa. split_and!; [done | done |]. intros l Hl. by apply Hcases.
  - intros l1 l2 r1 r2 r Hr1 Hr2 Hne Hr1' Hr2'.
    pose proof (resolves_fun _ _ _ _ Hr1' (Hres _ _ Hr1)) as E1.
    pose proof (resolves_fun _ _ _ _ Hr2' (Hres _ _ Hr2)) as E2.
    destruct m as [[fa fc]|]; simpl in E1, E2; [| congruence].
    destruct (Hm fa fc eq_refl) as (Hw & Hfafc & above & Habove & Hra & Hcur).
    split; [done |]. exists above.
    destruct (decide (r1 = fc)) as [-> | Hn1]; destruct (decide (r2 = fc)) as [-> | Hn2];
      try congruence.
    + destruct Hcur as [(cur & Hc & Hrc) | [_ ->]]; [| by destruct (Hold _ _ Hr1)].
      exists cur. split_and!; [done | done |]. right. split; [congruence | done].
    + destruct Hcur as [(cur & Hc & Hrc) | [_ ->]]; [| by destruct (Hold _ _ Hr2)].
      exists cur. split_and!; [done | done |]. left. split; [congruence | done].
  - intros l1 l2 r Hr1 Hr2. exists (redirect m r). split; by apply Hres.
  - intros above Hw Habove. destruct (Hfloor Hw) as (cur & Hcur & _ & Hjoin).
    destruct (Hjoin _ Habove) as (r & ? & ?). by exists cur, r.
  - intros text.
    destruct (scan_regions text)
      as (end_st & Hscan & ((Hforest & _) & _ & Hcells & _) & _ & Hcov & Hnj & Hcc & _).
    exists end_st. split_and!; [done | done |].
    intros c1 c2 H1 H2. split.
    + intros (r & Hc1 & Hc2). by eapply Hcc.
    + clear H1 H2. induction 1 as [c Hc | c1 c2 c3 H1 H12 H23 IH].
      * destruct (proj2 (Hcov c) Hc) as [l Hl].
        destruct (Hforest l (get_room_valid _ _ _ _ _ Hcells Hl)) as [r Hr].
        exists r. split; by exists l.
      * destruct IH as (r & Hc2 & Hc3).
        destruct (Hnj c1 c2 H1 (connected_floor_l _ _ _ H23) H12) as (r' & Hc1 & Hc2').
        exists r. split; [| done]. destruct Hc2 as (l2 & Hl2 & Hr2).
        destruct Hc2' as (l2' & Hl2' & Hr2'). rewrite Hl2 in Hl2'. injection Hl2' as <-.
        by rewrite (resolves_fun _ _ _ _ Hr2 Hr2').
Qed.

Lemma merge_only_with_room_above_witness :
  exists st',
    Parser.scan_cell 1 below_first_cell 0 = Some st' /\
    Parser.current_room st' = Some 1%nat /\
    length (Parser.st_heap st') = 2%nat /\
    exists fa,
      resolves (Parser.st_heap below_first_cell) 0 fa /\
      resolves (Parser.st_heap st') 1 fa /\
      forall l, resolves (Parser.st_heap st') l fa ->
                l = 1%nat \/ resolves (Parser.st_heap below_first_cell) l fa.
Proof.
  destruct (merge_only_with_room_above below_first_cell 0 1)
    as (st' & Hcell & _ & _ & Hfresh & _).
  - apply (close_room_ok
             (Parser.mkState [Room.init 1]
                (Grid.mk [" "; " "] [[Some 0%nat]; [None]]) 1 (Some 0%nat) None)).
    apply (state_ok_after_cell
             (Parser.mkState [] (Grid.init (" " +:+ Formatter.newline +:+ " ")) 0 None None)
             0 0).
    + apply initial_state_ok.
    + by vm_compute.
    + by vm_compute.
    + by vm_compute.
  - by vm_compute.
  - by vm_compute.
  - destruct Hfresh as (Hcur & Hlen & _ & _ & Hjoined); [reflexivity | reflexivity |].
    exists st'. split_and!; [done | done | done |]. by apply (Hjoined 0%nat).
Defined.

(** X9.  The regions that [parse] builds are the connected components of the
    floor: every cell of the grid that holds no wall character, and no
    other, is in a region; two floor cells are in one region exactly when
    a path of floor cells, each sharing a side with the next, joins them;
    and the roots of the store are the regions of the cells. *)
Theorem regions_are_components (text : string) :
  exists st,
    Parser.scan text = Some st /\
    (forall c, is_Some (region st c) <-> floor_cell (Grid.init text) c) /\
    (forall c1 c2, floor_cell (Grid.init text) c1 -> floor_cell (Grid.init text) c2 ->
       (region st c1 = region st c2 <-> connected (Grid.init text) c1 c2)) /\
    (forall r, is_root (Parser.st_heap st) r <-> exists c, region st c = Some r).
Proof.
  destruct (parse_regions text)
    as (st & e & roots & Hscan & Hst & _ & _ & _ & Hfloor & Hadj & Hconn & Hroot & _).
  exists st. split_and!; [done | done | |].
  - intros c1 c2 H1 H2. split.
    + intros Heq. destruct (proj2 (Hfloor c1) H1) as [r Hr].
      apply Hconn with r; [done | by rewrite <- Heq].
    + clear H1 H2. induction 1 as [c Hc | c1 c2 c3 H1 H12 H23 IH]; [done |].
      rewrite <- IH. apply Hadj; [done | by eapply connected_floor_l | done].
  - intros r. split; [apply Hroot |]. intros [c Hc]. by eapply region_root.
Qed.

(** X10.  Every room that [parse] returns is the root of a region of the floor
    plan, returned once, and each of its four counts is the number of
    cells of that region that hold the chair character. *)
Theorem returned_tallies_count_region (text : string) :
  exists st e,
    Parser.scan text = Some st /\ Parser.parse text = Some e /\
    NoDup (Grid.rooms e) /\
    (forall l, l ∈ Grid.rooms e ->
       exists rec,
         Grid.ex_heap e !! l = Some rec /\ Room.merged_into rec = None /\
         Room.id rec = Z.of_nat l + 1 /\
         (exists c, region st c = Some l) /\
         forall t, chair_get (Room.chairs rec) t =
                   chairs_in (region st) (Grid.init text) l t) /\
    (forall c l, region st c = Some l -> is_named (Parser.st_heap st) l -> l ∈ Grid.rooms e).
Proof.
  destruct (parse_regions text)
    as (st & e & roots & Hscan & Hst & Hparse & Hroots & He & Hfloor & Hadj & Hconn &
        Hroot & Hin & Htal & Hnam & Hlab).
  destruct He as (Hc & _ & Hrooms & _).
  exists st, e. split_and!; [done | done | | |].
  - rewrite Hrooms. apply NoDup_filter, NoDup_distinct.
  - intros l Hl. rewrite Hrooms in Hl. apply list_elem_of_filter in Hl as [_ Hl].
    apply (proj1 (elem_of_distinct _ _)), list_elem_of_lookup in Hl as [i Hi].
    destruct (Forall2_lookup_r _ _ _ _ _ Hroots Hi) as (l0 & _ & Hres).
    pose proof (resolves_is_root _ _ _ Hres) as Hisroot.
    destruct Hisroot as (rec & Hrec & Hm). exists rec. split_and!.
    + by eapply compressed_root_lookup.
    + done.
    + destruct Hst as ((_ & Hok) & _). by destruct (Hok _ _ Hrec).
    + apply Hroot. by exists rec.
    + intros t. by apply Htal.
  - intros c l Hc' Hnamed. rewrite Hrooms. apply list_elem_of_filter. split; [done |].
    by eapply Hin.
Qed.

Lemma total_of_chairs_in (hp : heap) reg g0 (D : list loc) (rooms : list Room.t) t :
  Forall2 (fun l r => hp !! l = Some r) D rooms ->
  (forall l r, l ∈ D -> hp !! l = Some r ->
     chair_get (Room.chairs r) t = chairs_in reg g0 l t) ->
  total_of rooms t = foldr (fun l acc => chairs_in reg g0 l t + acc) 0 D.
Proof.
  induction 1 as [|l r D rooms Hl HF IH]; intros Hall; [done |].
  simpl. rewrite (Hall l r) by (done || by left). f_equal.
  apply IH. intros l' r' Hin. apply Hall. by right.
Qed.

(** X11.  [format_output(parse(text))]: the line of the totals shows, for each
    chair type, the number of chair characters of the floor plan that lie
    in a region whose root carries a name; when [parse] prints no warning
    these are all the chair characters of the plan. *)
Theorem total_line_counts_chairs (text : string) :
  exists st e rooms,
    Parser.scan text = Some st /\ Parser.parse text = Some e /\
    Parser.parsed_rooms text = Some rooms /\
    Formatter.format_output rooms =
      "total:" +:+ Formatter.newline
        +:+ Formatter.format_chair_line (sum_chairs rooms) +:+ Formatter.newline
        +:+ blocks (Formatter.sorted rooms) /\
    (forall t, chair_get (sum_chairs rooms) t =
               chair_cells (Grid.init text) (in_named_region st) t) /\
    (Grid.stderr e = [] ->
     forall t, chair_get (sum_chairs rooms) t =
               chair_cells (Grid.init text) (fun _ => true) t).
Proof.
  destruct (parse_regions text)
    as (st & e & roots & Hscan & Hst & Hparse & Hroots & He & Hfloor & Hadj & Hconn &
        Hroot & Hin & Htal & _).
  destruct He as (Hc & _ & Hrooms & Herr).
  assert (forall l, l ∈ Grid.rooms e ->
            exists rec, Grid.ex_heap e !! l = Some rec /\
                        Parser.st_heap st !! l = Some rec /\
                        Room.merged_into rec = None) as Hrec.
  { intros l Hl. rewrite Hrooms in Hl. apply list_elem_of_filter in Hl as [_ Hl].
    apply (proj1 (elem_of_distinct _ _)), list_elem_of_lookup in Hl as [i Hi].
    destruct (Forall2_lookup_r _ _ _ _ _ Hroots Hi) as (l0 & _ & Hres).
    destruct (resolves_is_root _ _ _ Hres) as (rec & Hr & Hm).
    exists rec. split_and!; [by eapply compressed_root_lookup | done | done]. }
  assert (is_Some (mapM (fun l => Grid.ex_heap e !! l) (Grid.rooms e))) as [rooms Hmap].
  { apply mapM_is_Some, Forall_forall. intros l Hl.
    destruct (Hrec l Hl) as (rec & Hl' & _). by exists rec. }
  assert (forall c, region st c ∈ Some <$> Grid.rooms e <-> in_named_region st c) as Hnamed.
  { intros c. unfold in_named_region. split.
    - intros (l & -> & Hl)%list_elem_of_fmap. rewrite Hrooms in Hl.
      by apply list_elem_of_filter in Hl as [Hl _].
    - destruct (region st c) as [l|] eqn:Hreg; [| done]. intros Hl.
      apply list_elem_of_fmap. exists l. split; [done |]. rewrite Hrooms.
      apply list_elem_of_filter. split; [done | by eapply Hin]. }
  assert (forall t, chair_get (sum_chairs rooms) t =
                    chair_cells (Grid.init text) (in_named_region st) t) as Htotal.
  { intros t. rewrite sum_chairs_get.
    rewrite (total_of_chairs_in (Grid.ex_heap e) (region st) (Grid.init text)
               (Grid.rooms e) rooms t).
    - rewrite chairs_in_sum by (rewrite Hrooms; apply NoDup_filter, NoDup_distinct).
      unfold chair_cells. f_equal. apply count_ext. intros c _. by rewrite Hnamed.
    - by apply mapM_Some.
    - intros l r Hl Hlr. destruct (Hrec l Hl) as (rec & Hl' & Hh & Hm).
      rewrite Hlr in Hl'. injection Hl' as <-. by apply Htal. }
  exists st, e, rooms. split_and!; try done.
  - unfold Parser.parsed_rooms. by rewrite Hparse.
  - by rewrite format_output_blocks, totals_loop_sum.
  - intros Hnone t. rewrite Htotal. unfold chair_cells. f_equal. apply count_ext.
    intros c Hcin%elem_of_all_cells. split; [intros [_ ?]; by split |].
    intros [_ Hch]. split; [| done].
    unfold in_named_region.
    destruct (proj2 (Hfloor c)) as [l Hl].
    { split; [done | by eapply chair_not_wall]. }
    rewrite Hl. destruct (region_root _ _ _ Hl) as (rec & Hr & Hm).
    unfold is_named. rewrite Hr. apply bool_decide_pack. intros Hname.
    assert (is_anomaly (Parser.st_heap st) l) as Han.
    { unfold is_anomaly. rewrite Hr. apply andb_prop_intro. split.
      - by apply bool_decide_pack.
      - apply bool_decide_pack, Exists_exists. exists t. split.
        + unfold CHAIR_TYPES.
          destruct t; [by left | by right; left | by do 2 right; left | by do 3 right; left].
        + rewrite (Htal _ _ t Hr Hm). unfold chairs_in.
          pose proof (count_pos
                        (fun c => region_of (Parser.st_heap st) (Parser.grid st) c = Some l /\
                                  chair_of_char (Grid.get_char (Grid.init text) c.1 c.2) = Some t)
                        (all_cells (Grid.init text)) c ltac:(by apply elem_of_all_cells)
                        ltac:(done)).
          lia. }
    rewrite Hnone in Herr. symmetry in Herr. apply fmap_nil_inv in Herr.
    eapply (filter_nil_not_elem_of _ _ l); [done | done | by eapply Hin].
Qed.

Lemma list_ascii_of_foldr (f : Z -> ascii) (l : list Z) :
  String.list_ascii_of_string (foldr (fun x s => String (f x) s) "" l) = f <$> l.
Proof. induction l as [|x l IH]; [done |]. simpl. by rewrite IH. Qed.

Lemma label_chars g x0 x1 y s :
  label g x0 x1 y s ->
  Forall (fun ch => is_wall ch = false /\ ch <> "("%char /\ ch <> ")"%char)
         (String.list_ascii_of_string s).
Proof.
  intros (_ & _ & _ & _ & _ & Hclear & ->). unfold row_chars.
  rewrite (list_ascii_of_foldr (fun x => Grid.get_char g x y)).
  apply Forall_fmap, Forall_forall. intros x Hx%elem_of_seqZ. simpl.
  destruct (Hclear x ltac:(lia)) as (Hw & Ho & Hc). done.
Qed.

(** X12.  Every room that [parse] returns carries a label of the plan as its
    name: the text between a ["("] and the next [")"] of one row, with no
    wall character and no other parenthesis in between, whose closing
    parenthesis lies in the region of the room.  So a name holds no wall
    character and no parenthesis, and a plan without a [")"] gives no
    room. *)
Theorem returned_names_are_labels (text : string) :
  exists st e,
    Parser.scan text = Some st /\ Parser.parse text = Some e /\
    (forall l, l ∈ Grid.rooms e ->
       exists rec s x0 x1 y,
         Grid.ex_heap e !! l = Some rec /\ Room.name rec = Some s /\
         label (Grid.init text) x0 x1 y s /\ region st (x1, y) = Some l /\
         Forall (fun ch => is_wall ch = false /\ ch <> "("%char /\ ch <> ")"%char)
                (String.list_ascii_of_string s)) /\
    ((forall x y, Grid.get_char (Grid.init text) x y <> ")"%char) -> Grid.rooms e = []).
Proof.
  destruct (parse_regions text)
    as (st & e & roots & Hscan & Hst & Hparse & Hroots & He & _ & _ & _ & _ & _ & _ & Hnam & _).
  destruct He as (Hc & _ & Hrooms & _).
  assert (forall l, l ∈ Grid.rooms e ->
            exists rec s x0 x1 y,
              Grid.ex_heap e !! l = Some rec /\ Room.name rec = Some s /\
              label (Grid.init text) x0 x1 y s /\ region st (x1, y) = Some l) as Hall.
  { intros l Hl. rewrite Hrooms in Hl. apply list_elem_of_filter in Hl as [Hnamed Hl].
    apply (proj1 (elem_of_distinct _ _)), list_elem_of_lookup in Hl as [i Hi].
    destruct (Forall2_lookup_r _ _ _ _ _ Hroots Hi) as (l0 & _ & Hres).
    destruct (resolves_is_root _ _ _ Hres) as (rec & Hr & Hm).
    unfold is_named in Hnamed. rewrite Hr in Hnamed. apply bool_decide_unpack in Hnamed.
    destruct (Room.name rec) as [s|] eqn:Hs; [| done].
    destruct (Hnam _ _ _ Hr Hm Hs) as (x0 & x1 & y & Hlab & Hcl).
    exists rec, s, x0, x1, y. split_and!; [| done | done | by apply region_of_class].
    by eapply compressed_root_lookup. }
  exists st, e. split_and!; [done | done | |].
  - intros l Hl. destruct (Hall l Hl) as (rec & s & x0 & x1 & y & ? & ? & Hlab & ?).
    exists rec, s, x0, x1, y. split_and!; try done. by eapply label_chars.
  - intros Hno. destruct (Grid.rooms e) as [|l ls] eqn:Hls; [done |].
    destruct (Hall l ltac:(by left)) as (rec & s & x0 & x1 & y & _ & _ & Hlab & _).
    destruct Hlab as (_ & _ & _ & _ & Hclose & _). by destruct (Hno x1 y).
Qed.

(** X13.  In a plan without an empty label [()], every region in which a label
    ends is returned by [parse], with a name that is not empty. *)
Theorem labelled_regions_are_returned (text : string) :
  (forall x0 x1 y, ~ label (Grid.init text) x0 x1 y "") ->
  exists st e,
    Parser.scan text = Some st /\ Parser.parse text = Some e /\
    forall x0 x1 y s, label (Grid.init text) x0 x1 y s ->
      exists l rec s',
        region st (x1, y) = Some l /\ l ∈ Grid.rooms e /\
        Grid.ex_heap e !! l = Some rec /\ Room.name rec = Some s' /\ s' <> "".
Proof.
  intros Hno.
  destruct (parse_regions text)
    as (st & e & roots & Hscan & Hst & Hparse & Hroots & He & Hfloor & _ & _ & _ & Hin &
        _ & _ & Hlab).
  destruct He as (Hc & _ & Hrooms & _).
  exists st, e. split_and!; [done | done |].
  intros x0 x1 y s Hl. pose proof Hl as (Hx0 & Hx1 & Hy & _ & Hclose & _).
  destruct (proj2 (Hfloor (x1, y))) as [l Hreg].
  { split; [split; simpl; lia |]. simpl. unfold Grid.is_wall. by rewrite Hclose. }
  destruct (region_root _ _ _ Hreg) as (rec & Hrec & Hm).
  pose proof (Hlab Hno x0 x1 y s l rec Hl (proj1 (region_of_class _ _ _ _) Hreg) Hrec) as Ht.
  destruct (Room.name rec) as [s'|] eqn:Hs; [| done].
  exists l, rec, s'. split_and!; [done | | | done |].
  - rewrite Hrooms. apply list_elem_of_filter. split; [| by eapply Hin].
    unfold is_named. rewrite Hrec, Hs. by apply bool_decide_pack.
  - by eapply compressed_root_lookup.
  - intros ->. done.
Qed.

Lemma labelled_regions_are_returned_witness :
  exists st e,
    Parser.scan "(ab)" = Some st /\ Parser.parse "(ab)" = Some e /\
    forall x0 x1 y s, label (Grid.init "(ab)") x0 x1 y s ->
      exists l rec s',
        region st (x1, y) = Some l /\ l ∈ Grid.rooms e /\
        Grid.ex_heap e !! l = Some rec /\ Room.name rec = Some s' /\ s' <> "".
Proof.
  apply (labelled_regions_are_returned "(ab)").
  intros x0 x1 y (Hx0 & Hx1 & Hy & Hopen & Hclose & _ & Hs).
  assert (Grid.width (Grid.init "(ab)") = 4) as Hw by reflexivity.
  assert (Grid.height (Grid.init "(ab)") = 1) as Hh by reflexivity.
  rewrite Hw in Hx1. rewrite Hh in Hy.
  assert (y = 0) as -> by lia.
  assert (x0 = 0 \/ x0 = 1 \/ x0 = 2) as [-> | [-> | ->]] by lia;
    [| by vm_compute in Hopen | by vm_compute in Hopen].
  assert (x1 = 1 \/ x1 = 2 \/ x1 = 3) as [-> | [-> | ->]] by lia;
    [by vm_compute in Hclose | by vm_compute in Hclose |].
  by vm_compute in Hs.
Defined.

(** X14.  The warnings of [parse]: a message is printed exactly for the regions
    whose root has no name and that hold at least one chair character, and
    it shows the identifier of the root and the number of chair characters
    of the region. *)
Theorem warnings_count_chairs (text : string) :
  exists st e,
    Parser.scan text = Some st /\ Parser.parse text = Some e /\
    forall msg, msg ∈ Grid.stderr e <->
      exists c l rec n,
        region st c = Some l /\ Parser.st_heap st !! l = Some rec /\
        Room.name rec = None /\
        n = chairs_in (region st) (Grid.init text) l ChW +
            chairs_in (region st) (Grid.init text) l ChP +
            chairs_in (region st) (Grid.init text) l ChS +
            chairs_in (region st) (Grid.init text) l ChC /\
        0 < n /\ msg = Grid.warning (Z.of_nat l + 1) n.
Proof.
  destruct (parse_regions text)
    as (st & e & roots & Hscan & Hst & Hparse & Hroots & He & Hfloor & _ & _ & Hroot & Hin &
        Htal & _).
  destruct He as (Hc & _ & _ & Herr).
  assert (forall l rec, Parser.st_heap st !! l = Some rec -> Room.merged_into rec = None ->
            Room.id rec = Z.of_nat l + 1 /\
            chairs_total (Room.chairs rec) =
              chairs_in (region st) (Grid.init text) l ChW +
              chairs_in (region st) (Grid.init text) l ChP +
              chairs_in (region st) (Grid.init text) l ChS +
              chairs_in (region st) (Grid.init text) l ChC /\
            (0 <? chairs_total (Room.chairs rec)) = has_chairs (Room.chairs rec)) as Hrec.
  { intros l rec Hl Hm. destruct Hst as ((_ & Hok) & _). destruct (Hok _ _ Hl) as [Hid Hnn].
    split_and!; [done | | by apply chairs_total_pos].
    rewrite <- !(Htal l rec) by done. by destruct (Room.chairs rec). }
  exists st, e. split_and!; [done | done |]. intros msg. rewrite Herr. split.
  - intros (l & -> & [Han Hl]%list_elem_of_filter)%list_elem_of_fmap.
    apply (proj1 (elem_of_distinct _ _)), list_elem_of_lookup in Hl as [i Hi].
    destruct (Forall2_lookup_r _ _ _ _ _ Hroots Hi) as (l0 & _ & Hres).
    pose proof (resolves_is_root _ _ _ Hres) as Hisroot.
    destruct (Hroot l Hisroot) as [c Hreg]. destruct Hisroot as (rec & Hl & Hm).
    destruct (Hrec l rec Hl Hm) as (Hid & Htot & Hpos).
    unfold is_anomaly in Han. unfold warning_of. rewrite Hl in *.
    apply andb_prop_elim in Han as [Hnone%bool_decide_unpack Hhas].
    exists c, l, rec, (chairs_total (Room.chairs rec)).
    split_and!; [done | done | done | done | | by rewrite Hid].
    apply Z.ltb_lt. rewrite Hpos. by apply Is_true_true.
  - intros (c & l & rec & n & Hreg & Hl & Hname & -> & Hn & ->).
    destruct (region_root _ _ _ Hreg) as (rec2 & Hl2 & Hm). rewrite Hl in Hl2.
    injection Hl2 as <-. destruct (Hrec l rec Hl Hm) as (Hid & Htot & Hpos).
    apply list_elem_of_fmap. exists l. split.
    + unfold warning_of. by rewrite Hl, Hid, Htot.
    + apply list_elem_of_filter. split; [| by eapply Hin].
      unfold is_anomaly. rewrite Hl. apply andb_prop_intro. split.
      * by apply bool_decide_pack.
      * apply Is_true_true. rewrite <- Hpos. apply Z.ltb_lt. by rewrite Htot.
Qed.

(** * The command line *)



(** * The visualizer *)

Lemma foldl_option_lockstep {A A' B} (f : A -> B -> option A) (g : A' -> B -> option A')
    (phi : A -> A') (I : A -> Prop) (P : B -> Prop) (l : list B) (a : A) :
  I a -> Forall P l ->
  (forall a b, I a -> P b ->
     exists a', f a b = Some a' /\ I a' /\ g (phi a) b = Some (phi a')) ->
  foldl (fun oa b => a ← oa; g a b) (Some (phi a)) l =
  phi <$> foldl (fun oa b => a ← oa; f a b) (Some a) l.
Proof.
  intros Ha Hl Hstep. revert a Ha. induction Hl as [|b l Hb Hl IH]; intros a Ha; [done |].
  simpl. destruct (Hstep a b Ha Hb) as (a' & Hf & Ha' & Hg). rewrite Hf, Hg. by apply IH.
Qed.

Lemma visualizer_merge_above h g k x y cur :
  cells_ok (length h) g -> 0 <= x < Grid.width g -> 0 <= y < Grid.height g ->
  Visualizer.merge_above h (Visualizer.mk (Grid.lines g) (Grid.cells g) k) x y cur =
  Parser.merge_above h g x y cur.
Proof.
  intros Hcells Hx Hy. unfold Visualizer.merge_above, Parser.merge_above.
  unfold Grid.get_connected_room_above. simpl.
  destruct (0 <? y) eqn:Hy0.
  2: { destruct (y <=? 0) eqn:?; [done | lia]. }
  destruct (y <=? 0) eqn:?; [lia |].
  change (is_wall (get_char (Grid.lines g) x (y - 1))) with (Grid.is_wall g x (y - 1)).
  destruct (Grid.is_wall g x (y - 1)); [done |]. simpl.
  destruct (get_room_subscripts _ g x (y - 1) Hcells ltac:(lia) ltac:(lia))
    as (row & Hrow & [cell Hcell]).
  destruct Hcells as [Hlen Hrows]. destruct (Hrows _ _ Hrow) as [Hrowlen _].
  unfold Visualizer.grid_get, Grid.get_room. simpl.
  rewrite py_index_in_range by lia. simpl. rewrite Hrow. simpl.
  rewrite py_index_in_range by lia. simpl. rewrite Hcell. simpl.
  destruct (y - 1 <? 0) eqn:?; [lia |]. destruct (y - 1 >=? Grid.height g) eqn:?; [lia |].
  destruct (x <? 0) eqn:?; [lia |]. destruct (x >=? Grid.width g) eqn:?; [lia |].
  simpl. by destruct cell.
Qed.

Lemma visualizer_grid_set g k x y cur :
  Visualizer.grid_set (Visualizer.mk (Grid.lines g) (Grid.cells g) k) x y cur =
  (fun g' => Visualizer.mk (Grid.lines g') (Grid.cells g') k) <$> Grid.set_room g x y cur.
Proof.
  unfold Visualizer.grid_set, Grid.set_room. simpl.
  destruct (py_index (length (Grid.cells g)) y) as [j|]; [simpl | done].
  destruct (Grid.cells g !! j) as [row|]; [simpl | done].
  by destruct (py_index (length row) x).
Qed.

Lemma static_cell_scan_cell y st x :
  state_ok st ->
  0 <= x < Grid.width (Parser.grid st) -> 0 <= y < Grid.height (Parser.grid st) ->
  Visualizer.static_cell y (Visualizer.of_parser st) x =
  Visualizer.of_parser <$> Parser.scan_cell y st x.
Proof.
  intros Hst Hx Hy. unfold Visualizer.static_cell, Parser.scan_cell. simpl.
  change (is_wall (get_char (Grid.lines (Parser.grid st)) x y))
    with (Grid.is_wall (Parser.grid st) x y).
  destruct (Grid.is_wall (Parser.grid st) x y); [done |].
  change (get_char (Grid.lines (Parser.grid st)) x y)
    with (Grid.get_char (Parser.grid st) x y).
  unfold Parser.enter_cell.
  destruct (open_room_spec _ Hst)
    as (st1 & cur & Hopen & Hst1 & Hcur1 & Hg1 & Hb1 & _ & Hcase).
  rewrite Hopen. destruct Hst1 as (Hok1 & Hcnt1 & Hcells1 & Hvalid1).
  unfold Parser.open_room in Hopen.
  destruct (Parser.current_room st) as [c|] eqn:Hc; simpl in Hopen;
    injection Hopen as <- <-; simpl in *.
  all: rewrite visualizer_merge_above by done.
  all: match goal with
       | |- context [Parser.merge_above ?h ?g ?x' ?y' ?c] =>
           destruct (Parser.merge_above h g x' y' c) as [hm|]; [simpl | done]
       end.
  all: rewrite visualizer_grid_set.
  all: match goal with
       | |- context [Grid.set_room ?g ?x' ?y' ?c] =>
           destruct (Grid.set_room g x' y' c) as [g2|]; [simpl | done]
       end.
  all: match goal with
       | |- context [Parser.count_chair ?h ?ch ?c] =>
           destruct (Parser.count_chair h ch c) as [hc|]; [simpl | done]
       end.
  all: match goal with
       | |- context [Parser.track_name ?h ?ch ?c ?b] =>
           destruct (Parser.track_name h ch c b) as [[hn buf]|]; [simpl | done]
       end.
  all: unfold Visualizer.of_parser; simpl; by rewrite ?Hc.
Qed.

Lemma static_row_scan_row st y :
  state_ok st -> 0 <= y < Grid.height (Parser.grid st) ->
  Visualizer.static_row (Visualizer.of_parser st) y =
  Visualizer.of_parser <$> Parser.scan_row st y.
Proof.
  intros Hst Hy. unfold Visualizer.static_row, Parser.scan_row.
  change (Visualizer.width (Visualizer.self (Visualizer.of_parser st)))
    with (Grid.width (Parser.grid st)).
  apply (foldl_option_lockstep (Parser.scan_cell y) (Visualizer.static_cell y)
           Visualizer.of_parser
           (fun st' => state_ok st' /\
                       Grid.lines (Parser.grid st') = Grid.lines (Parser.grid st))
           (fun x => 0 <= x < Grid.width (Parser.grid st))
           _ (Parser.close_room st)).
  - split; [by apply close_room_ok | done].
  - apply range_bounds.
  - intros st1 x [Hst1 Hl1] Hx.
    destruct (scan_cell_spec y st1 x Hst1) as (st2 & m & Hcell & Hst2 & Hl2 & _).
    + by rewrite (width_lines _ _ Hl1).
    + by rewrite (height_lines _ _ Hl1).
    + exists st2. split_and!; [done | done | congruence |].
      rewrite static_cell_scan_cell, Hcell; [done | done | |].
      * by rewrite (width_lines _ _ Hl1).
      * by rewrite (height_lines _ _ Hl1).
Qed.

(** X16.  The parsing loop of [run_static] computes what the loops of [parse]
    compute: from the same text both come to the same store of rooms, the
    same assignment of rooms to the cells, the same counter and the same
    local variables. *)
Theorem visualizer_scan_is_parser_scan (text : string) :
  Visualizer.static_scan text = Visualizer.of_parser <$> Parser.scan text.
Proof.
  unfold Visualizer.static_scan, Parser.scan.
  change (Visualizer.height (Visualizer.init text)) with (Grid.height (Grid.init text)).
  apply (foldl_option_lockstep Parser.scan_row Visualizer.static_row Visualizer.of_parser
           (fun st => state_ok st /\
                      Grid.lines (Parser.grid st) = Grid.lines (Grid.init text))
           (fun y => 0 <= y < Grid.height (Grid.init text))
           _ (Parser.mkState [] (Grid.init text) 0 None None)).
  - split; [apply initial_state_ok | done].
  - apply range_bounds.
  - intros st y [Hst Hl] Hy.
    destruct (scan_row_spec st y Hst) as (st' & Hrow & Hst' & Hl').
    + by rewrite (height_lines _ _ Hl).
    + exists st'. split_and!; [done | done | congruence |].
      rewrite static_row_scan_row, Hrow; [done | done |].
      by rewrite (height_lines _ _ Hl).
Qed.
